(** * Scenario generation and factor scoring: a shallow embedding

    The development follows the Python sources
    - [scenario_generator.py] (class [ScenarioGenerator], [generate_datasets]),
    - [score_calculation.py]  ([extract_case_factors], the two counters,
      [process_csv_file]),
    - [pipeline.py]           ([calculate_scores],
      [extract_info_from_filename]).

    Conventions of the embedding.
    - Python [str] values are [string]s of 8-bit characters; the character
      classes [\s] and [\d] and the methods [strip], [lower] are the ASCII
      ones.
    - Python [int] is [Z]; [len] results are [nat] and are injected with
      [Z.of_nat] where the source compares them with an [int].
    - Python [float] metrics are exact rationals [Q].
    - The module-level random source is an explicit stream of naturals in the
      state; every [while] loop whose exit depends on the random source takes
      fuel.  Exceptions are values of [exn].
    - Console output is not modelled, except the messages of the overlap
      checks and of the target-count adjustment, which are recorded as
      [event]s in the state. *)

From Stdlib Require Import Ascii String QArith Lqa.
From Stdlib Require Import Sorted.
From stdpp Require Import gmap strings list.

Local Open Scope string_scope.

(** ** Python string primitives *)

Module PyStr.

Definition ascii_code (c : ascii) : nat := nat_of_ascii c.

Definition is_digit (c : ascii) : bool :=
  (48 <=? ascii_code c)%nat && (ascii_code c <=? 57)%nat.

(** ASCII white space as [str.strip] and [\s] see it. *)
Definition is_space (c : ascii) : bool :=
  let n := ascii_code c in
  ((9 <=? n)%nat && (n <=? 13)%nat) || ((28 <=? n)%nat && (n <=? 32)%nat).

Definition nl : ascii := ascii_of_nat 10.
Definition tab : ascii := ascii_of_nat 9.
Definition backslash : ascii := ascii_of_nat 92.

Definition chr (c : ascii) : string := String c EmptyString.

Fixpoint rev_onto (s acc : string) : string :=
  match s with
  | EmptyString => acc
  | String c s' => rev_onto s' (String c acc)
  end.

Definition rev (s : string) : string := rev_onto s EmptyString.

Fixpoint drop_while (p : ascii -> bool) (s : string) : string :=
  match s with
  | EmptyString => EmptyString
  | String c s' => if p c then drop_while p s' else s
  end.

Fixpoint take_while (p : ascii -> bool) (s : string) : string :=
  match s with
  | EmptyString => EmptyString
  | String c s' => if p c then String c (take_while p s') else EmptyString
  end.

Definition lstrip (s : string) : string := drop_while is_space s.
Definition rstrip (s : string) : string := rev (drop_while is_space (rev s)).
(** [s.strip()] *)
Definition strip (s : string) : string := rstrip (lstrip s).
(** [s.rstrip(c)] for a one-character argument *)
Definition rstrip_char (c : ascii) (s : string) : string :=
  rev (drop_while (fun x => bool_decide (x = c)) (rev s)).

(** [s.split(sep)] for a one-character separator: never an empty list. *)
Fixpoint split (sep : ascii) (s : string) : list string :=
  match s with
  | EmptyString => [EmptyString]
  | String c s' =>
      if bool_decide (c = sep) then EmptyString :: split sep s'
      else match split sep s' with
           | [] => [chr c]
           | w :: ws => String c w :: ws
           end
  end.

(** [sep.join(items)] *)
Fixpoint join (sep : string) (items : list string) : string :=
  match items with
  | [] => EmptyString
  | [x] => x
  | x :: rest => x +:+ sep +:+ join sep rest
  end.

Fixpoint starts_with (p s : string) : bool :=
  match p, s with
  | EmptyString, _ => true
  | String a p', String b s' => bool_decide (a = b) && starts_with p' s'
  | String _ _, EmptyString => false
  end.

(** [sub in s] *)
Fixpoint contains (sub s : string) : bool :=
  starts_with sub s ||
  match s with
  | EmptyString => false
  | String _ s' => contains sub s'
  end.

Definition lower_char (c : ascii) : ascii :=
  let n := ascii_code c in
  if (65 <=? n)%nat && (n <=? 90)%nat then ascii_of_nat (n + 32) else c.

(** [s.lower()] *)
Fixpoint lower (s : string) : string :=
  match s with
  | EmptyString => EmptyString
  | String c s' => String (lower_char c) (lower s')
  end.

Definition digit_val (c : ascii) : Z := Z.of_nat (ascii_code c - 48).

Fixpoint digits_val (acc : Z) (s : string) : Z :=
  match s with
  | EmptyString => acc
  | String c s' => digits_val (10 * acc + digit_val c) s'
  end.

Fixpoint all_chars (p : ascii -> bool) (s : string) : bool :=
  match s with
  | EmptyString => true
  | String c s' => p c && all_chars p s'
  end.

(** Decimal rendering of a natural, as [str(n)] gives it. *)
Fixpoint dec_digits (fuel n : nat) (acc : string) : string :=
  match fuel with
  | O => acc
  | S fuel' =>
      let acc' := String (ascii_of_nat (48 + n mod 10)) acc in
      if (n <? 10)%nat then acc' else dec_digits fuel' (n / 10) acc'
  end.

Definition dec (n : nat) : string := dec_digits (S n) n EmptyString.

End PyStr.

(** ** Exceptions and results *)

Inductive exn : Type :=
| ValueError
| AttributeError
| IndexError.

(** The outcome of running a piece of the program: a value, a raised
    exception, or a loop that did not finish within the fuel it was given. *)
Inductive outcome (A : Type) : Type :=
| Ok (a : A)
| Raise (e : exn)
| OutOfFuel.

Arguments Ok {A} a.
Arguments Raise {A} e.
Arguments OutOfFuel {A}.

(** [int(s)] on the strings the program passes to it: optional surrounding
    white space, an optional sign, then decimal digits; anything else is a
    [ValueError]. *)
Definition py_int (s : string) : outcome Z :=
  let t := PyStr.strip s in
  let body (u : string) : option Z :=
    match u with
    | EmptyString => None
    | _ => if PyStr.all_chars PyStr.is_digit u
           then Some (PyStr.digits_val 0 u) else None
    end in
  let signed : option Z :=
    match t with
    | String "+" u => body u
    | String "-" u => Z.opp <$> body u
    | _ => body t
    end in
  match signed with
  | Some z => Ok z
  | None => Raise ValueError
  end.

(** ** The state of a run: random source and recorded messages *)

(** Messages of the overlap checks and of the target-count adjustment.
    [is_tsc1] tells the side as the source's [is_tsc1] flag does. *)
Inductive event : Type :=
| AdjustTarget (is_tsc1 : bool) (target : Z) (available : nat)
| InitOverlap (is_tsc1 : bool) (n : nat)
| InitNoOverlap (is_tsc1 : bool)
| UpdateOverlap (is_tsc1 : bool) (attempt : nat)
| UpdateWarning
| DatasetOverlap (n1 n2 attempt : nat)
| DatasetValid
| DatasetWarning (max_attempts : nat).

Record world : Type := World {
  rng_src : nat -> nat;
  rng_pos : nat;
  log : list event
}.

(** State and exceptions: the state survives a raised exception, as the
    global random source does. *)
Definition M (A : Type) : Type := world -> outcome A * world.

#[global] Instance M_ret : MRet M := fun A a w => (Ok a, w).

#[global] Instance M_bind : MBind M := fun A B f m w =>
  match m w with
  | (Ok a, w') => f a w'
  | (Raise e, w') => (Raise e, w')
  | (OutOfFuel, w') => (OutOfFuel, w')
  end.

Definition raise {A : Type} (e : exn) : M A := fun w => (Raise e, w).
Definition out_of_fuel {A : Type} : M A := fun w => (OutOfFuel, w).
Definition lift {A : Type} (r : outcome A) : M A := fun w => (r, w).

(** [try: m except ValueError: handler] *)
Definition try_except_ValueError {A : Type} (m handler : M A) : M A := fun w =>
  match m w with
  | (Raise ValueError, w') => handler w'
  | r => r
  end.

Definition emit (e : event) : M unit := fun w =>
  (Ok tt, {| rng_src := rng_src w; rng_pos := rng_pos w; log := log w ++ [e] |}).

(** The random source after one draw. *)
Definition advance (w : world) : world :=
  {| rng_src := rng_src w; rng_pos := S (rng_pos w); log := log w |}.

Module Random.

(** One draw of the underlying generator. *)
Definition draw : M nat := fun w => (Ok (rng_src w (rng_pos w)), advance w).

(** [random.randint(a, b)]: [ValueError] on an empty range, before any
    draw. *)
Definition randint (a b : Z) : M Z :=
  if (b <? a)%Z then raise ValueError
  else d ← draw; mret (a + Z.of_nat d mod (b - a + 1))%Z.

(** [random.choice(seq)] *)
Definition choice {A : Type} (seq : list A) : M A :=
  match seq with
  | [] => raise IndexError
  | _ => d ← draw;
         match seq !! (d mod length seq)%nat with
         | Some x => mret x
         | None => raise IndexError
         end
  end.

(** [random.random() < 0.7]: the draw falls in seven tenths of its range. *)
Definition random_lt_0_7 : M bool :=
  d ← draw; mret (d mod 10 <? 7)%nat.

(** Selection of [k] positions without replacement. *)
Fixpoint sample_go {A : Type} (k : nat) (pool : list A) : M (list A) :=
  match k with
  | O => mret []
  | S k' =>
      d ← draw;
      let j := (d mod length pool)%nat in
      match pool !! j with
      | None => raise ValueError
      | Some x => rest ← sample_go k' (delete j pool); mret (x :: rest)
      end
  end.

(** [random.sample(population, k)]: [ValueError] when [k] is negative or
    larger than the population, before any draw. *)
Definition sample {A : Type} (population : list A) (k : Z) : M (list A) :=
  if ((k <? 0) || (Z.of_nat (length population) <? k))%Z
  then raise ValueError
  else sample_go (Z.to_nat k) population.

End Random.

(** [seq[:k]] *)
Definition slice_to {A : Type} (k : Z) (seq : list A) : list A :=
  if (k <? 0)%Z then take (length seq - Z.to_nat (- k)) seq
  else take (Z.to_nat k) seq.

Definition len {A : Type} (l : list A) : Z := Z.of_nat (length l).

(** ** scenario_generator.py *)

(** [self.factors], the catalog built by the constructor. *)
Definition factors : list string := [
  "F1 Disclosure-in-negotiations (D)";
  "F2 Bribe-employee (P)";
  "F3 Employee-sole-developer (D)";
  "F4 Agreed-not-to-disclose (P)";
  "F5 Agreement-not-specific (D)";
  "F6 Security-measures (P)";
  "F7 Brought-tools (P)";
  "F8 Competitive-advantage (P)";
  "F10 Secrets-disclosed-outsiders (D)";
  "F11 Vertical-knowledge (D)";
  "F12 Outsider-disclosures-restricted (P)";
  "F13 Noncompetition-agreement (P)";
  "F14 Restricted-materials-used (P)";
  "F15 Unique-product (P)";
  "F16 Info-reverse-engineerable (D)";
  "F17 Info-independently-generated (D)";
  "F18 Identical-products (P)";
  "F19 No-security-measures (D)";
  "F20 Info-known-to-competitors (D)";
  "F21 Knew-info-confidential (P)";
  "F22 Invasive-techniques (P)";
  "F23 Waiver-of-confidentiality (D)";
  "F24 Info-obtainable-elsewhere (D)";
  "F25 Info-reverse-engineered (D)";
  "F26 Deception (P)";
  "F27 Disclosure-in-public-forum (D)"
].

(** [ScenarioGenerator.MODE_MAPPING] *)
Definition MODE_MAPPING : gmap string string :=
  <["non-arguable" := "unarguable"]>
    (<["reordered" := "reordered"]>
       (<["arguable" := "arguable"]> ∅)).

(** [d.values()] *)
Definition dict_values (d : gmap string string) : list string :=
  (map_to_list d).*2.

(** The mode mapping that the constructor, [update_tsc] and
    [generate_datasets] each spell out: a key of [MODE_MAPPING] is mapped, a
    value of it is kept, anything else becomes [default]. *)
Definition map_mode (default mode : string) : string :=
  match MODE_MAPPING !! mode with
  | Some internal => internal
  | None => if decide (mode ∈ dict_values MODE_MAPPING) then mode else default
  end.

(** The [else] branches of the constructor (lines 55 and 62) and of
    [generate_datasets] (line 353). *)
Definition init_mode : string -> string := map_mode "reordered".
Definition datasets_mode : string -> string := map_mode "unarguable".

(** [any(x in b for x in a)] *)
Definition overlaps (a b : list string) : bool :=
  bool_decide (Exists (λ x, x ∈ b) a).

(** [self.factors.index(f)] *)
Definition factors_index (f : string) : M nat :=
  match list_find (λ g, g = f) factors with
  | Some (i, _) => mret i
  | None => raise ValueError
  end.

(** [used_indices.update(self.factors.index(f) for f in common_factors)] *)
Fixpoint update_used_indices (used : gset nat) (common : list string)
  : M (gset nat) :=
  match common with
  | [] => mret used
  | f :: rest => i ← factors_index f; update_used_indices ({[i]} ∪ used) rest
  end.

Definition min_factors (complexity : Z) : Z := Z.max 1 (complexity - 1).
Definition max_factors (complexity : Z) : Z := complexity + 1.

(** The [while] loop of [generate_input_factor]. *)
Fixpoint input_factor_loop (fuel : nat) (target_count : Z)
    (selected_factors : list string) (used_indices : gset nat)
  : M (list string) :=
  if (len selected_factors <? target_count)%Z then
    match fuel with
    | O => out_of_fuel
    | S fuel' =>
        index ← Random.randint 0 (len factors - 1);
        if decide (Z.to_nat index ∈ used_indices)
        then input_factor_loop fuel' target_count selected_factors used_indices
        else match factors !! Z.to_nat index with
             | Some f =>
                 input_factor_loop fuel' target_count
                   (selected_factors ++ [f]) ({[Z.to_nat index]} ∪ used_indices)
             | None => raise IndexError
             end
    end
  else mret selected_factors.

Definition generate_input_factor (fuel : nat) (complexity : Z)
  : M (list string) :=
  target_count ← Random.randint (min_factors complexity) (max_factors complexity);
  input_factor_loop fuel target_count [] ∅.

(** Lines 108-112 and 115-119: the shared factors of the side's polarity. *)
Definition common_of_polarity (polar : list string) : M (list string) :=
  match polar with
  | [] => mret []
  | _ =>
      n_common ← Random.randint 1 (Z.min 3 (len polar));
      common_factors ← Random.sample polar n_common;
      _ ← update_used_indices ∅ common_factors;
      mret common_factors
  end.

(** The filling [while] loop of the arguable branch. *)
Fixpoint fill_loop (fuel : nat) (target_count : Z)
    (selected_factors : list string) : M (list string) :=
  if (len selected_factors <? target_count)%Z then
    match fuel with
    | O => out_of_fuel
    | S fuel' =>
        factor ← Random.choice factors;
        if decide (factor ∈ selected_factors)
        then fill_loop fuel' target_count selected_factors
        else fill_loop fuel' target_count (selected_factors ++ [factor])
    end
  else mret selected_factors.

Definition generate_tsc_factor (fuel : nat) (complexity : Z)
    (input_factors : list string) (mode : string) (is_tsc1 : bool)
  : M (list string) :=
  target_count ← Random.randint (min_factors complexity) (max_factors complexity);
  if decide (mode = "arguable") then
    let input_d_factors :=
      filter (λ f, Is_true (PyStr.contains "(D)" f)) input_factors in
    let input_p_factors :=
      filter (λ f, Is_true (PyStr.contains "(P)" f)) input_factors in
    selected_factors ←
      (if is_tsc1 then common_of_polarity input_p_factors
       else common_of_polarity input_d_factors);
    let other_factors := filter (λ f, f ∉ selected_factors) input_factors in
    selected_factors ←
      match other_factors with
      | [] => mret selected_factors
      | _ =>
          lucky ← Random.random_lt_0_7;
          if lucky : bool then
            n_other ← Random.randint 1 (Z.min 3 (len other_factors));
            more ← Random.sample other_factors n_other;
            mret (selected_factors ++ more)%list
          else mret selected_factors
      end;
    fill_loop fuel target_count selected_factors
  else
    let available_factors := filter (λ f, f ∉ input_factors) factors in
    target_count ←
      (if (len available_factors <? target_count)%Z
       then _ ← emit (AdjustTarget is_tsc1 target_count (length available_factors));
            mret (len available_factors)
       else mret target_count);
    try_except_ValueError
      (Random.sample available_factors target_count)
      (mret (slice_to target_count available_factors)).

#[global] Instance outcome_ret : MRet outcome := fun A a => Ok a.

#[global] Instance outcome_bind : MBind outcome := fun A B f m =>
  match m with
  | Ok a => f a
  | Raise e => Raise e
  | OutOfFuel => OutOfFuel
  end.

(** *** Sorting with a key *)

Section Sorted.
Context {K A : Type} (leb : K -> K -> bool).

Fixpoint insert_keyed (x : K * A) (l : list (K * A)) : list (K * A) :=
  match l with
  | [] => [x]
  | y :: l' => if leb x.1 y.1 then x :: y :: l' else y :: insert_keyed x l'
  end.

(** Stable: among equal keys the earlier item stays first. *)
Fixpoint sort_keyed (l : list (K * A)) : list (K * A) :=
  match l with
  | [] => []
  | x :: l' => insert_keyed x (sort_keyed l')
  end.

(** The keys are computed first, in order, and an exception of the key
    function leaves [sorted]. *)
Fixpoint decorate (key : A -> outcome K) (l : list A) : outcome (list (K * A)) :=
  match l with
  | [] => Ok []
  | x :: l' => k ← key x; rest ← decorate key l'; Ok ((k, x) :: rest)
  end.

(** [sorted(l, key=key)] *)
Definition sorted (key : A -> outcome K) (l : list A) : outcome (list A) :=
  keyed ← decorate key l; Ok ((sort_keyed keyed).*2).
End Sorted.

(** Keys of [extract_factor_number]: an [int] or [float('inf')]. *)
Inductive factor_number : Type :=
| Num (n : Z)
| Inf.

Definition factor_number_leb (a b : factor_number) : bool :=
  match a, b with
  | Num x, Num y => (x <=? y)%Z
  | _, Inf => true
  | Inf, Num _ => false
  end.

(** [re.match(r"F(\d+)", factor)] and its group 1. *)
Definition match_F_digits (factor : string) : option string :=
  match factor with
  | String "F" rest =>
      match PyStr.take_while PyStr.is_digit rest with
      | EmptyString => None
      | ds => Some ds
      end
  | _ => None
  end.

(** [int(s)] refuses a string of more than 4300 digits with a [ValueError]
    (the default of [sys.set_int_max_str_digits], Python 3.11 and later); the
    leading zeros count. *)
Definition int_max_str_digits : nat := 4300.

Definition extract_factor_number (factor : string) : outcome factor_number :=
  match match_F_digits factor with
  | Some ds =>
      if (int_max_str_digits <? String.length ds)%nat then Raise ValueError
      else Ok (Num (PyStr.digits_val 0 ds))
  | None => Ok Inf
  end.

(** [re.search(r'\\d+', x)] and its [group()].  The pattern of the source is
    the four characters backslash, backslash, d, plus: a backslash followed by
    one or more letters d. *)
Fixpoint search_backslash_ds (x : string) : option string :=
  match x with
  | EmptyString => None
  | String c x' =>
      if bool_decide (c = PyStr.backslash) then
        match PyStr.take_while (λ a, bool_decide (a = "d"%char)) x' with
        | EmptyString => search_backslash_ds x'
        | ds => Some (String c ds)
        end
      else search_backslash_ds x'
  end.

(** The sort key of [generate_initial_prompt]:
    [lambda x: int(re.search(r'\\d+', x).group())]. *)
Definition prompt_sort_key (x : string) : outcome Z :=
  match search_backslash_ds x with
  | None => Raise AttributeError
  | Some g => py_int g
  end.

(** The separator [",\\n\t"] of the source: comma, backslash, n, tab. *)
Definition separator : string :=
  "," +:+ PyStr.chr PyStr.backslash +:+ "n" +:+ PyStr.chr PyStr.tab.

(** The prompt templates of [generate_initial_prompt] and [update_tsc], which
    differ in the two outcome words only. *)
Definition prompt_template (outcome1 outcome2 : string)
    (input_scenario_str tsc1_factors_str tsc2_factors_str : string) : string :=
  PyStr.chr PyStr.nl +:+
  "Input Scenario " +:+ PyStr.chr PyStr.nl +:+
  PyStr.chr PyStr.tab +:+ input_scenario_str +:+ PyStr.chr PyStr.nl +:+
  PyStr.chr PyStr.nl +:+
  "TSC 1" +:+ PyStr.chr PyStr.nl +:+
  "outcome " +:+ outcome1 +:+ PyStr.chr PyStr.nl +:+
  PyStr.chr PyStr.tab +:+ tsc1_factors_str +:+ PyStr.chr PyStr.nl +:+
  PyStr.chr PyStr.nl +:+
  "TSC 2" +:+ PyStr.chr PyStr.nl +:+
  "outcome " +:+ outcome2 +:+ PyStr.chr PyStr.nl +:+
  PyStr.chr PyStr.tab +:+ tsc2_factors_str +:+ PyStr.chr PyStr.nl.

Definition render (reordered : bool) (input_items tsc1_items tsc2_items : list string)
  : string :=
  let input_scenario_str := PyStr.join separator input_items in
  let tsc1_factors_str := PyStr.join separator tsc1_items in
  let tsc2_factors_str := PyStr.join separator tsc2_items in
  if reordered
  then prompt_template "Defendant" "Plaintiff"
         input_scenario_str tsc1_factors_str tsc2_factors_str
  else prompt_template "Plaintiff" "Defendant"
         input_scenario_str tsc1_factors_str tsc2_factors_str.

(** The fields of a [ScenarioGenerator] object. *)
Record generator : Type := Generator {
  mode1 : string;
  mode2 : string;
  complexity : Z;
  input_factors : list string;
  tsc1 : list string;
  tsc2 : list string
}.

Definition generate_initial_prompt (self : generator) : outcome string :=
  input_scenario_items ← sorted Z.leb prompt_sort_key (input_factors self);
  tsc1_factors_items ← sorted Z.leb prompt_sort_key (tsc1 self);
  tsc2_factors_items ← sorted Z.leb prompt_sort_key (tsc2 self);
  Ok (render
        (bool_decide (mode1 self = "reordered" ∧ mode2 self = "reordered"))
        input_scenario_items tsc1_factors_items tsc2_factors_items).

(** *** The methods that call [self.generate_tsc_factor]

    The methods reach the side generator through [self].  The definitions of
    this section take it as the parameter [tsc_factor] (complexity, input
    factors, mode, [is_tsc1]), so that the control flow of the overlap checks
    is stated for any behaviour of the side generator; the program's own
    methods are the instances at [generate_tsc_factor] below. *)

Section Methods.
Variable tsc_factor : Z -> list string -> string -> bool -> M (list string).
Variable fuel : nat.

(** Lines 191-197 and 199-205: the double check of one side. *)
Definition double_check (mode : string) (is_tsc1 : bool) (complexity : Z)
    (input_factors tsc : list string) : M (list string) :=
  if decide (mode = "unarguable") then
    let common_factors := filter (λ f, f ∈ tsc) input_factors in
    match common_factors with
    | [] => _ ← emit (InitNoOverlap is_tsc1); mret tsc
    | _ => _ ← emit (InitOverlap is_tsc1 (length common_factors));
           tsc_factor complexity input_factors mode is_tsc1
    end
  else mret tsc.

Definition generate_input_scenario_with (mode1 mode2 : string) (complexity : Z)
  : M (list string * list string * list string) :=
  input_factors ← generate_input_factor fuel complexity;
  '(tsc1, tsc2) ←
    (if decide (mode1 = "reordered" ∧ mode2 = "reordered") then
       tsc1 ← tsc_factor complexity input_factors "arguable" true;
       tsc2 ← tsc_factor complexity input_factors "arguable" false;
       mret (tsc2, tsc1)
     else
       tsc1 ← tsc_factor complexity input_factors mode1 true;
       tsc2 ← tsc_factor complexity input_factors mode2 false;
       mret (tsc1, tsc2));
  tsc1 ← double_check mode1 true complexity input_factors tsc1;
  tsc2 ← double_check mode2 false complexity input_factors tsc2;
  mret (input_factors, tsc1, tsc2).

(** [ScenarioGenerator(mode1, mode2, complexity)] *)
Definition init_with (mode1 mode2 : string) (complexity : Z) : M generator :=
  let mode1 := init_mode mode1 in
  let mode2 := init_mode mode2 in
  '(input_factors, tsc1, tsc2) ←
    generate_input_scenario_with mode1 mode2 complexity;
  mret (Generator mode1 mode2 complexity input_factors tsc1 tsc2).

Definition restart_with (self : generator) : M generator :=
  '(input_factors, tsc1, tsc2) ←
    generate_input_scenario_with (mode1 self) (mode2 self) (complexity self);
  mret (Generator (mode1 self) (mode2 self) (complexity self)
          input_factors tsc1 tsc2).

(** The [while] loop of [update_tsc] (lines 279-282 and 290-293);
    [remaining] is [5 - attempts]. *)
Fixpoint update_repair_loop (remaining attempts : nat) (is_tsc1 : bool)
    (internal_mode : string) (complexity : Z) (input_factors tsc : list string)
  : M (list string * nat) :=
  match remaining with
  | O => mret (tsc, attempts)
  | S remaining' =>
      if overlaps tsc input_factors then
        _ ← emit (UpdateOverlap is_tsc1 (attempts + 1));
        tsc ← tsc_factor complexity input_factors internal_mode is_tsc1;
        update_repair_loop remaining' (attempts + 1) is_tsc1
          internal_mode complexity input_factors tsc
      else mret (tsc, attempts)
  end.

(** Lines 275-284 and 286-295: one side of [update_tsc]. *)
Definition update_side (is_tsc1 : bool) (internal_mode : string)
    (complexity : Z) (input_factors : list string) : M (list string) :=
  tsc ← tsc_factor complexity input_factors internal_mode is_tsc1;
  if decide (internal_mode = "unarguable") then
    '(tsc, attempts) ←
      update_repair_loop 5 0 is_tsc1 internal_mode complexity input_factors tsc;
    _ ← (if (5 <=? attempts)%nat then emit UpdateWarning else mret tt);
    mret tsc
  else mret tsc.

(** [update_tsc] returns the prompt; the updated object is returned with
    it. *)
Definition update_tsc_with (self : generator) (tsc_name mode : string)
  : M (generator * string) :=
  let internal_mode := init_mode mode in
  self ←
    (if decide (internal_mode = "reordered") then
       t1 ← tsc_factor (complexity self) (input_factors self) "arguable" true;
       t2 ← tsc_factor (complexity self) (input_factors self) "arguable" false;
       mret (Generator (mode1 self) (mode2 self) (complexity self)
               (input_factors self) t2 t1)
     else if decide (tsc_name = "tsc1") then
       t ← update_side true internal_mode (complexity self) (input_factors self);
       mret (Generator (mode1 self) (mode2 self) (complexity self)
               (input_factors self) t (tsc2 self))
     else if decide (tsc_name = "tsc2") then
       t ← update_side false internal_mode (complexity self) (input_factors self);
       mret (Generator (mode1 self) (mode2 self) (complexity self)
               (input_factors self) (tsc1 self) t)
     else raise ValueError);
  input_scenario_items ←
    lift (sorted factor_number_leb extract_factor_number (input_factors self));
  tsc1_factors_items ←
    lift (sorted factor_number_leb extract_factor_number (tsc1 self));
  tsc2_factors_items ←
    lift (sorted factor_number_leb extract_factor_number (tsc2 self));
  mret (self,
        render (bool_decide (internal_mode = "reordered"))
          input_scenario_items tsc1_factors_items tsc2_factors_items).

(** The [while] loop of [generate_datasets] (lines 367-377); [remaining] is
    [max_attempts - attempt]. *)
Fixpoint datasets_repair_loop (remaining attempt : nat) (gen : generator)
  : M (generator * nat) :=
  match remaining with
  | O => mret (gen, attempt)
  | S remaining' =>
      let common_tsc1 := filter (λ f, f ∈ tsc1 gen) (input_factors gen) in
      let common_tsc2 := filter (λ f, f ∈ tsc2 gen) (input_factors gen) in
      if bool_decide (common_tsc1 ≠ [] ∨ common_tsc2 ≠ []) then
        _ ← emit (DatasetOverlap (length common_tsc1) (length common_tsc2)
                    (attempt + 1));
        gen ← restart_with gen;
        datasets_repair_loop remaining' (attempt + 1) gen
      else _ ← emit DatasetValid; mret (gen, attempt)
  end.

(** Lines 361-380: the generator object of one scenario of the batch. *)
Definition datasets_scenario (internal_mode : string) (complexity : Z)
  : M generator :=
  gen ← init_with internal_mode internal_mode complexity;
  if decide (internal_mode = "unarguable") then
    let max_attempts := 5%nat in
    '(gen, attempt) ← datasets_repair_loop max_attempts 0 gen;
    _ ← (if (max_attempts <=? attempt)%nat
         then emit (DatasetWarning max_attempts) else mret tt);
    mret gen
  else mret gen.

(** The [for] loop of [generate_datasets]. *)
Fixpoint datasets_loop (internal_mode : string) (complexity : Z) (n : nat)
  : M (list string) :=
  match n with
  | O => mret []
  | S n' =>
      gen ← datasets_scenario internal_mode complexity;
      prompt ← lift (generate_initial_prompt gen);
      rest ← datasets_loop internal_mode complexity n';
      mret (prompt :: rest)
  end.

(** [generate_datasets] returns [scenario_sets]; writing the file is left
    out. *)
Definition generate_datasets_with (mode : string) (case_number complexity : Z)
  : M (list string) :=
  let internal_mode := datasets_mode mode in
  datasets_loop internal_mode complexity (Z.to_nat case_number).
End Methods.

Definition generate_input_scenario (fuel : nat) :=
  generate_input_scenario_with (generate_tsc_factor fuel) fuel.
Definition init (fuel : nat) := init_with (generate_tsc_factor fuel) fuel.
Definition restart (fuel : nat) := restart_with (generate_tsc_factor fuel) fuel.
Definition update_tsc (fuel : nat) := update_tsc_with (generate_tsc_factor fuel).
Definition generate_datasets (fuel : nat) :=
  generate_datasets_with (generate_tsc_factor fuel) fuel.

(** ** Regular expressions of score_calculation.py

    [re.search(pattern, line)] is used for its truth value only; a pattern is
    matched by derivatives. *)

Module Re.

Inductive cset : Type :=
| Lit (c : ascii)
| Digit
| Space
| NotLit (c : ascii)
| OneOf (cs : list ascii).

Definition cset_mem (k : cset) (c : ascii) : bool :=
  match k with
  | Lit a => bool_decide (c = a)
  | Digit => PyStr.is_digit c
  | Space => PyStr.is_space c
  | NotLit a => negb (bool_decide (c = a))
  | OneOf cs => bool_decide (c ∈ cs)
  end.

Inductive re : Type :=
| Void
| Eps
| Sym (k : cset)
| Cat (r s : re)
| Alt (r s : re)
| Star (r : re).

Definition Plus (r : re) : re := Cat r (Star r).

Fixpoint Str (s : string) : re :=
  match s with
  | EmptyString => Eps
  | String c s' => Cat (Sym (Lit c)) (Str s')
  end.

Fixpoint nullable (r : re) : bool :=
  match r with
  | Void => false
  | Eps => true
  | Sym _ => false
  | Cat r s => nullable r && nullable s
  | Alt r s => nullable r || nullable s
  | Star _ => true
  end.

Definition cat (r s : re) : re :=
  match r, s with
  | Void, _ => Void
  | _, Void => Void
  | Eps, _ => s
  | _, _ => Cat r s
  end.

Definition alt (r s : re) : re :=
  match r, s with
  | Void, _ => s
  | _, Void => r
  | _, _ => Alt r s
  end.

Fixpoint deriv (c : ascii) (r : re) : re :=
  match r with
  | Void => Void
  | Eps => Void
  | Sym k => if cset_mem k c then Eps else Void
  | Cat r s => alt (cat (deriv c r) s) (if nullable r then deriv c s else Void)
  | Alt r s => alt (deriv c r) (deriv c s)
  | Star r => cat (deriv c r) (Star r)
  end.

(** Some prefix of [s] matches [r]. *)
Fixpoint match_prefix (r : re) (s : string) : bool :=
  nullable r ||
  match s with
  | EmptyString => false
  | String c s' => match_prefix (deriv c r) s'
  end.

(** [bool(re.search(r, s))]: some substring of [s] matches [r]. *)
Fixpoint search (r : re) (s : string) : bool :=
  match_prefix r s ||
  match s with
  | EmptyString => false
  | String _ s' => search r s'
  end.

End Re.

(** ** score_calculation.py *)

(** [r'Input\s+Scenario'], [r'TSC\s+1'], [r'TSC\s+2'],
    [r'F\d+\s+[^(]+\([PD]\)'] *)
Definition input_pattern : Re.re :=
  Re.Cat (Re.Str "Input") (Re.Cat (Re.Plus (Re.Sym Re.Space)) (Re.Str "Scenario")).
Definition tsc1_pattern : Re.re :=
  Re.Cat (Re.Str "TSC") (Re.Cat (Re.Plus (Re.Sym Re.Space)) (Re.Str "1")).
Definition tsc2_pattern : Re.re :=
  Re.Cat (Re.Str "TSC") (Re.Cat (Re.Plus (Re.Sym Re.Space)) (Re.Str "2")).
Definition factor_pattern : Re.re :=
  Re.Cat (Re.Str "F")
    (Re.Cat (Re.Plus (Re.Sym Re.Digit))
       (Re.Cat (Re.Plus (Re.Sym Re.Space))
          (Re.Cat (Re.Plus (Re.Sym (Re.NotLit "("%char)))
             (Re.Cat (Re.Str "(")
                (Re.Cat (Re.Sym (Re.OneOf ["P"%char; "D"%char])) (Re.Str ")")))))).

Inductive section_name : Type :=
| SecInput
| SecTsc1
| SecTsc2.

(** The dictionary [{'Input': ..., 'TSC1': ..., 'TSC2': ...}] of
    [process_csv_row]. *)
Record case_factors : Type := CaseFactors {
  cf_Input : list string;
  cf_TSC1 : list string;
  cf_TSC2 : list string
}.

(** The loop state of [extract_case_factors]. *)
Record scan_state : Type := ScanState {
  current_section : option section_name;
  scanned : case_factors
}.

Definition append_factor (factor : string) (st : scan_state) : scan_state :=
  let cf := scanned st in
  match current_section st with
  | Some SecInput =>
      ScanState (current_section st)
        (CaseFactors (cf_Input cf ++ [factor]) (cf_TSC1 cf) (cf_TSC2 cf))
  | Some SecTsc1 =>
      ScanState (current_section st)
        (CaseFactors (cf_Input cf) (cf_TSC1 cf ++ [factor]) (cf_TSC2 cf))
  | Some SecTsc2 =>
      ScanState (current_section st)
        (CaseFactors (cf_Input cf) (cf_TSC1 cf) (cf_TSC2 cf ++ [factor]))
  | None => st
  end.

(** The body of the [for line in ...] loop. *)
Definition scan_line (st : scan_state) (line : string) : scan_state :=
  let line := PyStr.strip line in
  match line with
  | EmptyString => st
  | _ =>
      if Re.search input_pattern line then ScanState (Some SecInput) (scanned st)
      else if Re.search tsc1_pattern line then ScanState (Some SecTsc1) (scanned st)
      else if Re.search tsc2_pattern line then ScanState (Some SecTsc2) (scanned st)
      else if Re.search factor_pattern line then
        append_factor (PyStr.rstrip_char ","%char (PyStr.strip line)) st
      else st
  end.

Definition extract_case_factors (input_text : string) : case_factors :=
  scanned
    (foldl scan_line (ScanState None (CaseFactors [] [] []))
       (PyStr.split PyStr.nl input_text)).

Definition process_csv_row (row_text : string) : case_factors :=
  extract_case_factors row_text.

(** The dictionary returned by [process_distilled_factors]: every value is
    [None], so each of the three entries is its list of keys, in insertion
    order. *)
Record distilled : Type := Distilled {
  df_Input_Case : list string;
  df_TSC1 : list string;
  df_TSC2 : list string
}.

Module Distill.

Definition dq : ascii := ascii_of_nat 34.
Definition is_not (c : ascii) (x : ascii) : bool := negb (bool_decide (x = c)).

Fixpoint drop (n : nat) (s : string) : string :=
  match n, s with
  | O, _ => s
  | S n', String _ s' => drop n' s'
  | S _, EmptyString => EmptyString
  end.

(** [row_text[row_text.find(marker) + len(marker):]] when the marker is
    found. *)
Fixpoint after_first (marker s : string) : option string :=
  if PyStr.starts_with marker s then Some (drop (String.length marker) s)
  else match s with
       | EmptyString => None
       | String _ s' => after_first marker s'
       end.

(** [re.search(r'\{.*\}', s, re.DOTALL)]: from the first opening brace to
    the last closing brace after it. *)
Definition json_span (s : string) : option string :=
  match PyStr.drop_while (is_not "{"%char) s with
  | EmptyString => None
  | String b rest =>
      match PyStr.drop_while (is_not "}"%char) (PyStr.rev rest) with
      | EmptyString => None
      | r => Some (String b (PyStr.rev r))
      end
  end.

(** One attempt of [key\s*:\s*{(.*?)}] at the start of [s]; the group. *)
Definition key_group_here (key s : string) : option string :=
  if PyStr.starts_with key s then
    match PyStr.drop_while PyStr.is_space (drop (String.length key) s) with
    | String ":" s2 =>
        match PyStr.drop_while PyStr.is_space s2 with
        | String "{" s3 =>
            if PyStr.contains "}" s3
            then Some (PyStr.take_while (is_not "}"%char) s3)
            else None
        | _ => None
        end
    | _ => None
    end
  else None.

(** [re.search(key + r'\s*:\s*{(.*?)}', s, re.DOTALL)] and its group 1. *)
Fixpoint key_group (key s : string) : option string :=
  match key_group_here key s with
  | Some g => Some g
  | None => match s with
            | EmptyString => None
            | String _ s' => key_group key s'
            end
  end.

(** [re.findall] of the pattern: a double quote, one or more characters
    other than a double quote (the group), a double quote.  Written as a
    scan that remembers the text read since the last opening quote. *)
Fixpoint quoted_go (inside : option string) (s : string) : list string :=
  match s with
  | EmptyString => []
  | String c s' =>
      match inside with
      | None =>
          if bool_decide (c = dq) then quoted_go (Some EmptyString) s'
          else quoted_go None s'
      | Some acc =>
          if bool_decide (c = dq) then
            match acc with
            | EmptyString => quoted_go (Some EmptyString) s'
            | _ => PyStr.rev acc :: quoted_go None s'
            end
          else quoted_go (Some (String c acc)) s'
      end
  end.

Definition quoted (s : string) : list string := quoted_go None s.

(** The keys of [{factor: None for factor in l}]. *)
Definition dict_keys (l : list string) : list string :=
  foldl (λ (acc : list string) f, if decide (f ∈ acc) then acc else (acc ++ [f])%list)
    [] l.

Definition key_factors (name json_text : string) : list string :=
  match key_group (PyStr.chr dq +:+ name +:+ PyStr.chr dq) json_text with
  | Some factors_text => dict_keys (quoted factors_text)
  | None => []
  end.

End Distill.

Definition process_distilled_factors (row_text : string) : distilled :=
  let row_text :=
    match Distill.after_first "</think>" row_text with
    | Some rest => PyStr.strip rest
    | None => row_text
    end in
  match Distill.json_span row_text with
  | None => Distilled [] [] []
  | Some json_text =>
      Distilled (Distill.key_factors "Input Case" json_text)
                (Distill.key_factors "TSC1" json_text)
                (Distill.key_factors "TSC2" json_text)
  end.

(** The counting loops [for factor in xs: if factor not in ys: n += 1]. *)
Definition count_not_in (xs ys : list string) : nat :=
  foldl (λ n factor, if decide (factor ∈ ys) then n else S n) 0%nat xs.

Definition original_total (input_factors : case_factors) : nat :=
  length (cf_Input input_factors) + length (cf_TSC1 input_factors)
  + length (cf_TSC2 input_factors).

Definition distilled_total (distilled_factors : distilled) : nat :=
  length (df_Input_Case distilled_factors) + length (df_TSC1 distilled_factors)
  + length (df_TSC2 distilled_factors).

Definition count_factor_mismatches (input_factors : case_factors)
    (distilled_factors : distilled) : nat * nat * nat * nat * nat :=
  (count_not_in (df_Input_Case distilled_factors) (cf_Input input_factors),
   count_not_in (df_TSC1 distilled_factors) (cf_TSC1 input_factors),
   count_not_in (df_TSC2 distilled_factors) (cf_TSC2 input_factors),
   original_total input_factors,
   distilled_total distilled_factors).

Definition count_factor_weaknesses (input_factors : case_factors)
    (distilled_factors : distilled) : nat * nat * nat * nat * nat :=
  (count_not_in (cf_Input input_factors) (df_Input_Case distilled_factors),
   count_not_in (cf_TSC1 input_factors) (df_TSC1 distilled_factors),
   count_not_in (cf_TSC2 input_factors) (df_TSC2 distilled_factors),
   original_total input_factors,
   distilled_total distilled_factors).

(** *** Scoring of rows *)

Definition Qnat (n : nat) : Q := inject_Z (Z.of_nat n).

(** What one pass of a scoring loop computes for its row. *)
Record row_score : Type := RowScore {
  rs_accuracy : Q;
  rs_strength : Q;
  rs_total_factors : nat;
  rs_total_mismatches : nat;
  rs_total_weaknesses : nat;
  rs_orig_factors : nat;
  rs_dist_factors : nat;
  rs_successful_abstention : bool
}.

(** The accumulators of a scoring loop. *)
Record totals : Type := Totals {
  all_accuracies : list Q;
  all_strengths : list Q;
  all_factors : nat;
  all_mismatches : nat;
  all_weaknesses : nat;
  all_original_factors : nat;
  all_distilled_factors : nat;
  successful_abstention_count : nat
}.

Definition no_totals : totals := Totals [] [] 0 0 0 0 0 0.

(** The accumulator updates that end the body of both loops. *)
Definition accumulate (acc : totals) (r : row_score) : totals :=
  Totals (all_accuracies acc ++ [(rs_accuracy r * 100)%Q])
         (all_strengths acc ++ [(rs_strength r * 100)%Q])
         (all_factors acc + rs_total_factors r)
         (all_mismatches acc + rs_total_mismatches r)
         (all_weaknesses acc + rs_total_weaknesses r)
         (all_original_factors acc + rs_orig_factors r)
         (all_distilled_factors acc + rs_dist_factors r)
         (successful_abstention_count acc
          + (if rs_successful_abstention r then 1 else 0))%nat.

(** [np.mean(l) if l else 0] *)
Definition mean (l : list Q) : Q :=
  match l with
  | [] => 0%Q
  | _ => (foldr Qplus 0 l / Qnat (length l))%Q
  end.

(** The body of the loop of [process_csv_file], after the two cells are
    parsed (lines 237-254). *)
Definition process_csv_file_row (input_factors : case_factors)
    (distilled_factors : distilled) : row_score :=
  let '(input_mismatch, tsc1_mismatch, tsc2_mismatch, orig_factors, dist_factors) :=
    count_factor_mismatches input_factors distilled_factors in
  let total_mismatches := (input_mismatch + tsc1_mismatch + tsc2_mismatch)%nat in
  let '(input_weakness, tsc1_weakness, tsc2_weakness, _, _) :=
    count_factor_weaknesses input_factors distilled_factors in
  let total_weaknesses := (input_weakness + tsc1_weakness + tsc2_weakness)%nat in
  let total_factors :=
    (length (cf_Input input_factors) + length (cf_TSC1 input_factors)
     + length (cf_TSC2 input_factors))%nat in
  let abstained :=
    bool_decide (df_Input_Case distilled_factors = [])
    && bool_decide (df_TSC1 distilled_factors = [])
    && bool_decide (df_TSC2 distilled_factors = []) in
  let accuracy :=
    if (0 <? orig_factors)%nat
    then (1 - Qnat total_mismatches / Qnat orig_factors)%Q else 0%Q in
  let strength :=
    if (0 <? orig_factors)%nat
    then (1 - Qnat total_weaknesses / Qnat orig_factors)%Q else 0%Q in
  RowScore accuracy strength total_factors total_mismatches total_weaknesses
    orig_factors dist_factors abstained.

(** The body of the loop of [process_csv_file] on a row of the file: its
    first and its third cell. *)
Definition process_csv_file_body (row : string * string) : row_score :=
  let input_factors := process_csv_row row.1 in
  let distilled_factors := process_distilled_factors row.2 in
  process_csv_file_row input_factors distilled_factors.

(** [process_csv_file] on the rows of the file.  The returned tuple, in the
    order of the source. *)
Definition process_csv_file (rows : list (string * string))
  : nat * nat * nat * nat * nat * Q * Q * Q :=
  let total_rows := length rows in
  let acc :=
    foldl (λ acc row, accumulate acc (process_csv_file_body row))
      no_totals rows in
  let mean_acc := mean (all_accuracies acc) in
  let mean_strength := mean (all_strengths acc) in
  let successful_abstention_ratio :=
    if (0 <? total_rows)%nat
    then (Qnat (successful_abstention_count acc) / Qnat total_rows)%Q else 0%Q in
  (all_factors acc, all_original_factors acc, all_distilled_factors acc,
   all_mismatches acc, all_weaknesses acc, mean_acc, mean_strength,
   successful_abstention_ratio).

(** ** pipeline.py *)

(** [mode.lower() in ['non-arguable', 'unarguable']] *)
Definition is_unarguable_mode (mode : string) : bool :=
  bool_decide (PyStr.lower mode ∈ ["non-arguable"; "unarguable"]).

(** The body of the loop of [calculate_scores], after the two cells are
    parsed (lines 193-217). *)
Definition calculate_scores_row (mode : string) (input_factors : case_factors)
    (distilled_factors : distilled) : row_score :=
  let '(input_mismatches, tsc1_mismatches, tsc2_mismatches, orig_factors, dist_factors) :=
    count_factor_mismatches input_factors distilled_factors in
  let total_mismatches := (input_mismatches + tsc1_mismatches + tsc2_mismatches)%nat in
  let '(input_weakness, tsc1_weakness, tsc2_weakness, _, _) :=
    count_factor_weaknesses input_factors distilled_factors in
  let total_weaknesses := (input_weakness + tsc1_weakness + tsc2_weakness)%nat in
  let total_factors_in_row :=
    (length (cf_Input input_factors) + length (cf_TSC1 input_factors)
     + length (cf_TSC2 input_factors))%nat in
  let accuracy :=
    if (0 <? total_factors_in_row)%nat
    then (1 - Qnat total_mismatches / Qnat total_factors_in_row)%Q else 0%Q in
  let abstained := (total_weaknesses =? 0)%nat && (dist_factors =? 0)%nat in
  let strength :=
    if is_unarguable_mode mode then
      if (0 <? orig_factors)%nat then (1 - Qnat dist_factors / Qnat orig_factors)%Q
      else if (dist_factors =? 0)%nat then 1%Q
      else 0%Q
    else
      if (0 <? total_factors_in_row)%nat
      then (1 - Qnat total_weaknesses / Qnat total_factors_in_row)%Q else 0%Q in
  RowScore accuracy strength total_factors_in_row total_mismatches
    total_weaknesses orig_factors dist_factors abstained.

(** The dictionary [result_data] of [calculate_scores]. *)
Record result_data : Type := ResultData {
  rd_accuracy : Q;
  rd_strength : Q;
  rd_original_factors : nat;
  rd_distilled_factors : nat;
  rd_total_mismatches : nat;
  rd_total_weaknesses : nat;
  rd_successful_abstention_ratio : option Q
}.

(** The body of the loop of [calculate_scores] on a row of the file: the
    [scenario] cell and the [distilled_factors] cell, [None] when the column
    is missing or the cell is NaN. *)
Definition calculate_scores_body (mode : string) (row : string * option string)
  : row_score :=
  let input_factors := process_csv_row row.1 in
  let distilled_factors_val := default "{}" row.2 in
  let distilled_factors := process_distilled_factors distilled_factors_val in
  calculate_scores_row mode input_factors distilled_factors.

(** [calculate_scores] on the rows of the file; [mode] is
    [file_info['mode']]. *)
Definition calculate_scores (mode : string) (rows : list (string * option string))
  : result_data :=
  let total_rows := length rows in
  let acc :=
    foldl (λ acc row, accumulate acc (calculate_scores_body mode row))
      no_totals rows in
  let mean_acc := mean (all_accuracies acc) in
  let mean_strength := mean (all_strengths acc) in
  let successful_abstention_ratio :=
    if (0 <? total_rows)%nat
    then (Qnat (successful_abstention_count acc) / Qnat total_rows * 100)%Q else 0%Q in
  ResultData mean_acc mean_strength
    (all_original_factors acc) (all_distilled_factors acc)
    (all_mismatches acc) (all_weaknesses acc)
    (if is_unarguable_mode mode then Some successful_abstention_ratio else None).

(** *** File names

    [generate_datasets] names its file
    [f"{internal_mode}_{output_format}_{case_number}_complexity{complexity}"]
    with the extension [.csv]; [extract_info_from_filename] of pipeline.py
    reads a mode, a format, a number and a complexity back from a file name.
    Paths are POSIX paths. *)

(** [str(z)] for an [int]. *)
Definition py_str_int (z : Z) : string :=
  if (z <? 0)%Z then "-" +:+ PyStr.dec (Z.to_nat (- z)) else PyStr.dec (Z.to_nat z).

(** The f-string of line 386,
    [f"{internal_mode}_{output_format}_{case_number}_complexity{complexity}"],
    on the texts of its four fields. *)
Definition format_filename_prefix
    (internal_mode output_format case_number complexity : string) : string :=
  internal_mode +:+ "_" +:+ output_format +:+ "_" +:+ case_number
  +:+ "_complexity" +:+ complexity.

(** Line 386 of scenario_generator.py, with [output_format = "factor"]. *)
Definition filename_prefix (internal_mode : string) (case_number complexity : Z)
  : string :=
  format_filename_prefix internal_mode "factor" (py_str_int case_number)
    (py_str_int complexity).

(** The name of the file that [generate_datasets] opens (line 391). *)
Definition dataset_filename (internal_mode : string) (case_number complexity : Z)
  : string :=
  filename_prefix internal_mode case_number complexity +:+ ".csv".

Module Path.

(** [os.path.basename(p)]: what follows the last slash. *)
Definition basename (p : string) : string :=
  PyStr.rev (PyStr.take_while (Distill.is_not "/") (PyStr.rev p)).

(** [os.path.splitext(p)[0]] for a name without a slash: the name up to its
    last dot, unless only dots stand before that dot. *)
Definition splitext_root (p : string) : string :=
  match PyStr.drop_while (Distill.is_not ".") (PyStr.rev p) with
  | EmptyString => p
  | String _ root_rev =>
      if PyStr.all_chars (λ c, bool_decide (c = "."%char)) root_rev then p
      else PyStr.rev root_rev
  end.

(** [s.isdigit()] *)
Definition isdigit (s : string) : bool :=
  match s with
  | EmptyString => false
  | _ => PyStr.all_chars PyStr.is_digit s
  end.

(** [s[len(prefix):]] when [s.startswith(prefix)]. *)
Definition strip_prefix (prefix s : string) : option string :=
  if PyStr.starts_with prefix s then Some (Distill.drop (String.length prefix) s)
  else None.

(** [s.split(sep)] for a separator of one or more characters: [skip] counts
    the characters of a separator found that are still to be passed over. *)
Fixpoint split_go (sep : string) (skip : nat) (s : string) : list string :=
  match s with
  | EmptyString => [EmptyString]
  | String c s' =>
      match skip with
      | S k => split_go sep k s'
      | O =>
          if PyStr.starts_with sep s
          then EmptyString :: split_go sep (String.length sep - 1) s'
          else match split_go sep 0 s' with
               | [] => [PyStr.chr c]
               | w :: ws => String c w :: ws
               end
      end
  end.

Definition split_str (sep s : string) : list string := split_go sep 0 s.

(** [s.replace(old, '')] *)
Fixpoint remove_go (old : string) (skip : nat) (s : string) : string :=
  match s with
  | EmptyString => EmptyString
  | String c s' =>
      match skip with
      | S k => remove_go old k s'
      | O =>
          if PyStr.starts_with old s then remove_go old (String.length old - 1) s'
          else String c (remove_go old 0 s')
      end
  end.

Definition remove (old s : string) : string := remove_go old 0 s.

(** [l.index(x)] when [x in l]. *)
Fixpoint index (x : string) (l : list string) : option nat :=
  match l with
  | [] => None
  | y :: l' => if bool_decide (y = x) then Some 0%nat else S <$> index x l'
  end.

(** [l[i]] for an index in range. *)
Definition item (l : list string) (i : nat) : string := nth i l EmptyString.

(** [l[-1]] of a list that is not empty. *)
Definition last_item (l : list string) : string := List.last l EmptyString.

End Path.

(** The dictionary that [extract_info_from_filename] returns. *)
Record file_info : Type := FileInfo {
  fi_mode : string;
  fi_format : string;
  fi_number : string;
  fi_complexity : string
}.

(** [re.match(r'([^_]+)_factor_([^_]+)_complexity(\\d+)', basename)] and its
    three groups.  The raw pattern ends in an escaped backslash followed by
    [d+]: a backslash and one or more letters d.  The two classes stop at the
    first underscore, which the literal that follows needs, so the match is
    read from left to right. *)
Definition match_name_pattern (basename : string) : option (string * string * string) :=
  let g1 := PyStr.take_while (Distill.is_not "_") basename in
  match g1 with
  | EmptyString => None
  | _ =>
      match Path.strip_prefix "_factor_"
              (PyStr.drop_while (Distill.is_not "_") basename) with
      | None => None
      | Some rest =>
          let g2 := PyStr.take_while (Distill.is_not "_") rest in
          match g2 with
          | EmptyString => None
          | _ =>
              match Path.strip_prefix "_complexity"
                      (PyStr.drop_while (Distill.is_not "_") rest) with
              | Some (String c tail) =>
                  if bool_decide (c = PyStr.backslash) then
                    match PyStr.take_while (λ x, bool_decide (x = "d"%char)) tail with
                    | EmptyString => None
                    | ds => Some (g1, g2, String PyStr.backslash ds)
                    end
                  else None
              | _ => None
              end
          end
      end
  end.

Definition known_prefixes : list string :=
  ["messages"; "extracted"; "decoded"; "input_file_report"; "report_existing";
   "factor_report"].

(** Lines 88-138: the reading by parts, when the pattern does not match. *)
Definition info_from_parts (basename : string) : file_info :=
  let parts := PyStr.split "_" basename in
  let mode := "unknown" in
  let format_val := "unknown" in
  let number := "0" in
  let complexity := "0" in
  let complexity :=
    if PyStr.contains "complexity" basename then
      let complexity_part := Path.last_item (Path.split_str "complexity" basename) in
      if Path.isdigit complexity_part then complexity_part else complexity
    else complexity in
  let '(mode, format_val, number, complexity) :=
    match Path.index "factor" parts with
    | Some factor_idx =>
        let mode :=
          if (0 <? factor_idx)%nat then
            let potential_mode_idx := (factor_idx - 1)%nat in
            if bool_decide (Path.item parts potential_mode_idx ∈ known_prefixes)
               && (1 <? factor_idx)%nat
            then Path.item parts (factor_idx - 2)
            else Path.item parts potential_mode_idx
          else mode in
        let number :=
          if (factor_idx <? length parts - 1)%nat
             && Path.isdigit (Path.item parts (factor_idx + 1))
          then Path.item parts (factor_idx + 1)
          else if (factor_idx <? length parts - 1)%nat
                  && negb (PyStr.starts_with "complexity"
                             (Path.item parts (factor_idx + 1)))
          then Path.item parts (factor_idx + 1)
          else number in
        (mode, "factor", number, complexity)
    | None =>
        if (3 <=? length parts)%nat
           && PyStr.contains "complexity" (Path.last_item parts)
        then (Path.item parts 0, "factor", Path.item parts 1,
              Path.remove "complexity" (Path.last_item parts))
        else if (length parts =? 2)%nat
                && PyStr.contains "complexity" (Path.item parts 1)
        then (Path.item parts 0, "factor", "unknown",
              Path.remove "complexity" (Path.item parts 1))
        else (mode, format_val, number, complexity)
    end in
  let mode :=
    if bool_decide (mode = "unknown") && (0 <? length parts)%nat
       && negb (bool_decide (Path.item parts 0 ∈ known_prefixes))
    then Path.item parts 0 else mode in
  FileInfo mode
    (if bool_decide (format_val ≠ "unknown") then format_val else "factor")
    number complexity.

(** [extract_info_from_filename] (lines 70-156).  No operation of the [try]
    block raises on a string, so the handler and the defaults after it are
    not reached. *)
Definition extract_info_from_filename (filename : string) : file_info :=
  let basename := Path.basename filename in
  let basename :=
    if PyStr.contains "." basename then Path.splitext_root basename else basename in
  let basename :=
    match Path.strip_prefix "formatted_" basename with
    | Some rest => rest
    | None => basename
    end in
  match match_name_pattern basename with
  | Some (g1, g2, g3) => FileInfo g1 "factor" g2 g3
  | None => info_from_parts basename
  end.

(** ** Definitions that follow the specification *)

Module Spec.

(** The data model's [Factor], with its canonical string form
    [F<id> <label> (<P|D>)]. *)
Inductive polarity : Type :=
| Plaintiff
| Defendant.

Record factor : Type := Factor {
  id : nat;
  label : string;
  pol : polarity
}.

Definition polarity_letter (p : polarity) : string :=
  match p with
  | Plaintiff => "P"
  | Defendant => "D"
  end.

Definition canonical (f : factor) : string :=
  "F" +:+ PyStr.dec (id f) +:+ " " +:+ label f
  +:+ " (" +:+ polarity_letter (pol f) +:+ ")".

(** Reading a canonical string back. *)
Definition parse_canonical (s : string) : option factor :=
  match s with
  | String "F" rest =>
      let ds := PyStr.take_while PyStr.is_digit rest in
      match ds, PyStr.drop_while PyStr.is_digit rest with
      | String _ _, String " " body =>
          match PyStr.rev body with
          | String ")" (String p (String "(" (String " " lebal))) =>
              let lbl := PyStr.rev lebal in
              let well_formed :=
                negb (bool_decide (lbl = EmptyString))
                && negb (PyStr.contains "(" lbl) in
              if well_formed then
                if bool_decide (p = "P"%char)
                then Some (Factor (Z.to_nat (PyStr.digits_val 0 ds)) lbl Plaintiff)
                else if bool_decide (p = "D"%char)
                then Some (Factor (Z.to_nat (PyStr.digits_val 0 ds)) lbl Defendant)
                else None
              else None
          | _ => None
          end
      | _, _ => None
      end
  | _ => None
  end.

(** The catalog entries as factors. *)
Definition catalog : list factor := omap parse_canonical factors.

Definition ids : list nat := id <$> catalog.

(** The mode names of the external vocabulary and their internal forms. *)
Definition recognized_modes : list string :=
  ["non-arguable"; "unarguable"; "reordered"; "arguable"].

(** The strength of a row as the specification words it. *)
Definition strength (mode : string) (orig dist total_weaknesses total_factors : nat)
  : Q :=
  if is_unarguable_mode mode then
    if (0 <? orig)%nat then (1 - Qnat dist / Qnat orig)%Q
    else if (dist =? 0)%nat then 1%Q
    else 0%Q
  else
    if (0 <? total_factors)%nat
    then (1 - Qnat total_weaknesses / Qnat total_factors)%Q
    else 0%Q.

(** The successful-abstention predicate as the specification words it. *)
Definition is_successful_abstention (total_weaknesses dist : nat) : bool :=
  (total_weaknesses =? 0)%nat && (dist =? 0)%nat.

End Spec.

(** ** Predicates and example inputs of the statements *)

(** A row whose three actual sections hold one factor each and for which
    nothing is claimed. *)
Definition silent_row : case_factors * distilled :=
  (CaseFactors ["F1 Disclosure-in-negotiations (D)"]
               ["F2 Bribe-employee (P)"]
               ["F3 Employee-sole-developer (D)"],
   Distilled [] [] []).

(** A row with one actual factor and two claimed labels that the actual
    sections do not hold. *)
Definition overclaiming_row : case_factors * distilled :=
  (CaseFactors ["F1 Disclosure-in-negotiations (D)"] [] [],
   Distilled ["F98 Invented (P)"; "F99 Made-up (D)"] [] []).

(** The same row as the two cells of a file: the scenario text and the
    answer text [{"Input Case": {"F98 Invented (P)", "F99 Made-up (D)"}}]. *)
Definition overclaiming_scenario_cell : string :=
  render false ["F1 Disclosure-in-negotiations (D)"] [] [].

Definition overclaiming_answer_cell : string :=
  let q := PyStr.chr Distill.dq in
  "{" +:+ q +:+ "Input Case" +:+ q +:+ ": {"
  +:+ q +:+ "F98 Invented (P)" +:+ q +:+ ", "
  +:+ q +:+ "F99 Made-up (D)" +:+ q +:+ "}}".

(** The target count that [random.randint(min_factors, max_factors)] draws
    in the state [w]. *)
Definition drawn_target (complexity : Z) (w : world) : Z :=
  (min_factors complexity
   + Z.of_nat (rng_src w (rng_pos w))
     mod (max_factors complexity - min_factors complexity + 1))%Z.

(** A random source given by its first draws (0 afterwards), with an empty
    log. *)
Definition world_of (draws : list nat) : world :=
  World (λ i, nth i draws 0%nat) 0 [].

(** The scenario that [ScenarioGenerator("non-arguable", "non-arguable", 2)]
    builds from the draws 1, 3, 5, 7, 9, 11, 2, 4, 6, 8. *)
Definition drawn_scenario : generator :=
  Generator "unarguable" "unarguable" 2
    ["F4 Agreed-not-to-disclose (P)"; "F6 Security-measures (P)"]
    ["F13 Noncompetition-agreement (P)"; "F16 Info-reverse-engineerable (D)"]
    ["F7 Brought-tools (P)"; "F11 Vertical-knowledge (D)";
     "F14 Restricted-materials-used (P)"].

(** The size range of a generated list, and the way a side can fall below
    it: the side holds every catalog factor that is not an input factor. *)
Definition in_size_range (complexity : Z) (l : list string) : Prop :=
  (min_factors complexity ≤ len l ≤ max_factors complexity)%Z.

Definition exhausted_side (complexity : Z) (input side : list string) : Prop :=
  length side = length (filter (λ f, f ∉ input) factors)
  ∧ (len side < min_factors complexity)%Z.

(** A side generated with [mode] by a generator with the fields of [self]
    goes through the arguable branch when [mode] is ["arguable"] or both
    modes of the generator are ["reordered"], and through the unarguable
    branch otherwise. *)
Definition unarguable_branch (self : generator) (mode : string) : Prop :=
  mode ≠ "arguable" ∧ ¬ (mode1 self = "reordered" ∧ mode2 self = "reordered").

Definition side_sizes (self : generator) (mode : string) (side : list string) : Prop :=
  NoDup side
  ∧ (in_size_range (complexity self) side
     ∨ (unarguable_branch self mode
        ∧ exhausted_side (complexity self) (input_factors self) side)).

Definition scenario_sizes (self : generator) : Prop :=
  in_size_range (complexity self) (input_factors self)
  ∧ NoDup (input_factors self)
  ∧ side_sizes self (mode1 self) (tsc1 self)
  ∧ side_sizes self (mode2 self) (tsc2 self).

(** Draws for a generator with modes ["reordered"] and ["arguable"]. *)
Definition mixed_draws : list nat := [1; 3; 5; 7; 9; 11; 2; 4; 6; 8; 3; 1; 2].

(** The state after a message is recorded. *)
Definition emitted (e : event) (w : world) : world := (emit e w).2.


(** A generator has an overlap when one of its sides shares a factor with
    its input factors (the test of [generate_datasets]). *)
Definition has_overlap (gen : generator) : Prop :=
  filter (λ f, f ∈ tsc1 gen) (input_factors gen) ≠ []
  ∨ filter (λ f, f ∈ tsc2 gen) (input_factors gen) ≠ [].




(** A run of 4301 digits. *)
Definition long_digits : string := string_of_list_ascii (repeat "1"%char 4301).


(** Draws for a generator with modes ["reordered"] and ["arguable"] and
    complexity 14: the target 15 and the catalog positions 0 to 14 for the
    input factors; the target 13 of the first side; for the second side the
    target 13, one shared factor, no further shared factors and the catalog
    positions 1 to 12. *)
Definition short_side_draws : list nat :=
  ([2] ++ seq 0 15 ++ [0] ++ repeat 0%nat 11 ++ [0; 0; 0; 7] ++ seq 1 12)%list.

(** [shares_factor input side letter]: the side holds an input factor whose
    string contains [letter], ["(P)"] or ["(D)"]. *)
Definition shares_factor (input side : list string) (letter : string) : Prop :=
  ∃ f, f ∈ side ∧ f ∈ input ∧ PyStr.contains letter f = true.

(** The input has a factor whose string contains [letter]. *)
Definition has_polarity (input : list string) (letter : string) : Prop :=
  ∃ f, f ∈ input ∧ PyStr.contains letter f = true.

(** *** [find_common_factors]

    With a name other than ["tsc1"] and ["tsc2"] the local [tsc_factor] is
    never bound.  The list comprehension reads it in its condition, once for
    each input factor: the first input factor raises a [NameError] (its
    subclass [UnboundLocalError] from Python 3.12 on), and without input
    factors the variable is never read and the result is the empty list. *)
Inductive name_error : Type :=
| NameError.

Definition find_common_factors (self : generator) (tsc : string)
  : name_error + list string :=
  if decide (tsc = "tsc1")
  then inr (filter (λ factor, factor ∈ tsc1 self) (input_factors self))
  else if decide (tsc = "tsc2")
  then inr (filter (λ factor, factor ∈ tsc2 self) (input_factors self))
  else match input_factors self with
       | [] => inr []
       | _ :: _ => inl NameError
       end.

(** The order of a rendered section: ascending in the key of
    [extract_factor_number]. *)
Definition ascending_by_number (l : list string) : Prop :=
  Sorted (λ a b, ∃ ka kb, extract_factor_number a = Ok ka
                          ∧ extract_factor_number b = Ok kb
                          ∧ factor_number_leb ka kb = true) l.

(** The language of a pattern: [matches r u] when the whole of [u] matches
    [r]. *)
Inductive matches : Re.re → string → Prop :=
| matches_Eps : matches Re.Eps EmptyString
| matches_Sym (k : Re.cset) (c : ascii) :
    Re.cset_mem k c = true → matches (Re.Sym k) (String c EmptyString)
| matches_Cat (r s : Re.re) (u v : string) :
    matches r u → matches s v → matches (Re.Cat r s) (u +:+ v)
| matches_Alt_l (r s : Re.re) (u : string) : matches r u → matches (Re.Alt r s) u
| matches_Alt_r (r s : Re.re) (u : string) : matches s u → matches (Re.Alt r s) u
| matches_Star_nil (r : Re.re) : matches (Re.Star r) EmptyString
| matches_Star_app (r : Re.re) (u v : string) :
    matches r u → matches (Re.Star r) v → matches (Re.Star r) (u +:+ v).

(** What [extract_case_factors] finds in a section that [render] has filled
    with [items]: nothing for an empty section, and otherwise one string, the
    items joined by [separator]. *)
Definition section_read_back (items : list string) : list string :=
  match items with
  | [] => []
  | _ => [PyStr.join separator items]
  end.

(** A line that holds the factor [f] and nothing else: white space other
    than a line break in front, commas behind. *)
Definition factor_line_of (line f : string) : Prop :=
  ∃ indent commas,
    line = indent +:+ f +:+ commas
    ∧ PyStr.all_chars (λ c, PyStr.is_space c && Distill.is_not PyStr.nl c) indent = true
    ∧ PyStr.all_chars (λ c, bool_decide (c = ","%char)) commas = true.

(** A scenario text with every factor on a line of its own: the lines of the
    three sections under the headers and outcome lines of the prompt
    template. *)
Definition scenario_of_lines (input_lines tsc1_lines tsc2_lines : list string) : string :=
  PyStr.join (PyStr.chr PyStr.nl)
    (["Input Scenario"] ++ input_lines
     ++ [EmptyString; "TSC 1"; "outcome Plaintiff"] ++ tsc1_lines
     ++ [EmptyString; "TSC 2"; "outcome Defendant"] ++ tsc2_lines)%list.

(** A name that the answer format can carry: not empty, and without double
    quote, closing brace and [<]. *)
Definition clean_label (f : string) : Prop :=
  f ≠ EmptyString
  ∧ PyStr.all_chars
      (λ c, negb (bool_decide (c ∈ [Distill.dq; "}"%char; "<"%char]))) f = true.

(** The answer layout that the distiller prompt shows as its example output:
    an object with the three sections, each a brace list of quoted names;
    [ws] is the white space between the tokens. *)
Definition quoted_items (ws : string) (items : list string) : string :=
  PyStr.join ("," +:+ ws)
    ((λ f, PyStr.chr Distill.dq +:+ f +:+ PyStr.chr Distill.dq) <$> items).

Definition answer_section (ws name : string) (items : list string) : string :=
  PyStr.chr Distill.dq +:+ name +:+ PyStr.chr Distill.dq +:+ ": {" +:+ ws
  +:+ quoted_items ws items +:+ ws +:+ "}".

Definition answer_text (ws : string) (i t1 t2 : list string) : string :=
  "{" +:+ ws +:+ answer_section ws "Input Case" i +:+ "," +:+ ws
  +:+ answer_section ws "TSC1" t1 +:+ "," +:+ ws
  +:+ answer_section ws "TSC2" t2 +:+ ws +:+ "}".

(** * Properties *)

Local Open Scope list_scope.

(** ** The catalog *)

Lemma catalog_canonical_round_trip : Spec.canonical <$> Spec.catalog = factors.
Proof. vm_compute. reflexivity. Qed.

Lemma catalog_ids : Spec.ids = seq 1 8 ++ seq 10 18.
Proof. vm_compute. reflexivity. Qed.

(** C6, as stated: the catalog does not have exactly 25 entries. *)
Lemma catalog_not_25_entries : length factors ≠ 25%nat.
Proof. vm_compute. discriminate. Qed.

(** C6, amended: the catalog has exactly 26 entries; every entry is the
    canonical form [F<id> <label> (<P|D>)] of a factor; the ids are, in
    catalog order, 1..8 followed by 10..27, so that 9 is the one id of 1..27
    that is absent. *)
Theorem catalog_26_entries_one_gap :
  length factors = 26%nat
  ∧ Forall (λ s, ∃ f, Spec.parse_canonical s = Some f ∧ Spec.canonical f = s) factors
  ∧ Spec.ids = seq 1 8 ++ seq 10 18
  ∧ ∀ n, ((1 ≤ n ≤ 27)%nat ∧ n ∉ Spec.ids) ↔ n = 9%nat.
Proof.
  split; [reflexivity|]. split; [|split; [exact catalog_ids|]].
  - assert (H : forallb
                  (λ s, match Spec.parse_canonical s with
                        | Some f => bool_decide (Spec.canonical f = s)
                        | None => false
                        end) factors = true) by (vm_compute; reflexivity).
    apply Forall_forall. intros s Hs.
    apply list_elem_of_In in Hs.
    pose proof (proj1 (forallb_forall _ _) H s Hs) as Hx. simpl in Hx.
    destruct (Spec.parse_canonical s) as [f|]; [|discriminate].
    exists f. split; [reflexivity|]. by apply bool_decide_eq_true in Hx.
  - intros n. rewrite catalog_ids. rewrite elem_of_app, !elem_of_seq. lia.
Qed.

(** ** Mode names *)

Lemma dict_values_MODE_MAPPING :
  dict_values MODE_MAPPING = ["arguable"; "unarguable"; "reordered"].
Proof. vm_compute. reflexivity. Qed.

Lemma map_mode_unrecognized (default mode : string) :
  mode ∉ Spec.recognized_modes → map_mode default mode = default.
Proof.
  unfold Spec.recognized_modes. intros Hn.
  rewrite !not_elem_of_cons in Hn. destruct Hn as (H1 & H2 & H3 & H4 & _).
  unfold map_mode. rewrite dict_values_MODE_MAPPING. unfold MODE_MAPPING.
  rewrite !lookup_insert_ne by done. rewrite lookup_empty.
  case_decide as Hin; [|reflexivity].
  rewrite !elem_of_cons in Hin.
  destruct Hin as [?|[?|[?|Hnil]]]; try congruence.
  by apply elem_of_nil in Hnil.
Qed.

(** ** Scoring *)

Section Counting.
Implicit Types xs ys : list string.

Lemma count_not_in_from (n : nat) xs ys :
  foldl (λ n factor, if decide (factor ∈ ys) then n else S n) n xs
  = (n + length (filter (λ f, f ∉ ys) xs))%nat.
Proof.
  revert n. induction xs as [|x xs IH]; intros n; simpl.
  - lia.
  - rewrite IH. rewrite filter_cons.
    destruct (decide (x ∈ ys)), (decide (x ∉ ys)); simpl; try lia; tauto.
Qed.

Lemma count_not_in_filter xs ys :
  count_not_in xs ys = length (filter (λ f, f ∉ ys) xs).
Proof. unfold count_not_in. by rewrite count_not_in_from. Qed.

Lemma count_not_in_nil xs : count_not_in xs [] = length xs.
Proof.
  rewrite count_not_in_filter. f_equal.
  induction xs as [|x xs IH]; [reflexivity|].
  rewrite filter_cons_True by apply not_elem_of_nil. by rewrite IH.
Qed.

Lemma count_not_in_le xs ys : (count_not_in xs ys ≤ length xs)%nat.
Proof. rewrite count_not_in_filter. apply length_filter. Qed.
End Counting.

Lemma Qnat_lt (a b : nat) : (a < b)%nat → (Qnat a < Qnat b)%Q.
Proof. intros H. unfold Qnat. rewrite <- Zlt_Qlt. lia. Qed.

Lemma one_minus_ratio_negative (m t : nat) :
  (0 < t)%nat → (t < m)%nat → (1 - Qnat m / Qnat t < 0)%Q.
Proof.
  intros Ht Hm.
  assert (H1 : (1 < Qnat m / Qnat t)%Q).
  { apply Qlt_shift_div_l.
    - apply (Qnat_lt 0 t Ht).
    - rewrite Qmult_1_l. by apply Qnat_lt. }
  lra.
Qed.

Lemma zero_ltb (n : nat) : (0 < n)%nat → (0 <? n)%nat = true.
Proof. intros H. by apply Nat.ltb_lt. Qed.

(** C3, as stated: on [silent_row] the abstention flag of [process_csv_file]
    is not the conjunction of "no weaknesses" and "nothing claimed": the row
    has three weaknesses and is counted as a successful abstention. *)
Lemma csv_abstention_ignores_weaknesses :
  let r := process_csv_file_row silent_row.1 silent_row.2 in
  rs_total_weaknesses r = 3%nat
  ∧ rs_successful_abstention r = true
  ∧ rs_successful_abstention r
    ≠ Spec.is_successful_abstention (rs_total_weaknesses r) (rs_dist_factors r).
Proof. vm_compute. repeat split; discriminate. Qed.

(** C3, amended: in [calculate_scores] the successful-abstention predicate is
    the conjunction (total weaknesses = 0) and (claimed factor count = 0), and
    a row whose actual sections are all non-empty and whose claimed sets are
    all empty has a positive weakness count and is not counted.  In
    [process_csv_file] the predicate is "the three claimed sets are empty"
    alone, that is (claimed factor count = 0), and the same row is counted. *)
Theorem abstention_predicate_of_each_scorer
    (mode : string) (input_factors : case_factors) (distilled_factors : distilled) :
  let p := calculate_scores_row mode input_factors distilled_factors in
  let c := process_csv_file_row input_factors distilled_factors in
  rs_successful_abstention p
  = Spec.is_successful_abstention (rs_total_weaknesses p) (rs_dist_factors p)
  ∧ rs_successful_abstention c = (rs_dist_factors c =? 0)%nat
  ∧ (cf_Input input_factors ≠ [] → cf_TSC1 input_factors ≠ [] →
     cf_TSC2 input_factors ≠ [] → distilled_factors = Distilled [] [] [] →
     (0 < rs_total_weaknesses p)%nat
     ∧ rs_total_weaknesses c = rs_total_weaknesses p
     ∧ rs_successful_abstention p = false
     ∧ rs_successful_abstention c = true).
Proof.
  destruct input_factors as [i t1 t2], distilled_factors as [di d1 d2].
  cbn -[count_not_in Nat.eqb]. split; [reflexivity|]. split.
  - unfold distilled_total; simpl.
    destruct di, d1, d2; reflexivity.
  - intros Hi H1 H2 [= -> -> ->]. simpl.
    rewrite !count_not_in_nil.
    destruct i; [done|]. simpl. repeat split; lia.
Qed.

Lemma abstention_predicate_of_each_scorer_witness :
  let p := calculate_scores_row "non-arguable" silent_row.1 silent_row.2 in
  let c := process_csv_file_row silent_row.1 silent_row.2 in
  (0 < rs_total_weaknesses p)%nat
  ∧ rs_total_weaknesses c = rs_total_weaknesses p
  ∧ rs_successful_abstention p = false
  ∧ rs_successful_abstention c = true.
Proof.
  apply (abstention_predicate_of_each_scorer
           "non-arguable" silent_row.1 silent_row.2);
    vm_compute; congruence.
Defined.

(** The same row as a one-row file, read from text: [process_csv_file]
    reports the abstention ratio 1, [calculate_scores] the ratio 0 %. *)
Lemma abstention_ratio_of_each_scorer :
  let text := render false ["F1 Disclosure-in-negotiations (D)"]
                ["F2 Bribe-employee (P)"] ["F3 Employee-sole-developer (D)"] in
  process_csv_row text = silent_row.1
  ∧ process_distilled_factors "{}" = silent_row.2
  ∧ ((process_csv_file [(text, "{}")]).2 == 1)%Q
  ∧ ∃ ratio,
      rd_successful_abstention_ratio (calculate_scores "non-arguable" [(text, Some "{}")])
      = Some ratio
      ∧ (ratio == 0)%Q.
Proof.
  vm_compute. split; [reflexivity|]. split; [reflexivity|]. split; [reflexivity|].
  eexists. split; reflexivity.
Qed.

(** C4, as stated: on [silent_row] the strength of [process_csv_file] is not
    the unarguable-mode strength of the specification: the code gives
    1 - 3/3 where the specification gives 1 - 0/3. *)
Lemma csv_strength_is_not_mode_dependent :
  let r := process_csv_file_row silent_row.1 silent_row.2 in
  ¬ (rs_strength r
     == Spec.strength "unarguable" (rs_orig_factors r) (rs_dist_factors r)
          (rs_total_weaknesses r) (rs_total_factors r))%Q.
Proof. vm_compute. discriminate. Qed.

(** C4, amended: in [calculate_scores] the strength is mode-dependent as the
    specification words it (for a mode whose lower-case form is non-arguable
    or unarguable: 1 - dist/orig when orig > 0, 1 when orig = 0 and dist = 0,
    0 otherwise; for any other mode: 1 - weaknesses/total when total > 0 and
    0 otherwise).  In [process_csv_file] the strength does not depend on a
    mode: it is always 1 - weaknesses/orig when orig > 0 and 0 otherwise, the
    formula of the other modes. *)
Theorem strength_of_each_scorer
    (mode : string) (input_factors : case_factors) (distilled_factors : distilled) :
  let p := calculate_scores_row mode input_factors distilled_factors in
  let c := process_csv_file_row input_factors distilled_factors in
  rs_strength p
  = Spec.strength mode (rs_orig_factors p) (rs_dist_factors p)
      (rs_total_weaknesses p) (rs_total_factors p)
  ∧ rs_strength c
    = (if (0 <? rs_orig_factors c)%nat
       then 1 - Qnat (rs_total_weaknesses c) / Qnat (rs_orig_factors c)
       else 0)%Q
  ∧ rs_strength c
    = Spec.strength "arguable" (rs_orig_factors c) (rs_dist_factors c)
        (rs_total_weaknesses c) (rs_total_factors c)
  ∧ rs_orig_factors p = original_total input_factors
  ∧ rs_dist_factors p = distilled_total distilled_factors
  ∧ rs_total_factors p = original_total input_factors.
Proof.
  destruct input_factors as [i t1 t2], distilled_factors as [di d1 d2].
  cbn -[count_not_in Nat.ltb Nat.eqb is_unarguable_mode].
  unfold Spec.strength, original_total, distilled_total.
  cbn -[count_not_in Nat.ltb Nat.eqb is_unarguable_mode].
  replace (is_unarguable_mode "arguable") with false by (vm_compute; reflexivity).
  repeat split; reflexivity.
Qed.

(** ** Negative metrics *)

Lemma all_accuracies_foldl {R : Type} (f : R → row_score) (rows : list R) (acc : totals) :
  all_accuracies (foldl (λ acc row, accumulate acc (f row)) acc rows)
  = all_accuracies acc ++ ((λ row, rs_accuracy (f row) * 100)%Q <$> rows).
Proof.
  revert acc. induction rows as [|row rows IH]; intros acc; simpl.
  - by rewrite app_nil_r.
  - rewrite IH. simpl. by rewrite <- app_assoc.
Qed.

Lemma all_strengths_foldl {R : Type} (f : R → row_score) (rows : list R) (acc : totals) :
  all_strengths (foldl (λ acc row, accumulate acc (f row)) acc rows)
  = all_strengths acc ++ ((λ row, rs_strength (f row) * 100)%Q <$> rows).
Proof.
  revert acc. induction rows as [|row rows IH]; intros acc; simpl.
  - by rewrite app_nil_r.
  - rewrite IH. simpl. by rewrite <- app_assoc.
Qed.

(** C10: accuracy and unarguable-mode strength are not clamped.  A row whose
    mismatches outnumber its actual factors (there is one: [overclaiming_row])
    has a strictly negative accuracy 1 - mismatches/total in both scorers;
    in [calculate_scores] with an unarguable mode, strength 1 - dist/orig is
    strictly negative whenever dist > orig > 0.  Both scorers record the
    metric times 100 of each row as it is, and report the mean of the
    recorded values. *)
Theorem metrics_are_not_clamped :
  (∀ mode input_factors distilled_factors,
     let p := calculate_scores_row mode input_factors distilled_factors in
     let c := process_csv_file_row input_factors distilled_factors in
     (0 < rs_total_factors p)%nat →
     (rs_total_factors p < rs_total_mismatches p)%nat →
     (rs_accuracy p < 0)%Q ∧ (rs_accuracy c < 0)%Q
     ∧ rs_accuracy p
       = (1 - Qnat (rs_total_mismatches p) / Qnat (rs_total_factors p))%Q
     ∧ rs_accuracy c = rs_accuracy p)
  ∧ (∀ mode input_factors distilled_factors,
       let p := calculate_scores_row mode input_factors distilled_factors in
       is_unarguable_mode mode = true →
       (0 < rs_orig_factors p)%nat →
       (rs_orig_factors p < rs_dist_factors p)%nat →
       (rs_strength p < 0)%Q
       ∧ rs_strength p
         = (1 - Qnat (rs_dist_factors p) / Qnat (rs_orig_factors p))%Q)
  ∧ (let p := calculate_scores_row "arguable" overclaiming_row.1 overclaiming_row.2 in
     (0 < rs_total_factors p < rs_total_mismatches p)%nat)
  ∧ (∀ mode rows,
       rd_accuracy (calculate_scores mode rows)
       = mean ((λ row, rs_accuracy (calculate_scores_body mode row) * 100)%Q <$> rows)
       ∧ rd_strength (calculate_scores mode rows)
         = mean ((λ row, rs_strength (calculate_scores_body mode row) * 100)%Q <$> rows))
  ∧ (∀ rows,
       (process_csv_file rows).1.1.2
       = mean ((λ row, rs_accuracy (process_csv_file_body row) * 100)%Q <$> rows)).
Proof.
  split; [|split; [|split; [|split]]].
  - intros mode [i t1 t2] [di d1 d2].
    cbn -[count_not_in Nat.ltb Nat.eqb is_unarguable_mode].
    unfold original_total. cbn -[count_not_in Nat.ltb Nat.eqb is_unarguable_mode].
    intros Ht Hm. rewrite (zero_ltb _ Ht).
    repeat split; by apply one_minus_ratio_negative.
  - intros mode [i t1 t2] [di d1 d2].
    cbn -[count_not_in Nat.ltb Nat.eqb is_unarguable_mode].
    intros -> Ho Hd. rewrite (zero_ltb _ Ho).
    split; [by apply one_minus_ratio_negative|reflexivity].
  - vm_compute. lia.
  - intros mode rows. unfold calculate_scores. cbn [rd_accuracy rd_strength].
    rewrite all_accuracies_foldl, all_strengths_foldl. done.
  - intros rows. unfold process_csv_file. cbn [fst snd].
    rewrite all_accuracies_foldl. done.
Qed.

(** A one-row file that reaches the scorers as text: both report the
    accuracy -100 % and [calculate_scores], told an unarguable mode, the
    strength -100 %. *)
Lemma metrics_are_not_clamped_witness :
  let row := (overclaiming_scenario_cell, Some overclaiming_answer_cell) in
  let p := calculate_scores_body "non-arguable" row in
  ((0 < rs_total_factors p)%nat ∧ (rs_total_factors p < rs_total_mismatches p)%nat
   ∧ is_unarguable_mode "non-arguable" = true
   ∧ (rs_orig_factors p < rs_dist_factors p)%nat)
  ∧ (rs_accuracy p < 0)%Q ∧ (rs_strength p < 0)%Q
  ∧ (rd_accuracy (calculate_scores "non-arguable" [row]) == -100)%Q
  ∧ (rd_strength (calculate_scores "non-arguable" [row]) == -100)%Q
  ∧ ((process_csv_file [(overclaiming_scenario_cell, overclaiming_answer_cell)]).1.1.2
     == -100)%Q.
Proof.
  intros row p.
  assert (Hp : (0 < rs_total_factors p)%nat ∧ (rs_total_factors p < rs_total_mismatches p)%nat
               ∧ is_unarguable_mode "non-arguable" = true
               ∧ (rs_orig_factors p < rs_dist_factors p)%nat)
    by (vm_compute; repeat split; lia).
  split; [exact Hp|].
  destruct Hp as (H1 & H2 & H3 & H4).
  destruct metrics_are_not_clamped as (Hacc & Hstr & _ & Hrep & Hcsv).
  split; [exact (proj1 (Hacc _ _ _ H1 H2))|].
  split; [exact (proj1 (Hstr _ _ _ H3 H1 H4))|].
  rewrite (proj1 (Hrep _ _)), (proj2 (Hrep _ _)), Hcsv.
  vm_compute. repeat split; reflexivity.
Defined.

(** ** Running the state monad *)


Lemma bind_run {A B : Type} (m : M A) (f : A → M B) (w : world) :
  (m ≫= f) w
  = match m w with
    | (Ok a, w') => f a w'
    | (Raise e, w') => (Raise e, w')
    | (OutOfFuel, w') => (OutOfFuel, w')
    end.
Proof. reflexivity. Qed.

Lemma bind_Ok {A B : Type} (m : M A) (f : A → M B) (w w' : world) (b : B) :
  (m ≫= f) w = (Ok b, w') →
  ∃ a w1, m w = (Ok a, w1) ∧ f a w1 = (Ok b, w').
Proof.
  rewrite bind_run. destruct (m w) as [[a| |] w1]; try discriminate.
  intros H. by exists a, w1.
Qed.

Lemma ret_run {A : Type} (a : A) (w : world) : (mret a : M A) w = (Ok a, w).
Proof. reflexivity. Qed.

Lemma draw_run (w : world) :
  Random.draw w = (Ok (rng_src w (rng_pos w)), advance w).
Proof. reflexivity. Qed.

Lemma randint_run (a b : Z) (w : world) :
  (a ≤ b)%Z →
  Random.randint a b w
  = (Ok (a + Z.of_nat (rng_src w (rng_pos w)) mod (b - a + 1))%Z, advance w).
Proof.
  intros Hab. unfold Random.randint.
  destruct (Z.ltb_spec b a) as [?|_]; [lia|]. reflexivity.
Qed.

Lemma randint_Ok (a b z : Z) (w w' : world) :
  Random.randint a b w = (Ok z, w') →
  (a ≤ z ≤ b)%Z ∧ w' = advance w.
Proof.
  unfold Random.randint. destruct (Z.ltb_spec b a) as [?|Hab]; [discriminate|].
  rewrite bind_run, draw_run, ret_run. intros [= <- <-]. split; [|reflexivity].
  pose proof (Z.mod_pos_bound (Z.of_nat (rng_src w (rng_pos w))) (b - a + 1)).
  lia.
Qed.

Lemma sample_go_Ok {A : Type} (k : nat) (pool : list A) (w : world) :
  (k ≤ length pool)%nat →
  ∃ res w',
    Random.sample_go k pool w = (Ok res, w')
    ∧ length res = k ∧ res ⊆+ pool ∧ log w' = log w.
Proof.
  revert pool w. induction k as [|k IH]; intros pool w Hk.
  - exists [], w. split; [reflexivity|]. split; [reflexivity|].
    split; [apply submseteq_nil_l|reflexivity].
  - cbn [Random.sample_go]. rewrite bind_run, draw_run.
    set (j := (rng_src w (rng_pos w) mod length pool)%nat).
    assert (Hj : (j < length pool)%nat) by (apply Nat.mod_upper_bound; lia).
    destruct (lookup_lt_is_Some_2 pool j Hj) as [x Hx]. rewrite Hx.
    destruct (IH (delete j pool) (advance w)) as (rest & w' & Hrun & Hlen & Hsub & Hlog).
    { rewrite length_delete by eauto. lia. }
    exists (x :: rest), w'. rewrite bind_run, Hrun, ret_run.
    split; [reflexivity|]. split; [simpl; lia|]. split; [|done].
    rewrite (delete_Permutation pool j x Hx). by apply submseteq_skip.
Qed.

Lemma sample_Ok {A : Type} (population : list A) (k : Z) (w : world) :
  (0 ≤ k ≤ len population)%Z →
  ∃ res w',
    Random.sample population k w = (Ok res, w')
    ∧ length res = Z.to_nat k ∧ res ⊆+ population ∧ log w' = log w.
Proof.
  intros Hk. unfold Random.sample, len in *.
  destruct (Z.ltb_spec k 0) as [?|_]; [lia|].
  destruct (Z.ltb_spec (Z.of_nat (length population)) k) as [?|_]; [lia|].
  simpl. apply sample_go_Ok. lia.
Qed.

Lemma NoDup_factors : NoDup factors.
Proof. apply (bool_decide_unpack _). vm_compute. exact I. Qed.

Lemma submseteq_NoDup {A : Type} (l k : list A) : l ⊆+ k → NoDup k → NoDup l.
Proof.
  intros Hsub Hk. apply submseteq_Permutation in Hsub as [k' Hk'].
  rewrite Hk' in Hk. by apply NoDup_app in Hk as [? _].
Qed.

Lemma drawn_target_bounds (complexity : Z) (w : world) :
  (0 ≤ complexity)%Z →
  (min_factors complexity ≤ drawn_target complexity w ≤ max_factors complexity)%Z.
Proof.
  intros Hc. unfold drawn_target, min_factors, max_factors.
  pose proof (Z.mod_pos_bound (Z.of_nat (rng_src w (rng_pos w)))
                (complexity + 1 - Z.max 1 (complexity - 1) + 1)).
  lia.
Qed.

Lemma generate_tsc_factor_Ok_complexity fuel complexity input mode is_tsc1 w sel w' :
  generate_tsc_factor fuel complexity input mode is_tsc1 w = (Ok sel, w') →
  (0 ≤ complexity)%Z.
Proof.
  unfold generate_tsc_factor. intros H.
  apply bind_Ok in H as (t & w1 & Ht & _).
  apply randint_Ok in Ht as [Ht _]. unfold min_factors, max_factors in Ht. lia.
Qed.

Lemma unarguable_branch_run fuel complexity input mode is_tsc1 w :
  mode ≠ "arguable" → (0 ≤ complexity)%Z →
  let target := drawn_target complexity w in
  let available := filter (λ f, f ∉ input) factors in
  ∃ sel w',
    generate_tsc_factor fuel complexity input mode is_tsc1 w = (Ok sel, w')
    ∧ length sel = (Z.to_nat target `min` length available)%nat
    ∧ sel ⊆+ available
    ∧ log w' = log w ++ (if (len available <? target)%Z
                         then [AdjustTarget is_tsc1 target (length available)]
                         else []).
Proof.
  intros Hmode Hc target available.
  pose proof (drawn_target_bounds complexity w Hc) as Hb. fold target in Hb.
  assert (Hmin : (1 ≤ min_factors complexity)%Z) by (unfold min_factors; lia).
  unfold generate_tsc_factor.
  rewrite bind_run, randint_run by lia. fold (drawn_target complexity w). fold target.
  destruct (decide (mode = "arguable")) as [?|_]; [done|].
  fold available. rewrite bind_run.
  destruct (Z.ltb_spec (len available) target) as [Hlt|Hge].
  - rewrite bind_run. cbn [emit]. rewrite ret_run.
    set (w1 := World _ _ _).
    destruct (sample_Ok available (len available) w1) as (res & w' & Hrun & Hlen & Hsub & Hlog).
    { unfold len. lia. }
    exists res, w'. unfold try_except_ValueError. rewrite Hrun.
    split; [reflexivity|]. split; [|split; [done|]].
    + rewrite Hlen. unfold len in *. lia.
    + rewrite Hlog. reflexivity.
  - rewrite ret_run.
    destruct (sample_Ok available target (advance w)) as (res & w' & Hrun & Hlen & Hsub & Hlog).
    { lia. }
    exists res, w'. unfold try_except_ValueError. rewrite Hrun.
    split; [reflexivity|]. split; [|split; [done|]].
    + rewrite Hlen. unfold len in *. lia.
    + rewrite Hlog. simpl. by rewrite app_nil_r.
Qed.

Lemma available_disjoint (input sel : list string) :
  sel ⊆+ filter (λ f, f ∉ input) factors →
  NoDup sel ∧ (∀ f, f ∈ sel → (f ∉ input) ∧ f ∈ factors).
Proof.
  intros Hsub. split.
  - eapply submseteq_NoDup; [exact Hsub|]. apply NoDup_filter, NoDup_factors.
  - intros f Hf. eapply elem_of_submseteq in Hf; [|exact Hsub].
    apply list_elem_of_filter in Hf. tauto.
Qed.

(** ** The unarguable branch of [generate_tsc_factor] *)

(** C2: a single call of [generate_tsc_factor] with a mode other than
    ["arguable"] (the unarguable branch) returns, whenever the size range is
    not empty, a list that shares no factor with [input_factors], has no
    duplicates and is drawn from distinct positions of the catalog minus
    [input_factors]; its length is the drawn target count, shrunk to the
    number of available factors when fewer remain, in which case the
    adjustment is logged and nothing is raised. *)
Theorem unarguable_call_is_disjoint
    (fuel : nat) (complexity : Z) (input_factors : list string)
    (mode : string) (is_tsc1 : bool) (w : world) :
  mode ≠ "arguable" →
  let available := filter (λ f, f ∉ input_factors) factors in
  let target := drawn_target complexity w in
  ((0 ≤ complexity)%Z →
   ∃ selected w',
     generate_tsc_factor fuel complexity input_factors mode is_tsc1 w
     = (Ok selected, w'))
  ∧ ∀ selected w',
      generate_tsc_factor fuel complexity input_factors mode is_tsc1 w
      = (Ok selected, w') →
      (∀ f, f ∈ selected → f ∉ input_factors)
      ∧ NoDup selected
      ∧ selected ⊆+ available
      ∧ (min_factors complexity ≤ target ≤ max_factors complexity)%Z
      ∧ length selected = (Z.to_nat target `min` length available)%nat
      ∧ log w' = log w ++ (if (len available <? target)%Z
                           then [AdjustTarget is_tsc1 target (length available)]
                           else []).
Proof.
  intros Hmode available target. split.
  - intros Hc.
    destruct (unarguable_branch_run fuel complexity input_factors mode is_tsc1 w
                Hmode Hc) as (sel & w' & Hrun & _).
    by exists sel, w'.
  - intros selected w' Hrun.
    pose proof (generate_tsc_factor_Ok_complexity _ _ _ _ _ _ _ _ Hrun) as Hc.
    destruct (unarguable_branch_run fuel complexity input_factors mode is_tsc1 w
                Hmode Hc) as (sel & w1 & Hrun' & Hlen & Hsub & Hlog).
    rewrite Hrun in Hrun'. injection Hrun' as <- <-.
    destruct (available_disjoint _ _ Hsub) as [Hnd Hdisj].
    split; [intros f Hf; by apply Hdisj|]. split; [done|]. split; [done|].
    split; [by apply drawn_target_bounds|]. split; done.
Qed.

(** Twenty-four of the twenty-six catalog entries are input factors and the
    target count drawn for complexity 5 is 4: the call returns the two
    remaining factors. *)
Lemma unarguable_call_is_disjoint_witness :
  let input_factors := take 24 factors in
  let w := World (λ _, 0%nat) 0 [] in
  "unarguable" ≠ "arguable"
  ∧ ∃ selected w',
      generate_tsc_factor 0 5 input_factors "unarguable" true w = (Ok selected, w')
      ∧ (∀ f, f ∈ selected → f ∉ input_factors)
      ∧ length selected = 2%nat
      ∧ log w' = [AdjustTarget true 4 2].
Proof.
  intros input_factors w.
  assert (Hmode : "unarguable" ≠ "arguable") by discriminate.
  split; [exact Hmode|].
  destruct (unarguable_call_is_disjoint 0 5 input_factors "unarguable" true w Hmode)
    as [Hex Hpost].
  destruct Hex as (selected & w' & Hrun); [lia|].
  exists selected, w'. split; [exact Hrun|].
  destruct (Hpost _ _ Hrun) as (Hdisj & _ & _ & _ & Hlen & Hlog).
  split; [exact Hdisj|]. split; [exact Hlen|exact Hlog].
Defined.

(** ** Rendering *)

Lemma string_app_cons (x : ascii) (a b : string) :
  String x a +:+ b = String x (a +:+ b).
Proof. reflexivity. Qed.

Lemma string_app_nil (b : string) : EmptyString +:+ b = b.
Proof. reflexivity. Qed.

Lemma string_app_assoc (a b c : string) : (a +:+ b) +:+ c = a +:+ (b +:+ c).
Proof.
  induction a as [|x a IH]; [done|].
  rewrite !string_app_cons. f_equal. apply IH.
Qed.

Lemma rev_onto_app (a b acc : string) :
  PyStr.rev_onto (a +:+ b) acc = PyStr.rev_onto b (PyStr.rev_onto a acc).
Proof.
  revert acc. induction a as [|c a IH]; intros acc; [done|].
  rewrite string_app_cons. simpl. apply IH.
Qed.

Lemma rev_onto_acc (s acc : string) :
  PyStr.rev_onto s acc = PyStr.rev s +:+ acc.
Proof.
  unfold PyStr.rev. revert acc. induction s as [|c s IH]; intros acc; simpl; [done|].
  rewrite IH, (IH (String c EmptyString)).
  rewrite string_app_assoc. reflexivity.
Qed.

Lemma drop_while_keeps_last (p : ascii → bool) (u : string) (c : ascii) :
  p c = false →
  ∃ u', PyStr.drop_while p (u +:+ String c EmptyString) = u' +:+ String c EmptyString.
Proof.
  intros Hc. induction u as [|a u IH].
  - rewrite string_app_nil. simpl. rewrite Hc. by exists EmptyString.
  - rewrite string_app_cons. simpl.
    destruct (p a); [exact IH|]. by exists (String a u).
Qed.

Lemma strip_keeps_first (c : ascii) (s : string) :
  PyStr.is_space c = false → ∃ s', PyStr.strip (String c s) = String c s'.
Proof.
  intros Hc. unfold PyStr.strip, PyStr.lstrip, PyStr.rstrip. simpl. rewrite Hc.
  unfold PyStr.rev at 2. simpl. rewrite rev_onto_acc.
  destruct (drop_while_keeps_last PyStr.is_space (PyStr.rev s) c Hc) as [u' ->].
  exists (PyStr.rev u'). unfold PyStr.rev at 1. by rewrite rev_onto_app.
Qed.

Lemma py_int_backslash (ds : string) :
  py_int (String PyStr.backslash ds) = Raise ValueError.
Proof.
  unfold py_int.
  destruct (strip_keeps_first PyStr.backslash ds) as [s' ->]; reflexivity.
Qed.

Lemma search_backslash_ds_head (x g : string) :
  search_backslash_ds x = Some g → ∃ ds, g = String PyStr.backslash ds.
Proof.
  induction x as [|c x IH]; simpl; [discriminate|].
  case_bool_decide as Hc; [|exact IH].
  destruct (PyStr.take_while _ x) as [|d ds]; [exact IH|].
  intros [= <-]. subst c. by eexists.
Qed.

(** The sort key of [generate_initial_prompt] raises on every string. *)
Lemma prompt_sort_key_raises (x : string) :
  prompt_sort_key x = Raise AttributeError ∨ prompt_sort_key x = Raise ValueError.
Proof.
  unfold prompt_sort_key.
  destruct (search_backslash_ds x) as [g|] eqn:Hs; [|by left].
  apply search_backslash_ds_head in Hs as [ds ->]. right. apply py_int_backslash.
Qed.

Lemma search_backslash_ds_catalog (x : string) :
  x ∈ factors → prompt_sort_key x = Raise AttributeError.
Proof.
  intros Hx.
  assert (H : forallb (λ x, match prompt_sort_key x with
                            | Raise AttributeError => true
                            | _ => false
                            end) factors = true) by (vm_compute; reflexivity).
  apply list_elem_of_In in Hx.
  pose proof (proj1 (forallb_forall _ _) H x Hx) as Hk. simpl in Hk.
  destruct (prompt_sort_key x) as [|[]|]; congruence.
Qed.

Lemma sorted_raises (l : list string) :
  l ≠ [] → ∃ e, sorted Z.leb prompt_sort_key l = Raise e.
Proof.
  destruct l as [|x l]; [done|]. intros _. unfold sorted. simpl.
  destruct (prompt_sort_key_raises x) as [-> | ->]; by eexists.
Qed.

Lemma sorted_nil : sorted Z.leb prompt_sort_key [] = Ok [].
Proof. reflexivity. Qed.

Lemma drawn_scenario_is_generated :
  (init 10 "non-arguable" "non-arguable" 2 (world_of [1; 3; 5; 7; 9; 11; 2; 4; 6; 8])).1
  = Ok drawn_scenario.
Proof. vm_compute. reflexivity. Qed.

(** The call raises as soon as one of the three factor lists is not empty. *)
Lemma generate_initial_prompt_nonempty_raises (self : generator) :
  input_factors self ≠ [] ∨ tsc1 self ≠ [] ∨ tsc2 self ≠ [] →
  ∃ e, generate_initial_prompt self = Raise e.
Proof.
  unfold generate_initial_prompt. intros H.
  destruct (decide (input_factors self = [])) as [Hi|Hi].
  - rewrite Hi, sorted_nil. cbn [mbind outcome_bind].
    destruct (decide (tsc1 self = [])) as [H1|H1].
    + rewrite H1, sorted_nil. cbn [mbind outcome_bind].
      assert (H2 : tsc2 self ≠ []) by tauto.
      destruct (sorted_raises _ H2) as [e ->]. by exists e.
    + destruct (sorted_raises _ H1) as [e ->]. by exists e.
  - destruct (sorted_raises _ Hi) as [e ->]. by exists e.
Qed.

(** With a first input factor from the catalog the exception is the
    [AttributeError] of [re.search(...).group()]. *)
Lemma generate_initial_prompt_catalog_raises (self : generator) :
  input_factors self ≠ [] → input_factors self ⊆ factors →
  generate_initial_prompt self = Raise AttributeError.
Proof.
  unfold generate_initial_prompt, sorted.
  destruct (input_factors self) as [|x l]; [done|]. intros _ Hsub.
  cbn [decorate mbind outcome_bind].
  rewrite (search_backslash_ds_catalog x); [reflexivity|]. apply Hsub. by left.
Qed.

(** On the scenario drawn above the exception is the [AttributeError] of
    [re.search(...).group()]: no catalog entry holds a backslash. *)
Lemma generate_initial_prompt_drawn_scenario :
  generate_initial_prompt drawn_scenario = Raise AttributeError.
Proof. vm_compute. reflexivity. Qed.

(** The prompt of [update_tsc], whose sort key works, does not parse back
    either: the separator holds a backslash and the letter n, not a line
    break, so that [extract_case_factors] reads each section of the drawn
    scenario as one factor, the joined line. *)
Lemma separator_merges_factor_lines :
  let text := render false (input_factors drawn_scenario) (tsc1 drawn_scenario)
                (tsc2 drawn_scenario) in
  extract_case_factors text
  = CaseFactors [PyStr.join separator (input_factors drawn_scenario)]
                [PyStr.join separator (tsc1 drawn_scenario)]
                [PyStr.join separator (tsc2 drawn_scenario)]
  ∧ length (cf_Input (extract_case_factors text)) = 1%nat
  ∧ length (input_factors drawn_scenario) = 2%nat.
Proof. vm_compute. repeat split; reflexivity. Qed.

(** ** Sizes of the generated lists *)

Lemma sample_Ok_inv {A : Type} (population : list A) (k : Z) (w w' : world)
    (res : list A) :
  Random.sample population k w = (Ok res, w') →
  length res = Z.to_nat k ∧ (0 ≤ k ≤ len population)%Z ∧ res ⊆+ population
  ∧ log w' = log w.
Proof.
  intros Hrun.
  assert (Hk : (0 ≤ k ≤ len population)%Z).
  { unfold Random.sample, len in *.
    destruct (Z.ltb_spec k 0); [discriminate|].
    destruct (Z.ltb_spec (Z.of_nat (length population)) k); [discriminate|]. lia. }
  destruct (sample_Ok population k w Hk) as (res' & w1 & Hrun' & Hlen & Hsub & Hlog).
  rewrite Hrun in Hrun'. injection Hrun' as <- <-. done.
Qed.

Lemma choice_Ok_inv {A : Type} (seq : list A) (w w' : world) (x : A) :
  Random.choice seq w = (Ok x, w') → x ∈ seq ∧ log w' = log w.
Proof.
  unfold Random.choice. destruct seq as [|y seq]; [discriminate|].
  rewrite bind_run, draw_run.
  destruct (_ !! _) as [z|] eqn:Hz; [|discriminate].
  rewrite ret_run. intros [= <- <-]. split; [|done].
  by eapply list_elem_of_lookup_2.
Qed.

Lemma fill_loop_Ok (fuel : nat) (target : Z) (sel res : list string) (w w' : world) :
  fill_loop fuel target sel w = (Ok res, w') →
  len res = Z.max target (len sel)
  ∧ (NoDup sel → NoDup res)
  ∧ log w' = log w.
Proof.
  revert sel w. induction fuel as [|fuel IH]; intros sel w; cbn [fill_loop].
  - destruct (Z.ltb_spec (len sel) target) as [Hlt|Hge]; [discriminate|].
    rewrite ret_run. intros [= <- <-]. split; [lia|done].
  - destruct (Z.ltb_spec (len sel) target) as [Hlt|Hge].
    + intros Hrun. apply bind_Ok in Hrun as (f & w1 & Hf & Hrun).
      apply choice_Ok_inv in Hf as [_ Hlog1].
      destruct (decide (f ∈ sel)) as [Hin|Hnin].
      * apply IH in Hrun as (Hlen & Hnd & Hlog). split; [done|]. split; [done|congruence].
      * apply IH in Hrun as (Hlen & Hnd & Hlog).
        unfold len in *. rewrite length_app in Hlen. simpl in Hlen.
        split; [lia|]. split; [|congruence].
        intros Hsel. apply Hnd. apply NoDup_app. split; [done|].
        split; [|apply NoDup_singleton].
        intros x Hx ->%list_elem_of_singleton. done.
    + rewrite ret_run. intros [= <- <-]. split; [lia|done].
Qed.

Lemma input_factor_loop_Ok (fuel : nat) (target : Z) (sel res : list string)
    (used : gset nat) (w w' : world) :
  input_factor_loop fuel target sel used w = (Ok res, w') →
  (∀ f, f ∈ sel → ∃ i, i ∈ used ∧ factors !! i = Some f) →
  len res = Z.max target (len sel)
  ∧ (NoDup sel → NoDup res)
  ∧ (sel ⊆ factors → res ⊆ factors)
  ∧ log w' = log w.
Proof.
  revert sel used w. induction fuel as [|fuel IH]; intros sel used w;
    cbn [input_factor_loop].
  - destruct (Z.ltb_spec (len sel) target) as [Hlt|Hge]; [discriminate|].
    rewrite ret_run. intros [= <- <-] _. split; [lia|done].
  - destruct (Z.ltb_spec (len sel) target) as [Hlt|Hge].
    + intros Hrun Hused. apply bind_Ok in Hrun as (index & w1 & Hidx & Hrun).
      apply randint_Ok in Hidx as [_ ->].
      destruct (decide (Z.to_nat index ∈ used)) as [Hin|Hnin].
      * apply IH in Hrun as (Hlen & Hnd & Hsub & Hlog); done.
      * destruct (factors !! Z.to_nat index) as [f|] eqn:Hf; [|discriminate].
        apply IH in Hrun as (Hlen & Hnd & Hsub & Hlog).
        -- unfold len in *. rewrite length_app in Hlen. simpl in Hlen.
           split; [lia|]. split; [|split; [|done]].
           ++ intros Hsel. apply Hnd. apply NoDup_app. split; [done|].
              split; [|apply NoDup_singleton].
              intros x Hx ->%list_elem_of_singleton.
              destruct (Hused _ Hx) as (i & Hi & Hfi).
              assert (i = Z.to_nat index)
                by (eapply (NoDup_lookup factors); [apply NoDup_factors|eassumption..]).
              congruence.
           ++ intros Hsel. apply Hsub. intros x [Hx| ->%list_elem_of_singleton]%elem_of_app.
              ** by apply Hsel.
              ** by eapply list_elem_of_lookup_2.
        -- intros x [Hx| ->%list_elem_of_singleton]%elem_of_app.
           ++ destruct (Hused _ Hx) as (i & Hi & Hfi). exists i. split; [apply elem_of_union; by right|done].
           ++ exists (Z.to_nat index).
              split; [apply elem_of_union; left; by apply elem_of_singleton|done].
    + rewrite ret_run. intros [= <- <-] _. split; [lia|done].
Qed.

Lemma generate_input_factor_Ok (fuel : nat) (complexity : Z) (res : list string)
    (w w' : world) :
  generate_input_factor fuel complexity w = (Ok res, w') →
  (min_factors complexity ≤ len res ≤ max_factors complexity)%Z
  ∧ NoDup res ∧ res ⊆ factors ∧ log w' = log w.
Proof.
  unfold generate_input_factor. intros Hrun.
  apply bind_Ok in Hrun as (target & w1 & Ht & Hrun).
  apply randint_Ok in Ht as [Ht ->].
  apply input_factor_loop_Ok in Hrun as (Hlen & Hnd & Hsub & Hlog).
  - assert (1 ≤ min_factors complexity)%Z by (unfold min_factors; lia).
    unfold len in *. simpl in Hlen.
    split; [lia|]. split; [apply Hnd, NoDup_nil_2|]. split; [|done].
    apply Hsub. intros x Hx. by apply elem_of_nil in Hx.
  - intros f Hf. by apply elem_of_nil in Hf.
Qed.

Lemma filter_all {A : Type} (P : A → Prop) `{∀ x, Decision (P x)} (l : list A) :
  (∀ x, x ∈ l → P x) → filter P l = l.
Proof.
  induction l as [|x l IH]; intros Hl; [done|].
  rewrite filter_cons_True by (apply Hl; left).
  f_equal. apply IH. intros y Hy. apply Hl. by right.
Qed.

(** Seeds of the arguable branch: factors drawn from the input, then factors
    drawn from the rest of the input, are at distinct positions of the
    input. *)
Lemma seeds_within_input (input common more : list string) :
  common ⊆+ input →
  more ⊆+ filter (λ f, f ∉ common) input →
  (length (common ++ more) ≤ length input)%nat
  ∧ (NoDup input → NoDup (common ++ more)).
Proof.
  intros Hc Hm. split.
  - rewrite length_app.
    pose proof (submseteq_length _ _ Hm) as Hlm.
    assert (Hlc : (length common ≤ length (filter (λ f, f ∈ common) input))%nat).
    { apply submseteq_Permutation in Hc as [k Hk].
      rewrite Hk, filter_app, length_app.
      rewrite (filter_all (λ f, f ∈ common) common) by done. lia. }
    pose proof (filter_app_complement (λ f, f ∈ common) input) as Hp.
    apply Permutation_length in Hp. rewrite length_app in Hp. lia.
  - intros Hnd. apply NoDup_app. split; [by eapply submseteq_NoDup|]. split.
    + intros x Hx Hxm. eapply elem_of_submseteq in Hxm; [|exact Hm].
      apply list_elem_of_filter in Hxm as [Hn _]. done.
    + eapply submseteq_NoDup; [exact Hm|]. by apply NoDup_filter.
Qed.

Lemma update_used_indices_Ok (used res : gset nat) (common : list string) (w w' : world) :
  update_used_indices used common w = (Ok res, w') → w' = w.
Proof.
  revert used w. induction common as [|f common IH]; intros used w; simpl.
  - rewrite ret_run. by intros [= _ <-].
  - intros Hrun. apply bind_Ok in Hrun as (i & w1 & Hi & Hrun).
    apply IH in Hrun as ->. unfold factors_index in Hi.
    destruct (list_find _ _) as [[j ?]|]; [|discriminate].
    rewrite ret_run in Hi. by injection Hi as _ <-.
Qed.

Lemma common_of_polarity_Ok (polar common : list string) (w w' : world) :
  common_of_polarity polar w = (Ok common, w') →
  common ⊆+ polar ∧ log w' = log w.
Proof.
  unfold common_of_polarity. destruct polar as [|p polar].
  - rewrite ret_run. intros [= <- <-]. done.
  - intros Hrun. apply bind_Ok in Hrun as (n & w1 & Hn & Hrun).
    apply randint_Ok in Hn as [_ ->].
    apply bind_Ok in Hrun as (res & w2 & Hs & Hrun).
    apply sample_Ok_inv in Hs as (_ & _ & Hsub & Hlog).
    apply bind_Ok in Hrun as (u & w3 & Hu & Hrun).
    apply update_used_indices_Ok in Hu as ->.
    rewrite ret_run in Hrun. injection Hrun as <- <-. done.
Qed.

Lemma arguable_branch_Ok (fuel : nat) (complexity : Z) (input sel : list string)
    (is_tsc1 : bool) (w w' : world) :
  generate_tsc_factor fuel complexity input "arguable" is_tsc1 w = (Ok sel, w') →
  (min_factors complexity ≤ len sel)%Z
  ∧ (len sel ≤ Z.max (max_factors complexity) (len input))%Z
  ∧ (NoDup input → NoDup sel)
  ∧ log w' = log w.
Proof.
  unfold generate_tsc_factor. intros Hrun.
  apply bind_Ok in Hrun as (target & w1 & Ht & Hrun).
  apply randint_Ok in Ht as [Ht ->].
  destruct (decide ("arguable" = "arguable")) as [_|?]; [|done].
  apply bind_Ok in Hrun as (common & w2 & Hc & Hrun).
  assert (Hcommon : common ⊆+ input ∧ log w2 = log w).
  { destruct is_tsc1; apply common_of_polarity_Ok in Hc as [Hsub Hlog];
      (split; [|done]); (etrans; [exact Hsub|]);
      apply sublist_submseteq, sublist_filter. }
  destruct Hcommon as [Hcsub Hlog2]. clear Hc.
  apply bind_Ok in Hrun as (seeds & w3 & Hs & Hrun).
  assert (Hseeds : ∃ more, seeds = common ++ more
                           ∧ more ⊆+ filter (λ f, f ∉ common) input
                           ∧ log w3 = log w).
  { destruct (filter (λ f, f ∉ common) input) as [|o other] eqn:Hother.
    - rewrite ret_run in Hs. injection Hs as <- <-.
      exists []. rewrite app_nil_r. done.
    - apply bind_Ok in Hs as (lucky & w4 & Hl & Hs).
      unfold Random.random_lt_0_7 in Hl.
      rewrite bind_run, draw_run, ret_run in Hl. injection Hl as <- <-.
      destruct (_ <? _)%nat.
      + apply bind_Ok in Hs as (n & w5 & Hn & Hs).
        apply randint_Ok in Hn as [_ ->].
        apply bind_Ok in Hs as (more & w6 & Hm & Hs).
        apply sample_Ok_inv in Hm as (_ & _ & Hsub & Hlog).
        rewrite ret_run in Hs. injection Hs as <- <-.
        exists more. split; [done|]. split; [done|]. by rewrite Hlog.
      + rewrite ret_run in Hs. injection Hs as <- <-.
        exists []. rewrite app_nil_r. split; [done|]. split; [|done].
        apply submseteq_nil_l. }
  destruct Hseeds as (more & -> & Hmore & Hlog3). clear Hs.
  destruct (seeds_within_input input common more Hcsub Hmore) as [Hlen Hnd].
  apply fill_loop_Ok in Hrun as (Hres & Hndres & Hlog).
  unfold len in *. split; [lia|]. split; [lia|]. split; [tauto|congruence].
Qed.

Lemma tsc_factor_sizes (fuel : nat) (complexity : Z) (input sel : list string)
    (mode : string) (is_tsc1 : bool) (w w' : world) :
  generate_tsc_factor fuel complexity input mode is_tsc1 w = (Ok sel, w') →
  NoDup input → (len input ≤ max_factors complexity)%Z →
  NoDup sel
  ∧ (in_size_range complexity sel
     ∨ (mode ≠ "arguable" ∧ exhausted_side complexity input sel)).
Proof.
  intros Hrun Hnd Hlen. destruct (decide (mode = "arguable")) as [->|Hmode].
  - apply arguable_branch_Ok in Hrun as (Hlo & Hhi & Hsel & _).
    split; [by apply Hsel|]. left. unfold in_size_range. lia.
  - pose proof (generate_tsc_factor_Ok_complexity _ _ _ _ _ _ _ _ Hrun) as Hc.
    destruct (unarguable_branch_run fuel complexity input mode is_tsc1 w Hmode Hc)
      as (sel' & w1 & Hrun' & Hl & Hsub & _).
    rewrite Hrun in Hrun'. injection Hrun' as <- <-.
    destruct (available_disjoint _ _ Hsub) as [Hnds _]. split; [done|].
    pose proof (drawn_target_bounds complexity w Hc) as Hb.
    unfold in_size_range, exhausted_side, len in *.
    assert (1 ≤ min_factors complexity)%Z by (unfold min_factors; lia).
    destruct (decide (min_factors complexity ≤ Z.of_nat (length sel))%Z);
      [left|right; split; [done|]]; lia.
Qed.

Lemma double_check_Ok (tsc_factor : Z → list string → string → bool → M (list string))
    (mode : string) (is_tsc1 : bool) (complexity : Z) (input tsc tsc' : list string)
    (w w' : world) :
  double_check tsc_factor mode is_tsc1 complexity input tsc w = (Ok tsc', w') →
  tsc' = tsc
  ∨ (mode = "unarguable" ∧ filter (λ f, f ∈ tsc) input ≠ []
     ∧ ∃ w1, tsc_factor complexity input mode is_tsc1 w1 = (Ok tsc', w')).
Proof.
  unfold double_check. destruct (decide (mode = "unarguable")) as [Hm|_].
  - destruct (filter _ input) as [|x common] eqn:Hcommon.
    + rewrite bind_run. cbn [emit]. rewrite ret_run. intros [= <- _]. by left.
    + rewrite bind_run. cbn [emit]. intros Hrun. right.
      split; [done|]. split; [done|]. eauto.
  - rewrite ret_run. intros [= <- _]. by left.
Qed.

(** The calls behind a scenario, in their order. *)
Lemma generate_input_scenario_with_Ok
    (tsc_factor : Z → list string → string → bool → M (list string))
    (fuel : nat) (m1 m2 : string) (complexity : Z)
    (input t1 t2 : list string) (w w' : world) :
  generate_input_scenario_with tsc_factor fuel m1 m2 complexity w
  = (Ok (input, t1, t2), w') →
  ∃ w1 w2 w3 w4 a b,
    generate_input_factor fuel complexity w = (Ok input, w1)
    ∧ (if decide (m1 = "reordered" ∧ m2 = "reordered")
       then tsc_factor complexity input "arguable" true w1 = (Ok b, w2)
            ∧ tsc_factor complexity input "arguable" false w2 = (Ok a, w3)
       else tsc_factor complexity input m1 true w1 = (Ok a, w2)
            ∧ tsc_factor complexity input m2 false w2 = (Ok b, w3))
    ∧ double_check tsc_factor m1 true complexity input a w3 = (Ok t1, w4)
    ∧ double_check tsc_factor m2 false complexity input b w4 = (Ok t2, w').
Proof.
  unfold generate_input_scenario_with. intros Hrun.
  apply bind_Ok in Hrun as (input' & w1 & Hin & Hrun).
  apply bind_Ok in Hrun as ([a b] & w3 & Hsides & Hrun).
  apply bind_Ok in Hrun as (t1' & w4 & Hd1 & Hrun).
  apply bind_Ok in Hrun as (t2' & w5 & Hd2 & Hrun).
  rewrite ret_run in Hrun. injection Hrun as <- <- <- <-.
  destruct (decide (m1 = "reordered" ∧ m2 = "reordered")) as [Hre|Hre].
  - apply bind_Ok in Hsides as (x & w2 & Hx & Hsides).
    apply bind_Ok in Hsides as (y & w3' & Hy & Hsides).
    rewrite ret_run in Hsides. injection Hsides as <- <- <-.
    exists w1, w2, w3', w4, y, x.
    done.
  - apply bind_Ok in Hsides as (x & w2 & Hx & Hsides).
    apply bind_Ok in Hsides as (y & w3' & Hy & Hsides).
    rewrite ret_run in Hsides. injection Hsides as <- <- <-.
    exists w1, w2, w3', w4, x, y.
    done.
Qed.

Lemma generate_input_scenario_sizes (fuel : nat) (m1 m2 : string) (c : Z)
    (input t1 t2 : list string) (w w' : world) :
  generate_input_scenario fuel m1 m2 c w = (Ok (input, t1, t2), w') →
  scenario_sizes (Generator m1 m2 c input t1 t2).
Proof.
  intros Hrun. unfold generate_input_scenario in Hrun.
  apply generate_input_scenario_with_Ok in Hrun
    as (w1 & w2 & w3 & w4 & a & b & Hin & Hsides & Hd1 & Hd2).
  apply generate_input_factor_Ok in Hin as (Hrange & Hnd & _ & _).
  assert (Hmax : (len input ≤ max_factors c)%Z) by lia.
  unfold scenario_sizes, side_sizes, unarguable_branch. cbn.
  split; [done|]. split; [done|].
  apply double_check_Ok in Hd1 as [->|(Hm1 & _ & w5 & Hr1)];
    apply double_check_Ok in Hd2 as [->|(Hm2 & _ & w6 & Hr2)];
    destruct (decide (m1 = "reordered" ∧ m2 = "reordered")) as [[Hre1 Hre2]|Hre];
    try congruence;
    destruct Hsides as [Ha Hb];
    repeat match goal with
      | H : generate_tsc_factor _ _ _ _ _ _ = (Ok _, _) |- _ =>
          apply tsc_factor_sizes in H as [? [?|[? ?]]]; [| |done..]
      end;
    try done; split; split; try done; try (by left); try (by right).
Qed.

Lemma init_Ok (fuel : nat) (m1 m2 : string) (c : Z) (self : generator) (w w' : world) :
  init fuel m1 m2 c w = (Ok self, w') →
  mode1 self = init_mode m1 ∧ mode2 self = init_mode m2 ∧ complexity self = c
  ∧ generate_input_scenario fuel (init_mode m1) (init_mode m2) c w
    = (Ok (input_factors self, tsc1 self, tsc2 self), w').
Proof.
  unfold init, init_with. intros Hrun.
  apply bind_Ok in Hrun as ([[input t1] t2] & w1 & Hgen & Hrun).
  rewrite ret_run in Hrun. injection Hrun as <- <-. done.
Qed.

Lemma restart_Ok (fuel : nat) (self self' : generator) (w w' : world) :
  restart fuel self w = (Ok self', w') →
  mode1 self' = mode1 self ∧ mode2 self' = mode2 self
  ∧ complexity self' = complexity self
  ∧ generate_input_scenario fuel (mode1 self) (mode2 self) (complexity self) w
    = (Ok (input_factors self', tsc1 self', tsc2 self'), w').
Proof.
  unfold restart, restart_with. intros Hrun.
  apply bind_Ok in Hrun as ([[input t1] t2] & w1 & Hgen & Hrun).
  rewrite ret_run in Hrun. injection Hrun as <- <-. done.
Qed.

Lemma init_sizes (fuel : nat) (m1 m2 : string) (c : Z) (self : generator) (w w' : world) :
  init fuel m1 m2 c w = (Ok self, w') → scenario_sizes self.
Proof.
  intros Hrun. apply init_Ok in Hrun as (H1 & H2 & H3 & Hgen).
  apply generate_input_scenario_sizes in Hgen.
  destruct self; simpl in *; by subst.
Qed.

Lemma restart_sizes (fuel : nat) (self self' : generator) (w w' : world) :
  restart fuel self w = (Ok self', w') → scenario_sizes self'.
Proof.
  intros Hrun. apply restart_Ok in Hrun as (H1 & H2 & H3 & Hgen).
  apply generate_input_scenario_sizes in Hgen.
  destruct self, self'; simpl in *; by subst.
Qed.

Lemma datasets_repair_loop_sizes (fuel remaining attempt : nat) (gen gen' : generator)
    (attempt' : nat) (w w' : world) :
  datasets_repair_loop (generate_tsc_factor fuel) fuel remaining attempt gen w
  = (Ok (gen', attempt'), w') →
  scenario_sizes gen → scenario_sizes gen'.
Proof.
  revert attempt gen w. induction remaining as [|remaining IH];
    intros attempt gen w; cbn [datasets_repair_loop].
  - rewrite ret_run. by intros [= <- _ _].
  - case_bool_decide.
    + intros Hrun _. apply bind_Ok in Hrun as ([] & w1 & _ & Hrun).
      apply bind_Ok in Hrun as (gen1 & w2 & Hre & Hrun).
      apply IH in Hrun; [done|]. by eapply restart_sizes.
    + intros Hrun. apply bind_Ok in Hrun as ([] & w1 & _ & Hrun).
      rewrite ret_run in Hrun. by injection Hrun as <- _ _.
Qed.

Lemma datasets_scenario_sizes (fuel : nat) (mode : string) (c : Z) (self : generator)
    (w w' : world) :
  datasets_scenario (generate_tsc_factor fuel) fuel mode c w = (Ok self, w') →
  scenario_sizes self.
Proof.
  unfold datasets_scenario. intros Hrun.
  apply bind_Ok in Hrun as (gen & w1 & Hinit & Hrun).
  apply init_sizes in Hinit.
  destruct (decide (mode = "unarguable")).
  - apply bind_Ok in Hrun as ([gen' attempt] & w2 & Hloop & Hrun).
    apply datasets_repair_loop_sizes in Hloop; [|done].
    apply bind_Ok in Hrun as ([] & w3 & _ & Hrun).
    rewrite ret_run in Hrun. by injection Hrun as <- _.
  - rewrite ret_run in Hrun. by injection Hrun as <- _.
Qed.

(** C5, as stated: a side can fall below the range without the mode
    ["unarguable"].  [ScenarioGenerator("reordered", "arguable", 14)] on the
    draws [short_side_draws] has 15 input factors; its first side, of mode
    ["reordered"], goes through the branch that avoids the input factors,
    where 11 catalog factors are left, and has 11 factors, fewer than the
    lower bound 13. *)
Lemma short_side_in_reordered_mode :
  let run := init 30 "reordered" "arguable" 14 (world_of short_side_draws) in
  ∃ self,
    run.1 = Ok self
    ∧ mode1 self = "reordered" ∧ mode2 self = "arguable"
    ∧ mode1 self ≠ "unarguable"
    ∧ length (input_factors self) = 15%nat
    ∧ length (tsc1 self) = 11%nat
    ∧ min_factors 14 = 13%Z
    ∧ ¬ in_size_range 14 (tsc1 self)
    ∧ log run.2 = [AdjustTarget true 13 11].
Proof.
  intros run.
  assert (H : ∃ self,
             run.1 = Ok self
             ∧ mode1 self = "reordered" ∧ mode2 self = "arguable"
             ∧ length (input_factors self) = 15%nat
             ∧ length (tsc1 self) = 11%nat
             ∧ log run.2 = [AdjustTarget true 13 11])
    by (vm_compute; eexists; repeat split; reflexivity).
  destruct H as (self & H1 & H2 & H3 & H4 & H5 & H6).
  exists self. split; [done|]. split; [done|]. split; [done|].
  split; [rewrite H2; discriminate|]. split; [done|]. split; [done|].
  split; [reflexivity|]. split; [|done].
  unfold in_size_range, len. rewrite H5. vm_compute. intros [H _]. by apply H.
Qed.

(** C5, amended: the lists of every scenario that the constructor (and the
    batch loop of [generate_datasets]) produces have no duplicates; the number
    of input factors lies in [max(1, complexity-1), complexity+1], and so does
    the size of each side, unless the side comes from the branch of
    [generate_tsc_factor] that avoids the input factors (its mode is not
    ["arguable"], and the two modes are not both ["reordered"]) and holds all
    the catalog factors that are not input factors, fewer than the lower
    bound.  In particular the bound holds for what the arguable branch
    of [generate_tsc_factor] returns for input factors within the bound, and
    every single call on such input factors returns a side of this kind. *)
Theorem generated_sizes_in_range (fuel : nat) :
  (∀ m1 m2 c w self w',
     init fuel m1 m2 c w = (Ok self, w') →
     complexity self = c ∧ scenario_sizes self)
  ∧ (∀ mode c w self w',
       datasets_scenario (generate_tsc_factor fuel) fuel mode c w = (Ok self, w') →
       scenario_sizes self)
  ∧ (∀ c input is_tsc1 w selected w',
       generate_tsc_factor fuel c input "arguable" is_tsc1 w = (Ok selected, w') →
       (len input ≤ max_factors c)%Z →
       in_size_range c selected)
  ∧ (∀ c input mode is_tsc1 w selected w',
       generate_tsc_factor fuel c input mode is_tsc1 w = (Ok selected, w') →
       NoDup input → (len input ≤ max_factors c)%Z →
       NoDup selected
       ∧ (in_size_range c selected
          ∨ (mode ≠ "arguable" ∧ exhausted_side c input selected))).
Proof.
  split; [|split; [|split]].
  - intros m1 m2 c w self w' Hrun. split; [|by eapply init_sizes].
    by apply init_Ok in Hrun as (_ & _ & ? & _).
  - intros mode c w self w' Hrun. by eapply datasets_scenario_sizes.
  - intros c input is_tsc1 w selected w' Hrun Hlen.
    apply arguable_branch_Ok in Hrun as (Hlo & Hhi & _). unfold in_size_range. lia.
  - intros c input mode is_tsc1 w selected w'. apply tsc_factor_sizes.
Qed.

Lemma generated_sizes_in_range_witness :
  scenario_sizes drawn_scenario
  ∧ in_size_range 2 (input_factors drawn_scenario)
  ∧ in_size_range 2 (tsc1 drawn_scenario)
  ∧ in_size_range 2 (tsc2 drawn_scenario).
Proof.
  pose proof drawn_scenario_is_generated as Hgen.
  destruct (init 10 "non-arguable" "non-arguable" 2
              (world_of [1; 3; 5; 7; 9; 11; 2; 4; 6; 8])) as [r w'] eqn:Hrun.
  simpl in Hgen. subst r.
  split.
  - exact (proj2 (proj1 (generated_sizes_in_range 10) _ _ _ _ _ _ Hrun)).
  - unfold in_size_range. vm_compute. repeat split; discriminate.
Defined.

(** ** Modes and branches *)

Lemma double_check_other_mode
    (tsc_factor : Z → list string → string → bool → M (list string))
    (mode : string) (is_tsc1 : bool) (c : Z) (input tsc : list string) (w : world) :
  mode ≠ "unarguable" →
  double_check tsc_factor mode is_tsc1 c input tsc w = (Ok tsc, w).
Proof.
  intros Hm. unfold double_check.
  destruct (decide (mode = "unarguable")); [done|reflexivity].
Qed.

Lemma not_arguable_disjoint (fuel : nat) (c : Z) (input sel : list string)
    (mode : string) (is_tsc1 : bool) (w w' : world) :
  mode ≠ "arguable" →
  generate_tsc_factor fuel c input mode is_tsc1 w = (Ok sel, w') →
  ∀ f, f ∈ sel → f ∉ input.
Proof.
  intros Hmode Hrun.
  pose proof (generate_tsc_factor_Ok_complexity _ _ _ _ _ _ _ _ Hrun) as Hc.
  destruct (unarguable_branch_run fuel c input mode is_tsc1 w Hmode Hc)
    as (sel' & w1 & Hrun' & _ & Hsub & _).
  rewrite Hrun in Hrun'. injection Hrun' as <- <-.
  intros f Hf. by apply (available_disjoint _ _ Hsub).
Qed.

(** C9: [generate_tsc_factor] tests its mode against ["arguable"] only: with
    any other mode, ["reordered"] included, the call is the call with
    ["unarguable"] and what it returns shares no factor with the input.  In
    [generate_input_scenario] both sides are generated with ["arguable"] and
    exchanged exactly when both modes are ["reordered"]; when only one mode is
    ["reordered"], that side is the result of the call with mode
    ["reordered"], in its own place, and shares no factor with the input. *)
Theorem reordered_needs_both_modes (fuel : nat) :
  (∀ c input mode is_tsc1,
     mode ≠ "arguable" →
     generate_tsc_factor fuel c input mode is_tsc1
     = generate_tsc_factor fuel c input "unarguable" is_tsc1)
  ∧ (∀ c input mode is_tsc1 w selected w',
       mode ≠ "arguable" →
       generate_tsc_factor fuel c input mode is_tsc1 w = (Ok selected, w') →
       ∀ f, f ∈ selected → f ∉ input)
  ∧ (∀ m1 m2 c w input t1 t2 w',
       generate_input_scenario fuel m1 m2 c w = (Ok (input, t1, t2), w') →
       (m1 = "reordered" ∧ m2 = "reordered" →
        ∃ w1 w2,
          generate_input_factor fuel c w = (Ok input, w1)
          ∧ generate_tsc_factor fuel c input "arguable" true w1 = (Ok t2, w2)
          ∧ generate_tsc_factor fuel c input "arguable" false w2 = (Ok t1, w'))
       ∧ (m1 = "reordered" ∧ m2 ≠ "reordered" →
          (∀ f, f ∈ t1 → f ∉ input)
          ∧ ∃ w1 w2,
              generate_input_factor fuel c w = (Ok input, w1)
              ∧ generate_tsc_factor fuel c input "reordered" true w1 = (Ok t1, w2))
       ∧ (m1 ≠ "reordered" ∧ m2 = "reordered" →
          (∀ f, f ∈ t2 → f ∉ input)
          ∧ ∃ w1 w2 w3 a,
              generate_input_factor fuel c w = (Ok input, w1)
              ∧ generate_tsc_factor fuel c input m1 true w1 = (Ok a, w2)
              ∧ generate_tsc_factor fuel c input "reordered" false w2 = (Ok t2, w3))).
Proof.
  split; [|split].
  - intros c input mode is_tsc1 Hmode. unfold generate_tsc_factor.
    destruct (decide (mode = "arguable")) as [?|_]; [done|].
    destruct (decide ("unarguable" = "arguable")) as [?|_]; [done|]. reflexivity.
  - intros c input mode is_tsc1 w selected w' Hmode Hrun.
    by eapply not_arguable_disjoint.
  - intros m1 m2 c w input t1 t2 w' Hrun. unfold generate_input_scenario in Hrun.
    apply generate_input_scenario_with_Ok in Hrun
      as (w1 & w2 & w3 & w4 & a & b & Hin & Hsides & Hd1 & Hd2).
    split; [|split].
    + intros [-> ->].
      rewrite double_check_other_mode in Hd1 by discriminate.
      rewrite double_check_other_mode in Hd2 by discriminate.
      injection Hd1 as <- <-. injection Hd2 as <- <-.
      destruct (decide _) as [_|Hn]; [|by destruct Hn].
      destruct Hsides as [Ha Hb]. by exists w1, w2.
    + intros [-> Hm2].
      rewrite double_check_other_mode in Hd1 by discriminate.
      injection Hd1 as <- <-.
      destruct (decide _) as [[_ ?]|_]; [done|].
      destruct Hsides as [Ha Hb]. split; [|by exists w1, w2].
      eapply not_arguable_disjoint; [|exact Ha]. discriminate.
    + intros [Hm1 ->].
      rewrite double_check_other_mode in Hd2 by discriminate.
      injection Hd2 as <- <-.
      destruct (decide _) as [[? _]|_]; [done|].
      destruct Hsides as [Ha Hb]. split; [|by exists w1, w2, w3, a].
      eapply not_arguable_disjoint; [|exact Hb]. discriminate.
Qed.

Lemma reordered_needs_both_modes_witness :
  ("reordered" = "reordered" ∧ "arguable" ≠ "reordered")
  ∧ ∃ input t1 t2 w',
      generate_input_scenario 10 "reordered" "arguable" 2 (world_of mixed_draws)
      = (Ok (input, t1, t2), w')
      ∧ input = ["F4 Agreed-not-to-disclose (P)"; "F6 Security-measures (P)"]
      ∧ t1 = ["F13 Noncompetition-agreement (P)"; "F16 Info-reverse-engineerable (D)"]
      ∧ (∀ f, f ∈ t1 → f ∉ input).
Proof.
  assert (Hmodes : "reordered" = "reordered" ∧ "arguable" ≠ "reordered")
    by (split; [reflexivity|discriminate]).
  split; [exact Hmodes|].
  assert (Hgen : (generate_input_scenario 10 "reordered" "arguable" 2
                    (world_of mixed_draws)).1
                 = Ok (["F4 Agreed-not-to-disclose (P)"; "F6 Security-measures (P)"],
                       ["F13 Noncompetition-agreement (P)";
                        "F16 Info-reverse-engineerable (D)"],
                       ["F4 Agreed-not-to-disclose (P)"; "F2 Bribe-employee (P)";
                        "F3 Employee-sole-developer (D)"]))
    by (vm_compute; reflexivity).
  destruct (generate_input_scenario 10 "reordered" "arguable" 2 (world_of mixed_draws))
    as [r w'] eqn:Hrun.
  simpl in Hgen. subst r.
  eexists _, _, _, w'. split; [reflexivity|]. split; [reflexivity|]. split; [reflexivity|].
  destruct (reordered_needs_both_modes 10) as (_ & _ & Hscenario).
  destruct (Hscenario _ _ _ _ _ _ _ _ Hrun) as (_ & Hmixed & _).
  exact (proj1 (Hmixed Hmodes)).
Defined.

(** On the same draws a generator with both modes ["reordered"] returns the
    sides of the generator with both modes ["arguable"], exchanged. *)
Lemma reordered_is_arguable_swapped :
  let r := (init 10 "reordered" "reordered" 2 (world_of mixed_draws)).1 in
  let a := (init 10 "arguable" "arguable" 2 (world_of mixed_draws)).1 in
  ∃ gr ga, r = Ok gr ∧ a = Ok ga
           ∧ input_factors gr = input_factors ga
           ∧ tsc1 gr = tsc2 ga ∧ tsc2 gr = tsc1 ga.
Proof. vm_compute. eexists _, _. repeat split; reflexivity. Qed.

(** ** The overlap checks *)

Section Repair.
Variable tsc_factor : Z → list string → string → bool → M (list string).

Lemma emit_run (e : event) (w : world) : emit e w = (Ok tt, emitted e w).
Proof. reflexivity. Qed.




Lemma datasets_repair_loop_Ok (fuel remaining attempt : nat) (gen gen' : generator)
    (att : nat) (w w' : world) :
  datasets_repair_loop tsc_factor fuel remaining attempt gen w = (Ok (gen', att), w') →
  (attempt ≤ att ≤ attempt + remaining)%nat
  ∧ (has_overlap gen' → att = (attempt + remaining)%nat)
  ∧ (att = attempt → gen' = gen)
  ∧ (¬ has_overlap gen → (0 < remaining)%nat →
     gen' = gen ∧ att = attempt ∧ w' = emitted DatasetValid w)
  ∧ (att ≠ attempt →
     ∃ gen0 w0 w1, restart_with tsc_factor fuel gen0 w0 = (Ok gen', w1)
                   ∧ mode1 gen0 = mode1 gen ∧ mode2 gen0 = mode2 gen
                   ∧ complexity gen0 = complexity gen).
Proof.
  revert attempt gen w. induction remaining as [|remaining IH];
    intros attempt gen w; cbn [datasets_repair_loop].
  - rewrite ret_run. intros [= <- <- <-].
    split; [lia|]. split; [intros _; lia|]. split; [done|]. split; [lia|done].
  - fold (has_overlap gen). case_bool_decide as Hov.
    + intros Hrun. rewrite bind_run, emit_run in Hrun.
      apply bind_Ok in Hrun as (gen1 & w1 & Hre & Hrun).
      apply IH in Hrun as (Hatt & Hlast & Hsame & _ & Hrestarted).
      split; [lia|]. split; [intros Hg; rewrite (Hlast Hg); lia|].
      split; [lia|]. split; [done|]. intros _.
      assert (Hmodes : mode1 gen1 = mode1 gen ∧ mode2 gen1 = mode2 gen
                       ∧ complexity gen1 = complexity gen).
      { unfold restart_with in Hre.
        apply bind_Ok in Hre as ([[i t1] t2] & w2 & _ & Hre).
        rewrite ret_run in Hre. by injection Hre as <- _. }
      destruct (decide (att = (attempt + 1)%nat)) as [Heq|Hne].
      * rewrite (Hsame Heq). by eexists gen, _, w1.
      * destruct (Hrestarted Hne) as (gen0 & w0 & w2 & Hre0 & Hm).
        exists gen0, w0, w2. split; [done|]. destruct Hmodes as (<- & <- & <-).
        done.
    + intros Hrun. rewrite bind_run, emit_run, ret_run in Hrun.
      injection Hrun as <- <- <-.
      split; [lia|]. split; [done|]. split; [done|]. split; [done|done].
Qed.





End Repair.

Lemma disjoint_no_overlap (tsc input : list string) :
  (∀ f, f ∈ tsc → f ∉ input) →
  overlaps tsc input = false ∧ filter (λ f, f ∈ tsc) input = [].
Proof.
  intros Hd. split.
  - unfold overlaps. apply bool_decide_eq_false. rewrite Exists_exists.
    intros (x & Hx & Hin). by apply (Hd x).
  - induction input as [|x input IH]; [done|].
    rewrite filter_cons_False.
    + apply IH. intros f Hf Hin. apply (Hd f Hf). by right.
    + intros Hin. apply (Hd x Hin). by left.
Qed.


Lemma generate_input_scenario_unarguable_disjoint (fuel : nat) (m1 m2 : string) (c : Z)
    (input t1 t2 : list string) (w w' : world) :
  generate_input_scenario fuel m1 m2 c w = (Ok (input, t1, t2), w') →
  (m1 = "unarguable" → ∀ f, f ∈ t1 → f ∉ input)
  ∧ (m2 = "unarguable" → ∀ f, f ∈ t2 → f ∉ input).
Proof.
  intros Hrun. unfold generate_input_scenario in Hrun.
  apply generate_input_scenario_with_Ok in Hrun
    as (w1 & w2 & w3 & w4 & a & b & Hin & Hsides & Hd1 & Hd2).
  split; intros ->.
  - destruct (decide _) as [[? _]|_]; [done|]. destruct Hsides as [Ha Hb].
    apply double_check_Ok in Hd1 as [->|(_ & _ & w5 & Hr)];
      eapply not_arguable_disjoint; eauto; done.
  - destruct (decide _) as [[_ ?]|_]; [done|]. destruct Hsides as [Ha Hb].
    apply double_check_Ok in Hd2 as [->|(_ & _ & w5 & Hr)];
      eapply not_arguable_disjoint; eauto; done.
Qed.






(** ** Mode names on the two paths *)

Lemma init_with_modes
    (tsc_factor : Z → list string → string → bool → M (list string))
    (fuel : nat) (m1 m2 : string) (c : Z) (self : generator) (w w' : world) :
  init_with tsc_factor fuel m1 m2 c w = (Ok self, w') →
  mode1 self = init_mode m1 ∧ mode2 self = init_mode m2.
Proof.
  unfold init_with. intros Hrun.
  apply bind_Ok in Hrun as ([[input t1] t2] & w1 & _ & Hrun).
  rewrite ret_run in Hrun. by injection Hrun as <- _.
Qed.

Lemma restart_with_modes
    (tsc_factor : Z → list string → string → bool → M (list string))
    (fuel : nat) (self self' : generator) (w w' : world) :
  restart_with tsc_factor fuel self w = (Ok self', w') →
  mode1 self' = mode1 self ∧ mode2 self' = mode2 self.
Proof.
  unfold restart_with. intros Hrun.
  apply bind_Ok in Hrun as ([[input t1] t2] & w1 & _ & Hrun).
  rewrite ret_run in Hrun. by injection Hrun as <- _.
Qed.

(** The generator object of a scenario of the batch has the internal mode of
    the batch on both sides. *)
Lemma datasets_scenario_modes
    (tsc_factor : Z → list string → string → bool → M (list string))
    (fuel : nat) (internal_mode : string) (c : Z) (self : generator) (w w' : world) :
  datasets_scenario tsc_factor fuel internal_mode c w = (Ok self, w') →
  mode1 self = init_mode internal_mode ∧ mode2 self = init_mode internal_mode.
Proof.
  unfold datasets_scenario. intros Hrun.
  apply bind_Ok in Hrun as (gen & w1 & Hinit & Hrun).
  apply init_with_modes in Hinit.
  destruct (decide (internal_mode = "unarguable")).
  - cbv zeta in Hrun.
    apply bind_Ok in Hrun as ([gen' att] & w2 & Hloop & Hrun).
    apply bind_Ok in Hrun as ([] & w3 & _ & Hrun).
    rewrite ret_run in Hrun. injection Hrun as <- _.
    apply datasets_repair_loop_Ok in Hloop as (_ & _ & Hsame & _ & Hre).
    destruct (decide (att = 0%nat)) as [Heq|Hne].
    + by rewrite (Hsame Heq).
    + destruct (Hre Hne) as (gen0 & w0 & w4 & Hrestart & Hm1 & Hm2 & _).
      apply restart_with_modes in Hrestart as [-> ->]. by rewrite Hm1, Hm2.
  - rewrite ret_run in Hrun. by injection Hrun as <- _.
Qed.

(** C8: a mode name outside the recognized vocabulary becomes ["reordered"]
    in the object that the constructor builds, and ["unarguable"] in
    [generate_datasets], which runs its loop with that internal mode and
    builds every generator object of the batch with it on both sides; the
    recognized names get the same internal mode on both paths. *)
Theorem mode_default_is_asymmetric (fuel : nat) (mode : string)
    (Hmode : mode ∉ Spec.recognized_modes) :
  (∀ other c w self w',
     (init fuel mode other c w = (Ok self, w') → mode1 self = "reordered")
     ∧ (init fuel other mode c w = (Ok self, w') → mode2 self = "reordered"))
  ∧ (∀ n c,
       generate_datasets fuel mode n c
       = datasets_loop (generate_tsc_factor fuel) fuel "unarguable" c (Z.to_nat n))
  ∧ (∀ name internal,
       (name, internal) ∈ [("non-arguable", "unarguable"); ("unarguable", "unarguable");
                           ("reordered", "reordered"); ("arguable", "arguable")] →
       (∀ other c w self w',
          (init fuel name other c w = (Ok self, w') → mode1 self = internal)
          ∧ (init fuel other name c w = (Ok self, w') → mode2 self = internal))
       ∧ (∀ n c,
            generate_datasets fuel name n c
            = datasets_loop (generate_tsc_factor fuel) fuel internal c (Z.to_nat n))
       ∧ (∀ c w self w',
            datasets_scenario (generate_tsc_factor fuel) fuel internal c w
            = (Ok self, w') →
            mode1 self = internal ∧ mode2 self = internal)).
Proof.
  split; [|split].
  - intros other c w self w'. split; intros Hrun;
      apply init_Ok in Hrun as (H1 & H2 & _).
    + rewrite H1. by apply map_mode_unrecognized.
    + rewrite H2. by apply map_mode_unrecognized.
  - intros n c. unfold generate_datasets, generate_datasets_with, datasets_mode.
    by rewrite map_mode_unrecognized.
  - intros name internal Hin.
    assert (Hmap : init_mode name = internal ∧ datasets_mode name = internal
                   ∧ init_mode internal = internal).
    { rewrite !elem_of_cons in Hin.
      destruct Hin as [[= -> ->]|[[= -> ->]|[[= -> ->]|[[= -> ->]|Hnil]]]];
        [by vm_compute..|by apply elem_of_nil in Hnil]. }
    destruct Hmap as (Hinit & Hdata & Hinternal).
    split; [|split].
    + intros other c w self w'. split; intros Hrun;
        apply init_Ok in Hrun as (H1 & H2 & _); congruence.
    + intros n c. unfold generate_datasets, generate_datasets_with.
      by rewrite Hdata.
    + intros c w self w' Hrun. apply datasets_scenario_modes in Hrun.
      by rewrite Hinternal in Hrun.
Qed.

(** The name ["citable"], the default of [update_tsc], is not in the
    vocabulary: the constructor run on the draws [mixed_draws] returns an
    object with mode ["reordered"], and a batch runs with ["unarguable"]. *)
Lemma mode_default_is_asymmetric_witness :
  ("citable" ∉ Spec.recognized_modes)
  ∧ (∃ self w', init 10 "citable" "citable" 2 (world_of mixed_draws) = (Ok self, w')
                ∧ mode1 self = "reordered" ∧ mode2 self = "reordered")
  ∧ generate_datasets 10 "citable" 1 2
    = datasets_loop (generate_tsc_factor 10) 10 "unarguable" 2 1.
Proof.
  assert (H : "citable" ∉ Spec.recognized_modes)
    by (apply (bool_decide_unpack _); vm_compute; exact I).
  split; [exact H|].
  destruct (mode_default_is_asymmetric 10 "citable" H) as (Hinit & Hdata & _).
  split; [|exact (Hdata 1%Z 2%Z)].
  assert (Hok : ∃ self, (init 10 "citable" "citable" 2 (world_of mixed_draws)).1 = Ok self)
    by (vm_compute; by eexists).
  destruct Hok as [self Hok].
  destruct (init 10 "citable" "citable" 2 (world_of mixed_draws)) as [r w'] eqn:Hrun.
  simpl in Hok. subst r. exists self, w'. split; [reflexivity|].
  split.
  - exact (proj1 (Hinit "citable" 2%Z _ self w') Hrun).
  - exact (proj2 (Hinit "citable" 2%Z _ self w') Hrun).
Defined.

(** [generate_datasets] renders each scenario with [generate_initial_prompt]:
    a batch of one scenario is generated and checked, and then the call
    raises. *)
Lemma generate_datasets_raises :
  let run := generate_datasets 10 "non-arguable" 1 2
               (world_of [1; 3; 5; 7; 9; 11; 2; 4; 6; 8]) in
  run.1 = Raise AttributeError
  ∧ log run.2 = [InitNoOverlap true; InitNoOverlap false; DatasetValid].
Proof. vm_compute. split; reflexivity. Qed.

(** ** Rendering of generated scenarios *)

Lemma init_input_factors (fuel : nat) (m1 m2 : string) (c : Z) (self : generator)
    (w w' : world) :
  init fuel m1 m2 c w = (Ok self, w') →
  input_factors self ≠ [] ∧ input_factors self ⊆ factors.
Proof.
  intros Hrun. apply init_Ok in Hrun as (_ & _ & _ & Hgen).
  unfold generate_input_scenario in Hgen.
  apply generate_input_scenario_with_Ok in Hgen as (w1 & _ & _ & _ & _ & _ & Hin & _).
  apply generate_input_factor_Ok in Hin as (Hrange & _ & Hsub & _).
  split; [|done]. intros Hnil. rewrite Hnil in Hrange.
  unfold len, min_factors in Hrange. simpl in Hrange. lia.
Qed.

(** C1: [generate_initial_prompt] does not render, so there is no text for
    [extract_case_factors] to read back.  Its sort key raises on every string;
    the call raises as soon as one of the three factor lists is not empty, and
    on every scenario that the constructor builds it raises the
    [AttributeError] of [re.search(...).group()]. *)
Theorem generate_initial_prompt_raises :
  (∀ x, prompt_sort_key x = Raise AttributeError ∨ prompt_sort_key x = Raise ValueError)
  ∧ (∀ self,
       input_factors self ≠ [] ∨ tsc1 self ≠ [] ∨ tsc2 self ≠ [] →
       ∃ e, generate_initial_prompt self = Raise e)
  ∧ (∀ fuel m1 m2 c w self w',
       init fuel m1 m2 c w = (Ok self, w') →
       generate_initial_prompt self = Raise AttributeError).
Proof.
  split; [exact prompt_sort_key_raises|]. split.
  - exact generate_initial_prompt_nonempty_raises.
  - intros fuel m1 m2 c w self w' Hrun.
    apply init_input_factors in Hrun as [Hne Hsub].
    by apply generate_initial_prompt_catalog_raises.
Qed.

Lemma generate_initial_prompt_raises_witness :
  generate_initial_prompt drawn_scenario = Raise AttributeError.
Proof.
  pose proof drawn_scenario_is_generated as Hgen.
  destruct (init 10 "non-arguable" "non-arguable" 2
              (world_of [1; 3; 5; 7; 9; 11; 2; 4; 6; 8])) as [r w'] eqn:Hrun.
  simpl in Hgen. subst r.
  exact (proj2 (proj2 generate_initial_prompt_raises) _ _ _ _ _ _ _ Hrun).
Defined.

(** * Further properties of the generator *)

Lemma fill_loop_shape (fuel : nat) (target : Z) (sel res : list string) (w w' : world) :
  fill_loop fuel target sel w = (Ok res, w') →
  ∃ extra, res = sel ++ extra ∧ extra ⊆ factors.
Proof.
  revert sel w. induction fuel as [|fuel IH]; intros sel w; cbn [fill_loop].
  - destruct (Z.ltb_spec (len sel) target) as [Hlt|Hge]; [discriminate|].
    rewrite ret_run. intros [= <- <-]. exists [].
    split; [by rewrite app_nil_r|apply list_subseteq_nil].
  - destruct (Z.ltb_spec (len sel) target) as [Hlt|Hge].
    + intros Hrun. apply bind_Ok in Hrun as (f & w1 & Hf & Hrun).
      apply choice_Ok_inv in Hf as [Hin _].
      destruct (decide (f ∈ sel)) as [?|Hnin].
      * by apply IH in Hrun.
      * apply IH in Hrun as (extra & -> & Hsub).
        exists (f :: extra). rewrite <- app_assoc. split; [done|].
        intros x [->|Hx]%elem_of_cons; [done|by apply Hsub].
    + rewrite ret_run. intros [= <- <-]. exists [].
    split; [by rewrite app_nil_r|apply list_subseteq_nil].
Qed.

Lemma common_of_polarity_nonempty (polar common : list string) (w w' : world) :
  common_of_polarity polar w = (Ok common, w') → polar ≠ [] → common ≠ [].
Proof.
  unfold common_of_polarity. destruct polar as [|p polar]; [done|].
  intros Hrun _. apply bind_Ok in Hrun as (n & w1 & Hn & Hrun).
  apply randint_Ok in Hn as [Hn ->].
  apply bind_Ok in Hrun as (res & w2 & Hs & Hrun).
  apply sample_Ok_inv in Hs as (Hlen & _ & _ & _).
  apply bind_Ok in Hrun as (u & w3 & Hu & Hrun).
  rewrite ret_run in Hrun. injection Hrun as <- _.
  intros ->. simpl in Hlen. lia.
Qed.

(** What a call of the arguable branch returns: shared factors of the
    side's polarity, then further input factors, then catalog factors. *)
Lemma arguable_branch_shape (fuel : nat) (c : Z) (input sel : list string)
    (is_tsc1 : bool) (w w' : world) :
  generate_tsc_factor fuel c input "arguable" is_tsc1 w = (Ok sel, w') →
  let polar := filter (λ f, Is_true (PyStr.contains (if is_tsc1 then "(P)" else "(D)") f))
                 input in
  ∃ common more extra,
    sel = common ++ more ++ extra
    ∧ common ⊆+ polar
    ∧ (polar ≠ [] → common ≠ [])
    ∧ more ⊆+ filter (λ f, f ∉ common) input
    ∧ extra ⊆ factors.
Proof.
  intros Hrun polar. unfold generate_tsc_factor in Hrun.
  apply bind_Ok in Hrun as (target & w1 & Ht & Hrun).
  destruct (decide ("arguable" = "arguable")) as [_|?]; [|done].
  apply bind_Ok in Hrun as (common & w2 & Hc & Hrun).
  assert (Hcommon : common ⊆+ polar ∧ (polar ≠ [] → common ≠ [])).
  { subst polar. destruct is_tsc1.
    - split; [by apply common_of_polarity_Ok in Hc as [? _]|].
      by eapply common_of_polarity_nonempty.
    - split; [by apply common_of_polarity_Ok in Hc as [? _]|].
      by eapply common_of_polarity_nonempty. }
  destruct Hcommon as [Hcsub Hcne]. clear Hc.
  apply bind_Ok in Hrun as (seeds & w3 & Hs & Hrun).
  assert (Hseeds : ∃ more, seeds = common ++ more
                           ∧ more ⊆+ filter (λ f, f ∉ common) input).
  { destruct (filter (λ f, f ∉ common) input) as [|o other] eqn:Hother.
    - rewrite ret_run in Hs. injection Hs as <- <-.
      exists []. rewrite app_nil_r. done.
    - apply bind_Ok in Hs as (lucky & w4 & Hl & Hs).
      destruct lucky.
      + apply bind_Ok in Hs as (n & w5 & Hn & Hs).
        apply bind_Ok in Hs as (more & w6 & Hm & Hs).
        apply sample_Ok_inv in Hm as (_ & _ & Hsub & _).
        rewrite ret_run in Hs. injection Hs as <- <-. by exists more.
      + rewrite ret_run in Hs. injection Hs as <- <-.
        exists []. rewrite app_nil_r. split; [done|]. apply submseteq_nil_l. }
  destruct Hseeds as (more & -> & Hmore). clear Hs.
  apply fill_loop_shape in Hrun as (extra & -> & Hextra).
  exists common, more, extra. rewrite <- app_assoc. done.
Qed.

Lemma tsc_factor_in_catalog (fuel : nat) (c : Z) (input sel : list string)
    (mode : string) (is_tsc1 : bool) (w w' : world) :
  generate_tsc_factor fuel c input mode is_tsc1 w = (Ok sel, w') →
  input ⊆ factors → sel ⊆ factors.
Proof.
  intros Hrun Hin. destruct (decide (mode = "arguable")) as [->|Hmode].
  - apply arguable_branch_shape in Hrun
      as (common & more & extra & -> & Hc & _ & Hm & He).
    intros x [Hx|[Hx|Hx]%elem_of_app]%elem_of_app.
    + apply Hin. eapply elem_of_submseteq in Hx; [|exact Hc].
      by apply list_elem_of_filter in Hx as [_ ?].
    + apply Hin. eapply elem_of_submseteq in Hx; [|exact Hm].
      by apply list_elem_of_filter in Hx as [_ ?].
    + by apply He.
  - pose proof (generate_tsc_factor_Ok_complexity _ _ _ _ _ _ _ _ Hrun) as Hc.
    destruct (unarguable_branch_run fuel c input mode is_tsc1 w Hmode Hc)
      as (sel' & w1 & Hrun' & _ & Hsub & _).
    rewrite Hrun in Hrun'. injection Hrun' as <- <-.
    intros x Hx. by apply (available_disjoint _ _ Hsub).
Qed.

Lemma generate_input_scenario_in_catalog (fuel : nat) (m1 m2 : string) (c : Z)
    (input t1 t2 : list string) (w w' : world) :
  generate_input_scenario fuel m1 m2 c w = (Ok (input, t1, t2), w') →
  input ⊆ factors ∧ t1 ⊆ factors ∧ t2 ⊆ factors.
Proof.
  intros Hrun. unfold generate_input_scenario in Hrun.
  apply generate_input_scenario_with_Ok in Hrun
    as (w1 & w2 & w3 & w4 & a & b & Hin & Hsides & Hd1 & Hd2).
  apply generate_input_factor_Ok in Hin as (_ & _ & Hsub & _).
  split; [done|].
  assert (Hab : a ⊆ factors ∧ b ⊆ factors).
  { destruct (decide _); destruct Hsides as [Ha Hb];
      split; eapply tsc_factor_in_catalog; eauto. }
  destruct Hab as [Ha Hb].
  split.
  - apply double_check_Ok in Hd1 as [->|(_ & _ & w5 & Hr)]; [done|].
    by eapply tsc_factor_in_catalog.
  - apply double_check_Ok in Hd2 as [->|(_ & _ & w5 & Hr)]; [done|].
    by eapply tsc_factor_in_catalog.
Qed.

(** X1: every factor of a scenario that the constructor or [restart] builds
    is an entry of the catalog. *)
Theorem generated_factors_in_catalog (fuel : nat) :
  (∀ m1 m2 c w self w',
     init fuel m1 m2 c w = (Ok self, w') →
     input_factors self ⊆ factors ∧ tsc1 self ⊆ factors ∧ tsc2 self ⊆ factors)
  ∧ (∀ self w self' w',
       restart fuel self w = (Ok self', w') →
       input_factors self' ⊆ factors ∧ tsc1 self' ⊆ factors ∧ tsc2 self' ⊆ factors).
Proof.
  split.
  - intros m1 m2 c w self w' Hrun. apply init_Ok in Hrun as (_ & _ & _ & Hgen).
    by eapply generate_input_scenario_in_catalog.
  - intros self w self' w' Hrun. apply restart_Ok in Hrun as (_ & _ & _ & Hgen).
    by eapply generate_input_scenario_in_catalog.
Qed.

Lemma generated_factors_in_catalog_witness :
  input_factors drawn_scenario ⊆ factors
  ∧ tsc1 drawn_scenario ⊆ factors ∧ tsc2 drawn_scenario ⊆ factors.
Proof.
  pose proof drawn_scenario_is_generated as Hgen.
  destruct (init 10 "non-arguable" "non-arguable" 2
              (world_of [1; 3; 5; 7; 9; 11; 2; 4; 6; 8])) as [r w'] eqn:Hrun.
  simpl in Hgen. subst r.
  exact (proj1 (generated_factors_in_catalog 10) _ _ _ _ _ _ Hrun).
Defined.

Lemma arguable_call_shares (fuel : nat) (c : Z) (input sel : list string)
    (is_tsc1 : bool) (w w' : world) :
  generate_tsc_factor fuel c input "arguable" is_tsc1 w = (Ok sel, w') →
  let letter := if is_tsc1 then "(P)" else "(D)" in
  has_polarity input letter → shares_factor input sel letter.
Proof.
  intros Hrun letter (g & Hg & Hletter).
  apply arguable_branch_shape in Hrun
    as (common & more & extra & -> & Hc & Hne & _ & _).
  fold letter in Hc, Hne.
  assert (Hpolar : filter (λ f, Is_true (PyStr.contains letter f)) input ≠ []).
  { intros Hnil. assert (Hin : g ∈ filter (λ f, Is_true (PyStr.contains letter f)) input).
    { apply list_elem_of_filter. split; [by apply Is_true_true|done]. }
    rewrite Hnil in Hin. by apply elem_of_nil in Hin. }
  destruct common as [|f common]; [by destruct (Hne Hpolar)|].
  assert (Hf : f ∈ filter (λ f, Is_true (PyStr.contains letter f)) input).
  { eapply elem_of_submseteq; [|exact Hc]. by left. }
  apply list_elem_of_filter in Hf as [Hlet Hin].
  exists f. split; [by left|]. split; [done|]. by apply Is_true_true.
Qed.

(** X2: a side generated by the arguable branch shares a factor of its own
    polarity with the input whenever the input has one: a ["(P)"] factor for
    TSC1, a ["(D)"] factor for TSC2.  It follows for the scenarios of the
    constructor: with both modes ["arguable"] TSC1 shares a ["(P)"] factor and
    TSC2 a ["(D)"] factor; with both modes ["reordered"], after the exchange,
    TSC1 shares a ["(D)"] factor and TSC2 a ["(P)"] factor. *)
Theorem arguable_sides_share_polarity (fuel : nat) :
  (∀ c input is_tsc1 w sel w',
     generate_tsc_factor fuel c input "arguable" is_tsc1 w = (Ok sel, w') →
     has_polarity input (if is_tsc1 then "(P)" else "(D)") →
     shares_factor input sel (if is_tsc1 then "(P)" else "(D)"))
  ∧ (∀ c w self w',
       init fuel "arguable" "arguable" c w = (Ok self, w') →
       (has_polarity (input_factors self) "(P)" →
        shares_factor (input_factors self) (tsc1 self) "(P)")
       ∧ (has_polarity (input_factors self) "(D)" →
          shares_factor (input_factors self) (tsc2 self) "(D)"))
  ∧ (∀ c w self w',
       init fuel "reordered" "reordered" c w = (Ok self, w') →
       (has_polarity (input_factors self) "(D)" →
        shares_factor (input_factors self) (tsc1 self) "(D)")
       ∧ (has_polarity (input_factors self) "(P)" →
          shares_factor (input_factors self) (tsc2 self) "(P)")).
Proof.
  split; [|split].
  - intros c input is_tsc1 w sel w' Hrun. by apply (arguable_call_shares _ _ _ _ _ _ _ Hrun).
  - intros c w self w' Hrun. apply init_Ok in Hrun as (_ & _ & _ & Hgen).
    change (init_mode "arguable") with "arguable" in Hgen.
    unfold generate_input_scenario in Hgen.
    apply generate_input_scenario_with_Ok in Hgen
      as (w1 & w2 & w3 & w4 & a & b & _ & Hsides & Hd1 & Hd2).
    rewrite double_check_other_mode in Hd1 by discriminate.
    rewrite double_check_other_mode in Hd2 by discriminate.
    injection Hd1 as <- <-. injection Hd2 as <- <-.
    destruct (decide _) as [[? _]|_]; [done|]. destruct Hsides as [Ha Hb].
    split.
    + exact (arguable_call_shares _ _ _ _ _ _ _ Ha).
    + exact (arguable_call_shares _ _ _ _ _ _ _ Hb).
  - intros c w self w' Hrun. apply init_Ok in Hrun as (_ & _ & _ & Hgen).
    change (init_mode "reordered") with "reordered" in Hgen.
    unfold generate_input_scenario in Hgen.
    apply generate_input_scenario_with_Ok in Hgen
      as (w1 & w2 & w3 & w4 & a & b & _ & Hsides & Hd1 & Hd2).
    rewrite double_check_other_mode in Hd1 by discriminate.
    rewrite double_check_other_mode in Hd2 by discriminate.
    injection Hd1 as <- <-. injection Hd2 as <- <-.
    destruct (decide _) as [_|Hn]; [|by destruct Hn]. destruct Hsides as [Hb Ha].
    split.
    + exact (arguable_call_shares _ _ _ _ _ _ _ Ha).
    + exact (arguable_call_shares _ _ _ _ _ _ _ Hb).
Qed.

Lemma arguable_sides_share_polarity_witness :
  ∃ self w',
    init 10 "reordered" "reordered" 2 (world_of mixed_draws) = (Ok self, w')
    ∧ has_polarity (input_factors self) "(P)"
    ∧ shares_factor (input_factors self) (tsc2 self) "(P)".
Proof.
  assert (Hgen : (init 10 "reordered" "reordered" 2 (world_of mixed_draws)).1
                 = Ok (Generator "reordered" "reordered" 2
                         ["F4 Agreed-not-to-disclose (P)"; "F6 Security-measures (P)"]
                         ["F6 Security-measures (P)"; "F2 Bribe-employee (P)"]
                         ["F6 Security-measures (P)"; "F4 Agreed-not-to-disclose (P)"]))
    by (vm_compute; reflexivity).
  destruct (init 10 "reordered" "reordered" 2 (world_of mixed_draws)) as [r w'] eqn:Hrun.
  simpl in Hgen. subst r.
  eexists _, w'. split; [reflexivity|].
  assert (Hp : has_polarity ["F4 Agreed-not-to-disclose (P)"; "F6 Security-measures (P)"] "(P)").
  { exists "F4 Agreed-not-to-disclose (P)". split; [by left|vm_compute; reflexivity]. }
  split; [exact Hp|].
  destruct (arguable_sides_share_polarity 10) as (_ & _ & Hre).
  exact (proj2 (Hre _ _ _ _ Hrun) Hp).
Defined.

(** ** Complexity out of range *)

Lemma randint_empty (a b : Z) (w : world) :
  (b < a)%Z → Random.randint a b w = (Raise ValueError, w).
Proof.
  intros Hab. unfold Random.randint.
  destruct (Z.ltb_spec b a) as [_|?]; [reflexivity|lia].
Qed.

Lemma size_range_empty (c : Z) : (c < 0)%Z → (max_factors c < min_factors c)%Z.
Proof. unfold max_factors, min_factors. lia. Qed.

(** X3: with a negative complexity the size range is empty and
    [random.randint] raises: [generate_input_factor], [generate_tsc_factor]
    in every mode, the constructor and a batch of at least one scenario raise
    [ValueError] before anything is drawn. *)
Theorem negative_complexity_raises (fuel : nat) (c : Z) (w : world) :
  (c < 0)%Z →
  generate_input_factor fuel c w = (Raise ValueError, w)
  ∧ (∀ input mode is_tsc1,
       generate_tsc_factor fuel c input mode is_tsc1 w = (Raise ValueError, w))
  ∧ (∀ m1 m2, init fuel m1 m2 c w = (Raise ValueError, w))
  ∧ (∀ mode case_number,
       (1 ≤ case_number)%Z →
       generate_datasets fuel mode case_number c w = (Raise ValueError, w)).
Proof.
  intros Hc. pose proof (size_range_empty c Hc) as Hempty.
  assert (Hin : generate_input_factor fuel c w = (Raise ValueError, w)).
  { unfold generate_input_factor. by rewrite bind_run, randint_empty. }
  assert (Hinit : ∀ m1 m2, init fuel m1 m2 c w = (Raise ValueError, w)).
  { intros m1 m2. unfold init, init_with, generate_input_scenario_with.
    by rewrite bind_run, bind_run, Hin. }
  split; [exact Hin|]. split; [|split; [exact Hinit|]].
  - intros input mode is_tsc1. unfold generate_tsc_factor.
    by rewrite bind_run, randint_empty.
  - intros mode case_number Hn. unfold generate_datasets, generate_datasets_with.
    destruct (Z.to_nat case_number) as [|n] eqn:Hk; [lia|].
    cbn [datasets_loop]. unfold datasets_scenario.
    rewrite bind_run, bind_run. fold (init fuel). by rewrite Hinit.
Qed.

Lemma negative_complexity_raises_witness :
  (init 5 "arguable" "arguable" (-1) (world_of [3; 1; 4])).1 = Raise ValueError
  ∧ rng_pos (init 5 "arguable" "arguable" (-1) (world_of [3; 1; 4])).2 = 0%nat.
Proof.
  assert (Hc : (-1 < 0)%Z) by lia.
  destruct (negative_complexity_raises 5 (-1) (world_of [3; 1; 4]) Hc) as (_ & _ & Hinit & _).
  rewrite Hinit. split; reflexivity.
Defined.

Lemma input_factor_loop_no_raise (fuel : nat) (target : Z) (sel : list string)
    (used : gset nat) (w : world) :
  ∀ e w', input_factor_loop fuel target sel used w ≠ (Raise e, w').
Proof.
  revert sel used w. induction fuel as [|fuel IH]; intros sel used w e w';
    cbn [input_factor_loop].
  - destruct (_ <? _)%Z; [discriminate|by rewrite ret_run].
  - destruct (_ <? _)%Z; [|by rewrite ret_run].
    rewrite bind_run, randint_run by (vm_compute; discriminate).
    set (index := (0 + _ mod _)%Z).
    assert (Hidx : (0 ≤ index < 26)%Z).
    { subst index. change (len factors - 1 - 0 + 1)%Z with 26%Z.
      pose proof (Z.mod_pos_bound (Z.of_nat (rng_src w (rng_pos w))) 26). lia. }
    destruct (decide (Z.to_nat index ∈ used)); [apply IH|].
    destruct (lookup_lt_is_Some_2 factors (Z.to_nat index)) as [f ->].
    { change (length factors) with 26%nat. lia. }
    apply IH.
Qed.

Lemma catalog_list_length (l : list string) :
  NoDup l → l ⊆ factors → (length l ≤ 26)%nat.
Proof.
  intros Hnd Hsub. change 26%nat with (length factors).
  apply submseteq_length, NoDup_submseteq; done.
Qed.

(** X4: the catalog has 26 entries, so the drawing loop of
    [generate_input_factor] cannot end when it has to collect more: with a
    complexity of 28 or more no fuel is enough, for any random source, and the
    constructor does not return either. *)
Theorem large_complexity_never_returns (fuel : nat) (c : Z) (w : world) :
  (28 ≤ c)%Z →
  (generate_input_factor fuel c w).1 = OutOfFuel
  ∧ ∀ m1 m2, (init fuel m1 m2 c w).1 = OutOfFuel.
Proof.
  intros Hc.
  assert (Hin : (generate_input_factor fuel c w).1 = OutOfFuel).
  { destruct (generate_input_factor fuel c w) as [[res|e|] w'] eqn:Hrun; [| |done].
    - apply generate_input_factor_Ok in Hrun as (Hrange & Hnd & Hsub & _).
      pose proof (catalog_list_length res Hnd Hsub).
      unfold min_factors, len in Hrange. lia.
    - unfold generate_input_factor in Hrun. rewrite bind_run, randint_run in Hrun
        by (unfold min_factors, max_factors; lia).
      by apply input_factor_loop_no_raise in Hrun. }
  split; [exact Hin|]. intros m1 m2.
  unfold init, init_with, generate_input_scenario_with. rewrite bind_run, bind_run.
  destruct (generate_input_factor fuel c w) as [[res|e|] w']; done.
Qed.

Lemma large_complexity_never_returns_witness :
  (generate_input_factor 1000 28 (world_of [])).1 = OutOfFuel.
Proof.
  assert (Hc : (28 ≤ 28)%Z) by lia.
  exact (proj1 (large_complexity_never_returns 1000 28 (world_of []) Hc)).
Defined.

(** ** The batch *)

Lemma scenario_sizes_input_nonempty (self : generator) :
  scenario_sizes self → input_factors self ≠ [].
Proof.
  intros (Hrange & _) Hnil. rewrite Hnil in Hrange.
  unfold in_size_range, len, min_factors in Hrange. simpl in Hrange. lia.
Qed.

(** X5: [generate_datasets] returns the empty list, without drawing, for a
    case number of 0 or less, and never returns for a case number of 1 or
    more: the first scenario is generated and then
    [generate_initial_prompt] raises (or the generation itself does not
    return). *)
Theorem generate_datasets_returns_nothing (fuel : nat) (mode : string) (c : Z) (w : world) :
  (∀ case_number, (case_number ≤ 0)%Z →
     generate_datasets fuel mode case_number c w = (Ok [], w))
  ∧ (∀ case_number prompts w', (1 ≤ case_number)%Z →
       generate_datasets fuel mode case_number c w ≠ (Ok prompts, w')).
Proof.
  split.
  - intros n Hn. unfold generate_datasets, generate_datasets_with.
    replace (Z.to_nat n) with 0%nat by lia. reflexivity.
  - intros n prompts w' Hn Hrun. unfold generate_datasets, generate_datasets_with in Hrun.
    destruct (Z.to_nat n) as [|k] eqn:Hk; [lia|].
    cbn [datasets_loop] in Hrun.
    apply bind_Ok in Hrun as (gen & w1 & Hgen & Hrun).
    apply bind_Ok in Hrun as (prompt & w2 & Hprompt & _).
    apply datasets_scenario_sizes, scenario_sizes_input_nonempty in Hgen.
    destruct (generate_initial_prompt_nonempty_raises gen (or_introl Hgen)) as [e He].
    unfold lift in Hprompt. rewrite He in Hprompt. discriminate.
Qed.

Lemma generate_datasets_returns_nothing_witness :
  generate_datasets 10 "reordered" 0 5 (world_of []) = (Ok [], world_of [])
  ∧ ∀ prompts w',
      generate_datasets 10 "reordered" 3 5 (world_of []) ≠ (Ok prompts, w').
Proof.
  destruct (generate_datasets_returns_nothing 10 "reordered" 5 (world_of []))
    as [Hzero Hmore].
  split; [apply Hzero; lia|]. intros prompts w'. apply Hmore. lia.
Defined.

(** ** [find_common_factors] *)

Lemma filter_nil_iff_disjoint (side input : list string) :
  filter (λ f, f ∈ side) input = [] ↔ ∀ f, f ∈ side → f ∉ input.
Proof.
  split.
  - intros Hnil f Hf Hin.
    assert (Hx : f ∈ filter (λ f, f ∈ side) input) by (by apply list_elem_of_filter).
    rewrite Hnil in Hx. by apply elem_of_nil in Hx.
  - intros Hd. by apply disjoint_no_overlap.
Qed.

Lemma init_arguable_shares (fuel : nat) (c : Z) (w w' : world) (self : generator) :
  init fuel "arguable" "arguable" c w = (Ok self, w') →
  has_polarity (input_factors self) "(P)" →
  shares_factor (input_factors self) (tsc1 self) "(P)".
Proof.
  intros Hrun. apply init_Ok in Hrun as (_ & _ & _ & Hgen).
  change (init_mode "arguable") with "arguable" in Hgen.
  unfold generate_input_scenario in Hgen.
  apply generate_input_scenario_with_Ok in Hgen
    as (w1 & w2 & w3 & w4 & a & b & _ & Hsides & Hd1 & _).
  rewrite double_check_other_mode in Hd1 by discriminate.
  injection Hd1 as <- <-.
  destruct (decide _) as [[? _]|_]; [done|]. destruct Hsides as [Ha _].
  exact (arguable_call_shares _ _ _ _ _ _ _ Ha).
Qed.

(** X6: for the names ["tsc1"] and ["tsc2"], [find_common_factors] returns
    the input factors that the named side holds, in input order.  For any
    other name it raises a [NameError] when the object has an input factor,
    and returns the empty list when it has none; an object built by the
    constructor has an input factor, so that there every other name raises.
    For a scenario of the constructor the list is empty for a side of
    internal mode ["unarguable"], and not empty for TSC1 of a generator with
    both modes ["arguable"] whose input has a ["(P)"] factor. *)
Theorem find_common_factors_of_scenarios (fuel : nat) :
  (∀ self name,
     name = "tsc1" ∨ name = "tsc2" →
     ∃ common,
       find_common_factors self name = inr common
       ∧ common `sublist_of` input_factors self
       ∧ ∀ f, f ∈ common ↔
              f ∈ input_factors self
              ∧ f ∈ (if decide (name = "tsc1") then tsc1 self else tsc2 self))
  ∧ (∀ self name, name ≠ "tsc1" → name ≠ "tsc2" →
       (input_factors self ≠ [] → find_common_factors self name = inl NameError)
       ∧ (input_factors self = [] → find_common_factors self name = inr []))
  ∧ (∀ m1 m2 c w self w' name,
       init fuel m1 m2 c w = (Ok self, w') →
       name ≠ "tsc1" → name ≠ "tsc2" →
       find_common_factors self name = inl NameError)
  ∧ (∀ m1 m2 c w self w',
       init fuel m1 m2 c w = (Ok self, w') →
       (init_mode m1 = "unarguable" → find_common_factors self "tsc1" = inr [])
       ∧ (init_mode m2 = "unarguable" → find_common_factors self "tsc2" = inr []))
  ∧ (∀ c w self w',
       init fuel "arguable" "arguable" c w = (Ok self, w') →
       has_polarity (input_factors self) "(P)" →
       ∃ f common, find_common_factors self "tsc1" = inr (f :: common)).
Proof.
  assert (Hother : ∀ self name, name ≠ "tsc1" → name ≠ "tsc2" →
            (input_factors self ≠ [] → find_common_factors self name = inl NameError)
            ∧ (input_factors self = [] → find_common_factors self name = inr [])).
  { intros self name H1 H2. unfold find_common_factors.
    destruct (decide (name = "tsc1")); [done|].
    destruct (decide (name = "tsc2")); [done|].
    destruct (input_factors self); split; done. }
  split; [|split; [exact Hother|split; [|split]]].
  - intros self name Hname. unfold find_common_factors.
    destruct (decide (name = "tsc1")) as [->|H1].
    + eexists. split; [reflexivity|]. split; [apply sublist_filter|].
      intros f. rewrite list_elem_of_filter. tauto.
    + destruct Hname as [->| ->]; [done|].
      destruct (decide ("tsc2" = "tsc2")) as [_|?]; [|done].
      eexists. split; [reflexivity|]. split; [apply sublist_filter|].
      intros f. rewrite list_elem_of_filter. tauto.
  - intros m1 m2 c w self w' name Hrun H1 H2.
    apply (Hother self name H1 H2).
    exact (proj1 (init_input_factors _ _ _ _ _ _ _ Hrun)).
  - intros m1 m2 c w self w' Hrun. apply init_Ok in Hrun as (_ & _ & _ & Hgen).
    apply generate_input_scenario_unarguable_disjoint in Hgen as [Hd1 Hd2].
    split; intros Hm; unfold find_common_factors; simpl.
    + f_equal. apply filter_nil_iff_disjoint. by apply Hd1.
    + f_equal. apply filter_nil_iff_disjoint. by apply Hd2.
  - intros c w self w' Hrun Hp.
    destruct (init_arguable_shares fuel c w w' self Hrun Hp) as (f & Hf1 & Hfin & _).
    unfold find_common_factors. simpl.
    destruct (filter (λ factor, factor ∈ tsc1 self) (input_factors self))
      as [|g common] eqn:Hfilter.
    + assert (Hx : f ∈ filter (λ factor, factor ∈ tsc1 self) (input_factors self))
        by (by apply list_elem_of_filter).
      rewrite Hfilter in Hx. by apply elem_of_nil in Hx.
    + by exists g, common.
Qed.

Lemma find_common_factors_of_scenarios_witness :
  find_common_factors drawn_scenario "tsc1" = inr []
  ∧ find_common_factors drawn_scenario "tsc2" = inr []
  ∧ find_common_factors drawn_scenario "TSC1" = inl NameError.
Proof.
  pose proof drawn_scenario_is_generated as Hgen.
  destruct (init 10 "non-arguable" "non-arguable" 2
              (world_of [1; 3; 5; 7; 9; 11; 2; 4; 6; 8])) as [r w'] eqn:Hrun.
  simpl in Hgen. subst r.
  destruct (find_common_factors_of_scenarios 10) as (_ & _ & Hname & Hunarg & _).
  destruct (Hunarg _ _ _ _ _ _ Hrun) as [H1 H2].
  split; [apply H1; vm_compute; reflexivity|].
  split; [apply H2; vm_compute; reflexivity|].
  apply (Hname _ _ _ _ _ _ "TSC1" Hrun); discriminate.
Defined.

(** ** Sorting and [update_tsc] *)

Section SortedFacts.
Context {K A : Type} (leb : K → K → bool) (key : A → outcome K).
Hypothesis leb_total : ∀ a b, leb a b = false → leb b a = true.

Let keyed_le (p q : K * A) : Prop := leb p.1 q.1 = true.

Lemma insert_keyed_Permutation (x : K * A) (l : list (K * A)) :
  insert_keyed leb x l ≡ₚ x :: l.
Proof.
  induction l as [|y l IH]; simpl; [done|].
  destruct (leb x.1 y.1); [done|]. rewrite IH. apply Permutation_swap.
Qed.

Lemma sort_keyed_Permutation (l : list (K * A)) : sort_keyed leb l ≡ₚ l.
Proof.
  induction l as [|x l IH]; simpl; [done|].
  by rewrite insert_keyed_Permutation, IH.
Qed.

Lemma insert_keyed_HdRel (x y : K * A) (l : list (K * A)) :
  keyed_le y x → HdRel keyed_le y l → HdRel keyed_le y (insert_keyed leb x l).
Proof.
  intros Hyx Hl. destruct l as [|z l]; simpl; [by constructor|].
  destruct (leb x.1 z.1); constructor; [done|]. by inversion Hl.
Qed.

Lemma insert_keyed_Sorted (x : K * A) (l : list (K * A)) :
  Sorted keyed_le l → Sorted keyed_le (insert_keyed leb x l).
Proof.
  induction 1 as [|y l Hs IH Hhd]; simpl; [by repeat constructor|].
  destruct (leb x.1 y.1) eqn:Hxy.
  - constructor; [by constructor|]. by constructor.
  - constructor; [exact IH|]. apply insert_keyed_HdRel; [|done].
    by apply leb_total.
Qed.

Lemma sort_keyed_Sorted (l : list (K * A)) : Sorted keyed_le (sort_keyed leb l).
Proof.
  induction l as [|x l IH]; simpl; [constructor|]. by apply insert_keyed_Sorted.
Qed.

(** When the key function raises on no item, every item is paired with its
    key. *)
Lemma decorate_Ok (l : list A) (keyed : list (K * A)) :
  decorate key l = Ok keyed →
  keyed.*2 = l ∧ Forall (λ p, key p.2 = Ok p.1) keyed.
Proof.
  revert keyed. induction l as [|x l IH]; intros keyed; cbn [decorate].
  - intros [= <-]. done.
  - unfold mbind, outcome_bind.
    destruct (key x) as [k| |] eqn:Hk; try discriminate.
    destruct (decorate key l) as [rest| |]; try discriminate.
    intros [= <-]. destruct (IH rest eq_refl) as [Hl Hf].
    split; [simpl; by f_equal|by constructor].
Qed.

Lemma Sorted_keyed_snd (l : list (K * A)) :
  Forall (λ p, key p.2 = Ok p.1) l →
  Sorted keyed_le l →
  Sorted (λ a b, ∃ ka kb, key a = Ok ka ∧ key b = Ok kb ∧ leb ka kb = true) l.*2.
Proof.
  intros Hkeys Hs. induction Hs as [|p l Hs IH Hhd]; simpl; [constructor|].
  apply Forall_cons in Hkeys as [Hp Hl]. constructor; [by apply IH|].
  destruct Hhd as [|q l' Hpq]; simpl; [constructor|]. constructor.
  apply Forall_cons in Hl as [Hq _]. by exists p.1, q.1.
Qed.

(** [sorted], when it returns: a rearrangement of the list, ascending in the
    key. *)
Lemma sorted_Ok (l l' : list A) :
  sorted leb key l = Ok l' →
  l' ≡ₚ l
  ∧ Sorted (λ a b, ∃ ka kb, key a = Ok ka ∧ key b = Ok kb ∧ leb ka kb = true) l'.
Proof.
  unfold sorted, mbind, outcome_bind.
  destruct (decorate key l) as [keyed| |] eqn:Hdec; try discriminate.
  intros [= <-]. apply decorate_Ok in Hdec as [Hl Hkeys].
  pose proof (sort_keyed_Permutation keyed) as Hperm.
  split.
  - by rewrite Hperm, Hl.
  - apply Sorted_keyed_snd; [|apply sort_keyed_Sorted]. by rewrite Hperm.
Qed.
End SortedFacts.

Lemma factor_number_leb_total (a b : factor_number) :
  factor_number_leb a b = false → factor_number_leb b a = true.
Proof. destruct a, b; simpl; try done. intros H%Z.leb_gt. apply Z.leb_le. lia. Qed.

Lemma sorted_by_number (l l' : list string) :
  sorted factor_number_leb extract_factor_number l = Ok l' →
  l' ≡ₚ l ∧ ascending_by_number l'.
Proof. apply sorted_Ok, factor_number_leb_total. Qed.

Lemma lift_sorted_by_number (l l' : list string) (w w' : world) :
  lift (sorted factor_number_leb extract_factor_number l) w = (Ok l', w') →
  w' = w ∧ l' ≡ₚ l ∧ ascending_by_number l'.
Proof.
  unfold lift. intros [= Hs <-]. split; [done|]. by apply sorted_by_number.
Qed.

(** The three sorts and the template that end [update_tsc]. *)
Lemma update_tsc_render (reordered : bool) (self self' : generator) (prompt : string)
    (w w' : world) :
  (input_scenario_items ←
     lift (sorted factor_number_leb extract_factor_number (input_factors self));
   tsc1_factors_items ←
     lift (sorted factor_number_leb extract_factor_number (tsc1 self));
   tsc2_factors_items ←
     lift (sorted factor_number_leb extract_factor_number (tsc2 self));
   mret (self, render reordered input_scenario_items tsc1_factors_items
                 tsc2_factors_items)) w
  = (Ok (self', prompt), w') →
  self' = self ∧ w' = w
  ∧ ∃ i t1 t2,
      prompt = render reordered i t1 t2
      ∧ (i ≡ₚ input_factors self ∧ ascending_by_number i)
      ∧ (t1 ≡ₚ tsc1 self ∧ ascending_by_number t1)
      ∧ (t2 ≡ₚ tsc2 self ∧ ascending_by_number t2).
Proof.
  intros Hrun.
  apply bind_Ok in Hrun as (i & w1 & Hi & Hrun).
  apply bind_Ok in Hrun as (t1 & w2 & H1 & Hrun).
  apply bind_Ok in Hrun as (t2 & w3 & H2 & Hrun).
  apply lift_sorted_by_number in Hi as (-> & Hi).
  apply lift_sorted_by_number in H1 as (-> & H1).
  apply lift_sorted_by_number in H2 as (-> & H2).
  rewrite ret_run in Hrun. injection Hrun as <- <- <-.
  split; [done|]. split; [done|]. by exists i, t1, t2.
Qed.

(** X7: [update_tsc], for any side generator.  With an internal mode other
    than ["reordered"], a name other than ["tsc1"] and ["tsc2"] raises
    [ValueError] before anything is generated; with the internal mode
    ["reordered"] (the default mode ["citable"] is one such) the name is not
    looked at.  When the call returns, the modes, the complexity and the
    input factors of the object are unchanged, and so is the side that was
    not named; the prompt is the template filled with the three lists of the
    updated object, each rearranged in ascending factor number. *)
Theorem update_tsc_keeps_the_rest
    (tsc_factor : Z → list string → string → bool → M (list string))
    (self : generator) (tsc_name mode : string) (w : world) :
  (init_mode mode ≠ "reordered" → tsc_name ≠ "tsc1" → tsc_name ≠ "tsc2" →
   update_tsc_with tsc_factor self tsc_name mode w = (Raise ValueError, w))
  ∧ (init_mode mode = "reordered" →
     ∀ other, update_tsc_with tsc_factor self tsc_name mode w
              = update_tsc_with tsc_factor self other mode w)
  ∧ init_mode "citable" = "reordered"
  ∧ (∀ self' prompt w',
       update_tsc_with tsc_factor self tsc_name mode w = (Ok (self', prompt), w') →
       mode1 self' = mode1 self ∧ mode2 self' = mode2 self
       ∧ complexity self' = complexity self
       ∧ input_factors self' = input_factors self
       ∧ (init_mode mode ≠ "reordered" → tsc_name = "tsc1" → tsc2 self' = tsc2 self)
       ∧ (init_mode mode ≠ "reordered" → tsc_name = "tsc2" → tsc1 self' = tsc1 self)
       ∧ ∃ i t1 t2,
           prompt = render (bool_decide (init_mode mode = "reordered")) i t1 t2
           ∧ (i ≡ₚ input_factors self' ∧ ascending_by_number i)
           ∧ (t1 ≡ₚ tsc1 self' ∧ ascending_by_number t1)
           ∧ (t2 ≡ₚ tsc2 self' ∧ ascending_by_number t2)).
Proof.
  split; [|split; [|split; [vm_compute; reflexivity|]]].
  - intros Hm H1 H2. unfold update_tsc_with. rewrite bind_run.
    destruct (decide (init_mode mode = "reordered")); [done|].
    destruct (decide (tsc_name = "tsc1")); [done|].
    destruct (decide (tsc_name = "tsc2")); done.
  - intros Hm other. unfold update_tsc_with.
    destruct (decide (init_mode mode = "reordered")); [reflexivity|done].
  - intros self' prompt w' Hrun. unfold update_tsc_with in Hrun.
    apply bind_Ok in Hrun as (self1 & w1 & Hupd & Hrun).
    apply update_tsc_render in Hrun as (-> & -> & i & t1 & t2 & -> & Hi & H1 & H2).
    assert (Hframe : mode1 self1 = mode1 self ∧ mode2 self1 = mode2 self
                     ∧ complexity self1 = complexity self
                     ∧ input_factors self1 = input_factors self
                     ∧ (init_mode mode ≠ "reordered" → tsc_name = "tsc1" →
                        tsc2 self1 = tsc2 self)
                     ∧ (init_mode mode ≠ "reordered" → tsc_name = "tsc2" →
                        tsc1 self1 = tsc1 self)).
    { destruct (decide (init_mode mode = "reordered")).
      - apply bind_Ok in Hupd as (a & w2 & _ & Hupd).
        apply bind_Ok in Hupd as (b & w3 & _ & Hupd).
        rewrite ret_run in Hupd. injection Hupd as <- _. by repeat split.
      - destruct (decide (tsc_name = "tsc1")) as [->|].
        + apply bind_Ok in Hupd as (t & w2 & _ & Hupd).
          rewrite ret_run in Hupd. injection Hupd as <- _. by repeat split.
        + destruct (decide (tsc_name = "tsc2")) as [->|]; [|discriminate].
          apply bind_Ok in Hupd as (t & w2 & _ & Hupd).
          rewrite ret_run in Hupd. injection Hupd as <- _. by repeat split. }
    destruct Hframe as (? & ? & ? & ? & ? & ?).
    repeat (split; [done|]). by exists i, t1, t2.
Qed.

Lemma update_tsc_keeps_the_rest_witness :
  let w := world_of [0; 5; 6] in
  (update_tsc 10 drawn_scenario "input" "arguable" w).1 = Raise ValueError
  ∧ ∃ self' prompt w',
      update_tsc 10 drawn_scenario "tsc1" "non-arguable" w = (Ok (self', prompt), w')
      ∧ input_factors self' = input_factors drawn_scenario
      ∧ tsc2 self' = tsc2 drawn_scenario.
Proof.
  intros w.
  destruct (update_tsc_keeps_the_rest (generate_tsc_factor 10) drawn_scenario
              "input" "arguable" w) as (Herr & _).
  split.
  - unfold update_tsc. rewrite Herr by (vm_compute; discriminate). reflexivity.
  - assert (Hok : ∃ r, (update_tsc 10 drawn_scenario "tsc1" "non-arguable" w).1 = Ok r)
      by (vm_compute; by eexists).
    destruct Hok as [[self' prompt] Hok].
    destruct (update_tsc 10 drawn_scenario "tsc1" "non-arguable" w) as [r w'] eqn:Hrun.
    simpl in Hok. subst r. exists self', prompt, w'. split; [reflexivity|].
    destruct (update_tsc_keeps_the_rest (generate_tsc_factor 10) drawn_scenario
                "tsc1" "non-arguable" w) as (_ & _ & _ & Hframe).
    destruct (Hframe _ _ _ Hrun) as (_ & _ & _ & Hin & Hside & _).
    split; [exact Hin|]. apply Hside; [vm_compute; discriminate|reflexivity].
Defined.

(** ** Factor numbers *)

Lemma digit_char_code (d : nat) :
  (d < 10)%nat → PyStr.ascii_code (ascii_of_nat (48 + d)) = (48 + d)%nat.
Proof. intros Hd. unfold PyStr.ascii_code. apply nat_ascii_embedding. lia. Qed.

Lemma digit_char_is_digit (d : nat) :
  (d < 10)%nat → PyStr.is_digit (ascii_of_nat (48 + d)) = true.
Proof.
  intros Hd. unfold PyStr.is_digit. rewrite digit_char_code by done.
  apply andb_true_intro. split; apply Nat.leb_le; lia.
Qed.

Lemma digit_char_val (d : nat) :
  (d < 10)%nat → PyStr.digit_val (ascii_of_nat (48 + d)) = Z.of_nat d.
Proof.
  intros Hd. unfold PyStr.digit_val. rewrite digit_char_code by done. f_equal. lia.
Qed.

Lemma digits_val_app (a : Z) (s t : string) :
  PyStr.digits_val a (s +:+ t) = PyStr.digits_val (PyStr.digits_val a s) t.
Proof.
  revert a. induction s as [|c s IH]; intros a; [done|].
  rewrite string_app_cons. cbn [PyStr.digits_val]. apply IH.
Qed.

Lemma all_digits_app (s t : string) :
  PyStr.all_chars PyStr.is_digit (s +:+ t)
  = PyStr.all_chars PyStr.is_digit s && PyStr.all_chars PyStr.is_digit t.
Proof.
  induction s as [|c s IH]; [done|].
  rewrite string_app_cons. cbn [PyStr.all_chars]. rewrite IH. by rewrite andb_assoc.
Qed.

Lemma string_length_snoc (s : string) (c : ascii) :
  String.length (s +:+ String c EmptyString) = S (String.length s).
Proof.
  induction s as [|x s IH]; [done|].
  rewrite string_app_cons. cbn [String.length]. by rewrite IH.
Qed.

(** The decimal digits of [n], before an accumulator. *)
Lemma dec_digits_spec (fuel n : nat) (acc : string) :
  (n < fuel)%nat →
  ∃ ds, PyStr.dec_digits fuel n acc = ds +:+ acc
        ∧ ds ≠ EmptyString
        ∧ PyStr.all_chars PyStr.is_digit ds = true
        ∧ ∀ a, PyStr.digits_val a ds
               = (a * 10 ^ Z.of_nat (String.length ds) + Z.of_nat n)%Z.
Proof.
  revert n acc. induction fuel as [|fuel IH]; intros n acc Hn; [lia|].
  cbn [PyStr.dec_digits].
  assert (Hd : (n mod 10 < 10)%nat) by (apply Nat.mod_upper_bound; lia).
  pose proof (digit_char_is_digit _ Hd) as Hisd.
  pose proof (digit_char_val _ Hd) as Hdv.
  set (d := ascii_of_nat (48 + n mod 10)) in *. clearbody d.
  destruct (Nat.ltb_spec n 10) as [Hlt|Hge].
  - exists (String d EmptyString).
    split; [done|]. split; [done|]. split.
    + cbn [PyStr.all_chars]. by rewrite Hisd.
    + intros a. cbn [PyStr.digits_val String.length]. rewrite Hdv.
      rewrite Nat.mod_small by done. lia.
  - destruct (IH (n / 10)%nat (String d acc)) as (ds & Hrun & Hne & Hall & Hval).
    { pose proof (Nat.div_lt n 10). lia. }
    exists (ds +:+ String d EmptyString).
    split; [|split; [|split]].
    + rewrite Hrun. by rewrite string_app_assoc.
    + destruct ds; [done|discriminate].
    + rewrite all_digits_app, Hall. cbn [PyStr.all_chars]. by rewrite Hisd.
    + intros a. rewrite digits_val_app, Hval. cbn [PyStr.digits_val]. rewrite Hdv.
      rewrite string_length_snoc, Nat2Z.inj_succ, Z.pow_succ_r by lia.
      pose proof (Nat.div_mod_eq n 10) as Hdm.
      assert (Z.of_nat n = 10 * Z.of_nat (n / 10) + Z.of_nat (n mod 10))%Z by lia.
      lia.
Qed.

Lemma dec_spec (n : nat) :
  PyStr.dec n ≠ EmptyString
  ∧ PyStr.all_chars PyStr.is_digit (PyStr.dec n) = true
  ∧ PyStr.digits_val 0 (PyStr.dec n) = Z.of_nat n.
Proof.
  unfold PyStr.dec.
  destruct (dec_digits_spec (S n) n EmptyString) as (ds & -> & Hne & Hall & Hval); [lia|].
  assert (Hnil : ∀ s, s +:+ EmptyString = s).
  { intros s. induction s as [|c s IH]; [done|]. rewrite string_app_cons. by rewrite IH. }
  rewrite Hnil. split; [done|]. split; [done|]. rewrite Hval. lia.
Qed.

Lemma take_while_digits (ds rest : string) (c : ascii) :
  PyStr.all_chars PyStr.is_digit ds = true → PyStr.is_digit c = false →
  PyStr.take_while PyStr.is_digit (ds +:+ String c rest) = ds.
Proof.
  intros Hall Hc. induction ds as [|d ds IH].
  - rewrite string_app_nil. cbn [PyStr.take_while]. by rewrite Hc.
  - rewrite string_app_cons. cbn [PyStr.take_while PyStr.all_chars] in *.
    apply andb_prop in Hall as [-> Hall]. by rewrite IH.
Qed.

(** The key of a string that starts with F and a run of digits. *)
Lemma extract_factor_number_digits (ds rest : string) (c : ascii) :
  ds ≠ EmptyString → PyStr.all_chars PyStr.is_digit ds = true →
  PyStr.is_digit c = false →
  extract_factor_number ("F" +:+ ds +:+ String c rest)
  = if (int_max_str_digits <? String.length ds)%nat then Raise ValueError
    else Ok (Num (PyStr.digits_val 0 ds)).
Proof.
  intros Hne Hall Hc. unfold extract_factor_number, match_F_digits.
  rewrite string_app_cons, string_app_nil.
  rewrite take_while_digits by done.
  by destruct ds.
Qed.

(** X8: [extract_factor_number] reads back the id of a factor written in
    canonical form, whatever the label, when the id has at most 4300 decimal
    digits, and raises [ValueError] when it has more; in general a string
    that starts with F and a run of digits gets the number of the run, or
    [ValueError] for a run of more than 4300 digits.  A string that does not
    start with F and a digit gets the key infinity and is therefore sorted
    after every numbered factor; canonical factors that have a key are
    ordered by their ids. *)
Theorem extract_factor_number_of_canonical :
  (∀ f, extract_factor_number (Spec.canonical f)
        = if (int_max_str_digits <? String.length (PyStr.dec (Spec.id f)))%nat
          then Raise ValueError
          else Ok (Num (Z.of_nat (Spec.id f))))
  ∧ (∀ ds c rest,
       ds ≠ EmptyString → PyStr.all_chars PyStr.is_digit ds = true →
       PyStr.is_digit c = false →
       extract_factor_number ("F" +:+ ds +:+ String c rest)
       = if (int_max_str_digits <? String.length ds)%nat then Raise ValueError
         else Ok (Num (PyStr.digits_val 0 ds)))
  ∧ (∀ s, match_F_digits s = None → extract_factor_number s = Ok Inf)
  ∧ (∀ a, factor_number_leb a Inf = true)
  ∧ (∀ n, factor_number_leb Inf (Num n) = false)
  ∧ (∀ f g kf kg,
       extract_factor_number (Spec.canonical f) = Ok kf →
       extract_factor_number (Spec.canonical g) = Ok kg →
       factor_number_leb kf kg = bool_decide (Spec.id f ≤ Spec.id g)%nat).
Proof.
  assert (Hid : ∀ f, extract_factor_number (Spec.canonical f)
                     = if (int_max_str_digits <? String.length (PyStr.dec (Spec.id f)))%nat
                       then Raise ValueError
                       else Ok (Num (Z.of_nat (Spec.id f)))).
  { intros f. unfold Spec.canonical.
    destruct (dec_spec (Spec.id f)) as (Hne & Hall & Hval).
    rewrite (string_app_cons " " EmptyString), string_app_nil.
    rewrite extract_factor_number_digits by done. by rewrite Hval. }
  split; [exact Hid|]. split; [|split; [|split; [|split]]].
  - intros ds c rest. apply extract_factor_number_digits.
  - intros s Hs. unfold extract_factor_number. by rewrite Hs.
  - by intros [].
  - done.
  - intros f g kf kg. rewrite !Hid.
    destruct (_ <? _)%nat; [discriminate|]. intros [= <-].
    destruct (_ <? _)%nat; [discriminate|]. intros [= <-]. simpl.
    destruct (Z.leb_spec (Z.of_nat (Spec.id f)) (Z.of_nat (Spec.id g)));
      symmetry; [apply bool_decide_eq_true|apply bool_decide_eq_false]; lia.
Qed.

(** X8 at a factor whose number has 4301 digits, and at a section header,
    which carries no number. *)
Lemma extract_factor_number_of_canonical_witness :
  extract_factor_number ("F" +:+ long_digits +:+ " Made-up (P)") = Raise ValueError
  ∧ match_F_digits "Input Scenario" = None
  ∧ extract_factor_number "Input Scenario" = Ok Inf.
Proof.
  destruct extract_factor_number_of_canonical as (_ & Hdigits & Hnone & _).
  assert (Hne : long_digits ≠ EmptyString) by (vm_compute; discriminate).
  assert (Hall : PyStr.all_chars PyStr.is_digit long_digits = true)
    by (vm_compute; reflexivity).
  assert (Hc : PyStr.is_digit " " = false) by reflexivity.
  assert (Hlen : (int_max_str_digits <? String.length long_digits)%nat = true)
    by (vm_compute; reflexivity).
  assert (H : match_F_digits "Input Scenario" = None) by reflexivity.
  split; [|split; [exact H|exact (Hnone "Input Scenario" H)]].
  pose proof (Hdigits long_digits " "%char "Made-up (P)" Hne Hall Hc) as Hrun.
  rewrite Hlen in Hrun. exact Hrun.
Defined.

(** ** Counts and metrics of a row *)

Lemma count_not_in_zero (xs ys : list string) :
  count_not_in xs ys = 0%nat ↔ xs ⊆ ys.
Proof.
  rewrite count_not_in_filter. induction xs as [|x xs IH].
  - split; [intros _; apply list_subseteq_nil|done].
  - rewrite filter_cons. destruct (decide (x ∉ ys)) as [Hx|Hx]; simpl.
    + split; [done|]. intros Hsub. exfalso. apply Hx, Hsub. by left.
    + rewrite IH. apply dec_stable in Hx. split.
      * intros Hsub y [->|Hy]%elem_of_cons; [done|by apply Hsub].
      * intros Hsub y Hy. apply Hsub. by right.
Qed.

Lemma sum3_zero (a b c : nat) : (a + b + c = 0)%nat ↔ a = 0%nat ∧ b = 0%nat ∧ c = 0%nat.
Proof. lia. Qed.

Lemma Qnat_0 : (Qnat 0 == 0)%Q.
Proof. reflexivity. Qed.

Lemma Qnat_pos (t : nat) : (0 < t)%nat → (0 < Qnat t)%Q.
Proof. intros H. exact (Qnat_lt 0 t H). Qed.

Lemma Qnat_le (a b : nat) : (a ≤ b)%nat → (Qnat a <= Qnat b)%Q.
Proof. intros H. unfold Qnat. rewrite <- Zle_Qle. lia. Qed.

Lemma Qnat_nonneg (a : nat) : (0 <= Qnat a)%Q.
Proof. exact (Qnat_le 0 a (Nat.le_0_l a)). Qed.

Lemma ratio_nonneg (m t : nat) : (0 < t)%nat → (0 <= Qnat m / Qnat t)%Q.
Proof.
  intros Ht. apply Qle_shift_div_l; [by apply Qnat_pos|].
  rewrite Qmult_0_l. apply Qnat_nonneg.
Qed.

Lemma ratio_le_1 (m t : nat) : (0 < t)%nat → (m ≤ t)%nat → (Qnat m / Qnat t <= 1)%Q.
Proof.
  intros Ht Hm. apply Qle_shift_div_r; [by apply Qnat_pos|].
  rewrite Qmult_1_l. by apply Qnat_le.
Qed.

Lemma ratio_pos (m t : nat) : (0 < t)%nat → (0 < m)%nat → (0 < Qnat m / Qnat t)%Q.
Proof.
  intros Ht Hm. apply Qlt_shift_div_l; [by apply Qnat_pos|].
  rewrite Qmult_0_l. by apply Qnat_pos.
Qed.

Lemma ratio_gt_1 (m t : nat) : (0 < t)%nat → (t < m)%nat → (1 < Qnat m / Qnat t)%Q.
Proof.
  intros Ht Hm. apply Qlt_shift_div_l; [by apply Qnat_pos|].
  rewrite Qmult_1_l. by apply Qnat_lt.
Qed.

Lemma one_minus_ratio_is_1 (m t : nat) :
  (0 < t)%nat → ((1 - Qnat m / Qnat t == 1)%Q ↔ m = 0%nat).
Proof.
  intros Ht. split.
  - intros H. destruct m as [|m]; [done|].
    pose proof (ratio_pos (S m) t Ht (Nat.lt_0_succ m)). lra.
  - intros ->. pose proof (ratio_nonneg 0 t Ht) as H0.
    assert (H1 : (Qnat 0 / Qnat t == 0)%Q).
    { unfold Qdiv. rewrite Qnat_0. apply Qmult_0_l. }
    rewrite H1. lra.
Qed.

Lemma one_minus_ratio_nonneg (m t : nat) :
  (0 < t)%nat → ((0 <= 1 - Qnat m / Qnat t)%Q ↔ (m ≤ t)%nat).
Proof.
  intros Ht. split.
  - intros H. destruct (Nat.le_gt_cases m t) as [|Hlt]; [done|].
    pose proof (ratio_gt_1 m t Ht Hlt). lra.
  - intros Hm. pose proof (ratio_le_1 m t Ht Hm). lra.
Qed.

(** The counts of a row are the same in both scorers. *)
Lemma row_counts (mode : string) (i : case_factors) (d : distilled) :
  let c := process_csv_file_row i d in
  let p := calculate_scores_row mode i d in
  rs_total_mismatches c
  = (count_not_in (df_Input_Case d) (cf_Input i)
     + count_not_in (df_TSC1 d) (cf_TSC1 i)
     + count_not_in (df_TSC2 d) (cf_TSC2 i))%nat
  ∧ rs_total_weaknesses c
    = (count_not_in (cf_Input i) (df_Input_Case d)
       + count_not_in (cf_TSC1 i) (df_TSC1 d)
       + count_not_in (cf_TSC2 i) (df_TSC2 d))%nat
  ∧ rs_orig_factors c = original_total i
  ∧ rs_dist_factors c = distilled_total d
  ∧ rs_total_factors c = original_total i
  ∧ rs_total_mismatches p = rs_total_mismatches c
  ∧ rs_total_weaknesses p = rs_total_weaknesses c
  ∧ rs_orig_factors p = original_total i
  ∧ rs_dist_factors p = distilled_total d
  ∧ rs_total_factors p = original_total i.
Proof. repeat split. Qed.

Lemma row_mismatches_le (i : case_factors) (d : distilled) :
  (count_not_in (df_Input_Case d) (cf_Input i)
   + count_not_in (df_TSC1 d) (cf_TSC1 i)
   + count_not_in (df_TSC2 d) (cf_TSC2 i) ≤ distilled_total d)%nat.
Proof.
  unfold distilled_total.
  pose proof (count_not_in_le (df_Input_Case d) (cf_Input i)).
  pose proof (count_not_in_le (df_TSC1 d) (cf_TSC1 i)).
  pose proof (count_not_in_le (df_TSC2 d) (cf_TSC2 i)). lia.
Qed.

Lemma row_weaknesses_le (i : case_factors) (d : distilled) :
  (count_not_in (cf_Input i) (df_Input_Case d)
   + count_not_in (cf_TSC1 i) (df_TSC1 d)
   + count_not_in (cf_TSC2 i) (df_TSC2 d) ≤ original_total i)%nat.
Proof.
  unfold original_total.
  pose proof (count_not_in_le (cf_Input i) (df_Input_Case d)).
  pose proof (count_not_in_le (cf_TSC1 i) (df_TSC1 d)).
  pose proof (count_not_in_le (cf_TSC2 i) (df_TSC2 d)). lia.
Qed.

Lemma csv_accuracy_eq (i : case_factors) (d : distilled) :
  rs_accuracy (process_csv_file_row i d)
  = if (0 <? original_total i)%nat
    then (1 - Qnat (rs_total_mismatches (process_csv_file_row i d))
              / Qnat (original_total i))%Q
    else 0%Q.
Proof. reflexivity. Qed.

Lemma csv_strength_eq (i : case_factors) (d : distilled) :
  rs_strength (process_csv_file_row i d)
  = if (0 <? original_total i)%nat
    then (1 - Qnat (rs_total_weaknesses (process_csv_file_row i d))
              / Qnat (original_total i))%Q
    else 0%Q.
Proof. reflexivity. Qed.

Lemma pipeline_accuracy_eq (mode : string) (i : case_factors) (d : distilled) :
  rs_accuracy (calculate_scores_row mode i d)
  = rs_accuracy (process_csv_file_row i d).
Proof. reflexivity. Qed.

Lemma pipeline_strength_eq (mode : string) (i : case_factors) (d : distilled) :
  rs_strength (calculate_scores_row mode i d)
  = if is_unarguable_mode mode then
      if (0 <? original_total i)%nat
      then (1 - Qnat (distilled_total d) / Qnat (original_total i))%Q
      else if (distilled_total d =? 0)%nat then 1%Q else 0%Q
    else rs_strength (process_csv_file_row i d).
Proof. reflexivity. Qed.

(** X9: in both scorers the mismatch count of a row is zero exactly when
    every claimed factor stands in the actual section of the same name, and
    the weakness count is zero exactly when every actual factor is claimed
    under its own section.  Accuracy is 1 exactly when the scenario has a
    factor and no claim is a mismatch; the strength of [process_csv_file], and
    of [calculate_scores] in a mode other than the unarguable ones, is 1
    exactly when the scenario has a factor and none is missed. *)
Theorem perfect_row_characterised (mode : string) (i : case_factors) (d : distilled) :
  let claims_hold :=
    df_Input_Case d ⊆ cf_Input i ∧ df_TSC1 d ⊆ cf_TSC1 i ∧ df_TSC2 d ⊆ cf_TSC2 i in
  let all_claimed :=
    cf_Input i ⊆ df_Input_Case d ∧ cf_TSC1 i ⊆ df_TSC1 d ∧ cf_TSC2 i ⊆ df_TSC2 d in
  let c := process_csv_file_row i d in
  let p := calculate_scores_row mode i d in
  (rs_total_mismatches c = 0%nat ↔ claims_hold)
  ∧ (rs_total_mismatches p = 0%nat ↔ claims_hold)
  ∧ (rs_total_weaknesses c = 0%nat ↔ all_claimed)
  ∧ (rs_total_weaknesses p = 0%nat ↔ all_claimed)
  ∧ ((rs_accuracy c == 1)%Q ↔ (0 < original_total i)%nat ∧ claims_hold)
  ∧ ((rs_accuracy p == 1)%Q ↔ (0 < original_total i)%nat ∧ claims_hold)
  ∧ ((rs_strength c == 1)%Q ↔ (0 < original_total i)%nat ∧ all_claimed)
  ∧ (is_unarguable_mode mode = false →
     ((rs_strength p == 1)%Q ↔ (0 < original_total i)%nat ∧ all_claimed)).
Proof.
  intros claims_hold all_claimed c p.
  destruct (row_counts mode i d) as (Hm & Hw & _ & _ & _ & Hpm & Hpw & _).
  fold c p in Hm, Hw, Hpm, Hpw.
  assert (HM : rs_total_mismatches c = 0%nat ↔ claims_hold).
  { rewrite Hm, sum3_zero, !count_not_in_zero. done. }
  assert (HW : rs_total_weaknesses c = 0%nat ↔ all_claimed).
  { rewrite Hw, sum3_zero, !count_not_in_zero. done. }
  assert (HA : (rs_accuracy c == 1)%Q ↔ (0 < original_total i)%nat ∧ claims_hold).
  { unfold c. rewrite csv_accuracy_eq. fold c.
    destruct (Nat.ltb_spec 0 (original_total i)) as [Ht|Ht].
    - rewrite (one_minus_ratio_is_1 _ _ Ht), HM. tauto.
    - split; [intros H; discriminate H|]. intros [H _]. lia. }
  assert (HS : (rs_strength c == 1)%Q ↔ (0 < original_total i)%nat ∧ all_claimed).
  { unfold c. rewrite csv_strength_eq. fold c.
    destruct (Nat.ltb_spec 0 (original_total i)) as [Ht|Ht].
    - rewrite (one_minus_ratio_is_1 _ _ Ht), HW. tauto.
    - split; [intros H; discriminate H|]. intros [H _]. lia. }
  split; [exact HM|]. split; [by rewrite Hpm|]. split; [exact HW|].
  split; [by rewrite Hpw|]. split; [exact HA|].
  split; [unfold p; by rewrite pipeline_accuracy_eq|]. split; [exact HS|].
  intros Hmode. unfold p. rewrite pipeline_strength_eq, Hmode. exact HS.
Qed.

Lemma perfect_row_characterised_witness :
  is_unarguable_mode "arguable" = false
  ∧ ((rs_strength (calculate_scores_row "arguable" silent_row.1 silent_row.2) == 1)%Q
     ↔ (0 < original_total silent_row.1)%nat
       ∧ cf_Input silent_row.1 ⊆ df_Input_Case silent_row.2
       ∧ cf_TSC1 silent_row.1 ⊆ df_TSC1 silent_row.2
       ∧ cf_TSC2 silent_row.1 ⊆ df_TSC2 silent_row.2).
Proof.
  assert (H : is_unarguable_mode "arguable" = false) by reflexivity.
  split; [exact H|].
  exact (proj2 (proj2 (proj2 (proj2 (proj2 (proj2 (proj2
    (perfect_row_characterised "arguable" silent_row.1 silent_row.2))))))) H).
Defined.

Lemma csv_accuracy_le_1 (i : case_factors) (d : distilled) :
  (rs_accuracy (process_csv_file_row i d) <= 1)%Q.
Proof.
  rewrite csv_accuracy_eq.
  destruct (Nat.ltb_spec 0 (original_total i)) as [Ht|Ht]; [|lra].
  pose proof (ratio_nonneg (rs_total_mismatches (process_csv_file_row i d)) _ Ht). lra.
Qed.

Lemma csv_strength_bounds (i : case_factors) (d : distilled) :
  (0 <= rs_strength (process_csv_file_row i d))%Q
  ∧ (rs_strength (process_csv_file_row i d) <= 1)%Q.
Proof.
  rewrite csv_strength_eq.
  destruct (Nat.ltb_spec 0 (original_total i)) as [Ht|Ht]; [|lra].
  pose proof (row_weaknesses_le i d) as Hwle.
  pose proof (ratio_nonneg (rs_total_weaknesses (process_csv_file_row i d)) _ Ht).
  pose proof (ratio_le_1 (rs_total_weaknesses (process_csv_file_row i d)) _ Ht Hwle).
  lra.
Qed.

Lemma pipeline_strength_le_1 (mode : string) (i : case_factors) (d : distilled) :
  (rs_strength (calculate_scores_row mode i d) <= 1)%Q.
Proof.
  rewrite pipeline_strength_eq.
  destruct (is_unarguable_mode mode); [|apply csv_strength_bounds].
  destruct (Nat.ltb_spec 0 (original_total i)) as [Ht|Ht].
  - pose proof (ratio_nonneg (distilled_total d) _ Ht). lra.
  - destruct (distilled_total d =? 0)%nat; lra.
Qed.

(** X10: bounds of the row metrics.  Accuracy and strength never exceed 1 in
    either scorer.  The strength of [process_csv_file], and of
    [calculate_scores] outside the unarguable modes, is never negative.
    Accuracy is at least 1 - claimed/actual, so it is not negative when the
    answer claims no more factors than the scenario has; the unarguable-mode
    strength is not negative exactly in that case, or when the scenario has no
    factor. *)
Theorem row_metric_bounds (mode : string) (i : case_factors) (d : distilled) :
  let c := process_csv_file_row i d in
  let p := calculate_scores_row mode i d in
  (rs_accuracy c <= 1)%Q ∧ (rs_accuracy p <= 1)%Q
  ∧ (0 <= rs_strength c)%Q ∧ (rs_strength c <= 1)%Q ∧ (rs_strength p <= 1)%Q
  ∧ (is_unarguable_mode mode = false → (0 <= rs_strength p)%Q)
  ∧ (is_unarguable_mode mode = true →
     ((0 <= rs_strength p)%Q
      ↔ (distilled_total d ≤ original_total i)%nat ∨ original_total i = 0%nat))
  ∧ ((distilled_total d ≤ original_total i)%nat →
     (0 <= rs_accuracy c)%Q ∧ (0 <= rs_accuracy p)%Q).
Proof.
  intros c p.
  destruct (row_counts mode i d) as (Hm & Hw & _).
  fold c in Hm, Hw.
  pose proof (row_mismatches_le i d) as Hmle. rewrite <- Hm in Hmle.
  pose proof (row_weaknesses_le i d) as Hwle. rewrite <- Hw in Hwle.
  pose proof (csv_accuracy_le_1 i d) as HA. fold c in HA.
  pose proof (csv_strength_bounds i d) as HS. fold c in HS.
  assert (HA0 : (distilled_total d ≤ original_total i)%nat → (0 <= rs_accuracy c)%Q).
  { intros Hle. unfold c. rewrite csv_accuracy_eq. fold c.
    destruct (Nat.ltb_spec 0 (original_total i)) as [Ht|Ht]; [|lra].
    apply one_minus_ratio_nonneg; [done|lia]. }
  split; [exact HA|]. split; [unfold p; by rewrite pipeline_accuracy_eq|].
  split; [apply HS|]. split; [apply HS|]. split.
  { apply pipeline_strength_le_1. }
  split.
  { intros Hmode. unfold p. rewrite pipeline_strength_eq, Hmode. apply HS. }
  split.
  { intros Hmode. unfold p. rewrite pipeline_strength_eq, Hmode.
    destruct (Nat.ltb_spec 0 (original_total i)) as [Ht|Ht].
    - rewrite (one_minus_ratio_nonneg _ _ Ht). lia.
    - split; [intros _; right; lia|]. intros _.
      destruct (distilled_total d =? 0)%nat; lra. }
  intros Hle. split; [by apply HA0|].
  unfold p. rewrite pipeline_accuracy_eq. by apply HA0.
Qed.

Lemma row_metric_bounds_witness :
  is_unarguable_mode "arguable" = false
  ∧ (0 <= rs_strength (calculate_scores_row "arguable"
                         overclaiming_row.1 overclaiming_row.2))%Q.
Proof.
  assert (H : is_unarguable_mode "arguable" = false) by reflexivity.
  split; [exact H|].
  exact (proj1 (proj2 (proj2 (proj2 (proj2 (proj2
    (row_metric_bounds "arguable" overclaiming_row.1 overclaiming_row.2)))))) H).
Defined.

(** ** Claimed and actual factors of a row *)

Lemma length_filter_split (xs ys : list string) :
  length xs = (count_not_in xs ys + length (filter (λ f, f ∈ ys) xs))%nat.
Proof.
  rewrite count_not_in_filter. induction xs as [|x xs IH]; [done|].
  rewrite !filter_cons.
  destruct (decide (x ∈ ys)), (decide (x ∉ ys)); simpl; try lia; tauto.
Qed.

Lemma common_length (xs ys : list string) :
  NoDup xs → NoDup ys →
  length (filter (λ f, f ∈ ys) xs) = length (filter (λ f, f ∈ xs) ys).
Proof.
  intros Hx Hy. apply Permutation_length, NoDup_Permutation.
  - by apply NoDup_filter.
  - by apply NoDup_filter.
  - intros f. rewrite !list_elem_of_filter. tauto.
Qed.

Lemma claimed_actual_balance (xs ys : list string) :
  NoDup xs → NoDup ys →
  (length xs + count_not_in ys xs = length ys + count_not_in xs ys)%nat.
Proof.
  intros Hx Hy.
  pose proof (length_filter_split xs ys). pose proof (length_filter_split ys xs).
  pose proof (common_length xs ys Hx Hy). lia.
Qed.

(** ** The answer cell *)

Lemma dict_keys_from (acc l : list string) :
  NoDup acc →
  let r := foldl (λ (acc : list string) f,
                    if decide (f ∈ acc) then acc else acc ++ [f]) acc l in
  NoDup r ∧ ∀ x, x ∈ r ↔ x ∈ acc ∨ x ∈ l.
Proof.
  revert acc. induction l as [|f l IH]; intros acc Hacc; simpl.
  - split; [done|]. intros x. rewrite elem_of_nil. tauto.
  - destruct (decide (f ∈ acc)) as [Hf|Hf].
    + destruct (IH acc Hacc) as [Hnd Hin]. split; [done|].
      intros x. rewrite Hin, elem_of_cons. split; [tauto|].
      intros [?|[->|?]]; tauto.
    + assert (Hacc' : NoDup (acc ++ [f])).
      { apply NoDup_app. split; [done|]. split; [|apply NoDup_singleton].
        intros x Hx ->%list_elem_of_singleton. done. }
      destruct (IH _ Hacc') as [Hnd Hin]. split; [done|].
      intros x. rewrite Hin, elem_of_app, list_elem_of_singleton, elem_of_cons. tauto.
Qed.

Lemma dict_keys_NoDup (l : list string) : NoDup (Distill.dict_keys l).
Proof. exact (proj1 (dict_keys_from [] l (NoDup_nil_2))). Qed.

Lemma dict_keys_elem (l : list string) (x : string) :
  x ∈ Distill.dict_keys l ↔ x ∈ l.
Proof.
  unfold Distill.dict_keys.
  rewrite (proj2 (dict_keys_from [] l (NoDup_nil_2)) x), elem_of_nil. tauto.
Qed.

Lemma all_chars_rev_onto (p : ascii → bool) (s acc : string) :
  PyStr.all_chars p (PyStr.rev_onto s acc)
  = PyStr.all_chars p s && PyStr.all_chars p acc.
Proof.
  revert acc. induction s as [|c s IH]; intros acc; simpl; [done|].
  rewrite IH. simpl. by destruct (p c), (PyStr.all_chars p s).
Qed.

Lemma all_chars_rev (p : ascii → bool) (s : string) :
  PyStr.all_chars p (PyStr.rev s) = PyStr.all_chars p s.
Proof. unfold PyStr.rev. rewrite all_chars_rev_onto. simpl. apply andb_true_r. Qed.

Lemma all_chars_drop_while (p q : ascii → bool) (s : string) :
  PyStr.all_chars p s = true → PyStr.all_chars p (PyStr.drop_while q s) = true.
Proof.
  induction s as [|c s IH]; [done|]. intros H. simpl.
  destruct (q c); [|done]. simpl in H. apply andb_prop in H as [_ H]. by apply IH.
Qed.

Lemma all_chars_strip (p : ascii → bool) (s : string) :
  PyStr.all_chars p s = true → PyStr.all_chars p (PyStr.strip s) = true.
Proof.
  intros H. unfold PyStr.strip, PyStr.rstrip, PyStr.lstrip.
  rewrite all_chars_rev. apply all_chars_drop_while.
  rewrite all_chars_rev. by apply all_chars_drop_while.
Qed.

Lemma all_chars_drop (p : ascii → bool) (n : nat) (s : string) :
  PyStr.all_chars p s = true → PyStr.all_chars p (Distill.drop n s) = true.
Proof.
  revert s. induction n as [|n IH]; intros s H; [done|].
  destruct s as [|c s]; [done|]. simpl in *.
  apply andb_prop in H as [_ H]. by apply IH.
Qed.

Lemma all_chars_after_first (p : ascii → bool) (marker s rest : string) :
  PyStr.all_chars p s = true → Distill.after_first marker s = Some rest →
  PyStr.all_chars p rest = true.
Proof.
  induction s as [|c s IH]; intros H Hafter.
  - simpl in Hafter. destruct (PyStr.starts_with marker ""); [|done].
    injection Hafter as <-. by apply all_chars_drop.
  - cbn [Distill.after_first] in Hafter.
    destruct (PyStr.starts_with marker (String c s)).
    + injection Hafter as <-. by apply all_chars_drop.
    + simpl in H. apply andb_prop in H as [_ H]. by apply IH.
Qed.

Lemma drop_while_all (p : ascii → bool) (s : string) :
  PyStr.all_chars p s = true → PyStr.drop_while p s = "".
Proof.
  induction s as [|c s IH]; [done|]. simpl. intros H.
  apply andb_prop in H as [-> H]. by apply IH.
Qed.

Lemma json_span_no_open (s : string) :
  PyStr.all_chars (Distill.is_not "{") s = true → Distill.json_span s = None.
Proof. intros H. unfold Distill.json_span. by rewrite drop_while_all. Qed.

Lemma json_span_no_close (s : string) :
  PyStr.all_chars (Distill.is_not "}") s = true → Distill.json_span s = None.
Proof.
  intros H. unfold Distill.json_span.
  pose proof (all_chars_drop_while _ (Distill.is_not "{") s H) as H1.
  destruct (PyStr.drop_while (Distill.is_not "{") s) as [|b rest]; [done|].
  simpl in H1. apply andb_prop in H1 as [_ H1].
  rewrite drop_while_all; [done|]. by rewrite all_chars_rev.
Qed.

Lemma process_distilled_factors_no_span (p : ascii → bool) (row_text : string) :
  (∀ s, PyStr.all_chars p s = true → Distill.json_span s = None) →
  PyStr.all_chars p row_text = true →
  process_distilled_factors row_text = Distilled [] [] [].
Proof.
  intros Hspan H. unfold process_distilled_factors.
  destruct (Distill.after_first "</think>" row_text) as [rest|] eqn:Hafter.
  - rewrite Hspan; [done|]. apply all_chars_strip.
    by apply (all_chars_after_first p "</think>" row_text).
  - by rewrite Hspan.
Qed.

Lemma string_length_rev_onto (s acc : string) :
  String.length (PyStr.rev_onto s acc) = (String.length s + String.length acc)%nat.
Proof.
  revert acc. induction s as [|c s IH]; intros acc; simpl; [done|].
  rewrite IH. simpl. lia.
Qed.

Lemma quoted_go_elem (inside : option string) (s x : string) :
  (∀ acc, inside = Some acc → PyStr.all_chars (Distill.is_not Distill.dq) acc = true) →
  x ∈ Distill.quoted_go inside s →
  x ≠ "" ∧ PyStr.all_chars (Distill.is_not Distill.dq) x = true.
Proof.
  revert inside. induction s as [|c s IH]; intros inside Hin Hx.
  - simpl in Hx. by apply elem_of_nil in Hx.
  - cbn [Distill.quoted_go] in Hx. destruct inside as [acc|].
    + destruct (bool_decide (c = Distill.dq)) eqn:Hc.
      * destruct acc as [|a acc].
        -- apply (IH (Some "")); [|done]. by intros ? [= <-].
        -- apply elem_of_cons in Hx as [->|Hx].
           ++ split.
              ** intros Hnil. apply (f_equal String.length) in Hnil.
                 unfold PyStr.rev in Hnil. rewrite string_length_rev_onto in Hnil.
                 simpl in Hnil. lia.
              ** rewrite all_chars_rev. by apply Hin.
           ++ apply (IH None); [|done]. by intros ? [=].
      * apply (IH (Some (String c acc))); [|done].
        intros ? [= <-]. simpl. rewrite (Hin acc eq_refl), andb_true_r.
        unfold Distill.is_not. by rewrite Hc.
    + destruct (bool_decide (c = Distill.dq)).
      * apply (IH (Some "")); [|done]. by intros ? [= <-].
      * apply (IH None); [|done]. by intros ? [=].
Qed.

Lemma key_factors_keys (name json_text : string) :
  NoDup (Distill.key_factors name json_text)
  ∧ ∀ x, x ∈ Distill.key_factors name json_text →
      x ≠ "" ∧ PyStr.all_chars (Distill.is_not Distill.dq) x = true.
Proof.
  unfold Distill.key_factors.
  destruct (Distill.key_group _ json_text) as [factors_text|].
  - split; [apply dict_keys_NoDup|].
    intros x Hx. apply (proj1 (dict_keys_elem _ _)) in Hx. apply (quoted_go_elem None factors_text); [|exact Hx].
    by intros ? [=].
  - split; [apply NoDup_nil_2|]. intros x Hx. by apply elem_of_nil in Hx.
Qed.

Lemma process_distilled_factors_keys (row_text : string) :
  let d := process_distilled_factors row_text in
  (NoDup (df_Input_Case d) ∧ NoDup (df_TSC1 d) ∧ NoDup (df_TSC2 d))
  ∧ ∀ x, x ∈ df_Input_Case d ∨ x ∈ df_TSC1 d ∨ x ∈ df_TSC2 d →
      x ≠ "" ∧ PyStr.all_chars (Distill.is_not Distill.dq) x = true.
Proof.
  unfold process_distilled_factors.
  destruct (Distill.json_span _) as [json_text|]; simpl.
  - pose proof (key_factors_keys "Input Case" json_text) as [H1 H1'].
    pose proof (key_factors_keys "TSC1" json_text) as [H2 H2'].
    pose proof (key_factors_keys "TSC2" json_text) as [H3 H3'].
    split; [done|]. intros x [?|[?|?]]; auto.
  - split; [repeat split; apply NoDup_nil_2|].
    intros x [H|[H|H]]; by apply elem_of_nil in H.
Qed.

(** X11: the three claimed sets that [process_distilled_factors] reads from
    an answer have no duplicates, and no claimed name is empty or holds a
    double quote.  An answer without an opening brace, or without a closing
    brace, gives three empty sets, whatever else it says. *)
Theorem process_distilled_factors_sets (row_text : string) :
  let d := process_distilled_factors row_text in
  NoDup (df_Input_Case d) ∧ NoDup (df_TSC1 d) ∧ NoDup (df_TSC2 d)
  ∧ (∀ x, x ∈ df_Input_Case d ∨ x ∈ df_TSC1 d ∨ x ∈ df_TSC2 d →
       x ≠ "" ∧ PyStr.all_chars (Distill.is_not Distill.dq) x = true)
  ∧ (PyStr.all_chars (Distill.is_not "{") row_text = true
     ∨ PyStr.all_chars (Distill.is_not "}") row_text = true →
     d = Distilled [] [] []).
Proof.
  intros d. destruct (process_distilled_factors_keys row_text) as [(H1 & H2 & H3) H4].
  split; [exact H1|]. split; [exact H2|]. split; [exact H3|]. split; [exact H4|].
  intros [H|H].
  - exact (process_distilled_factors_no_span _ row_text json_span_no_open H).
  - exact (process_distilled_factors_no_span _ row_text json_span_no_close H).
Qed.

Lemma process_distilled_factors_sets_witness :
  let d := process_distilled_factors overclaiming_answer_cell in
  (("F98 Invented (P)" ∈ df_Input_Case d ∨ "F98 Invented (P)" ∈ df_TSC1 d
    ∨ "F98 Invented (P)" ∈ df_TSC2 d)
   ∧ "F98 Invented (P)" ≠ ""
   ∧ PyStr.all_chars (Distill.is_not Distill.dq) "F98 Invented (P)" = true)
  ∧ ((PyStr.all_chars (Distill.is_not "{") "I cannot tell." = true
      ∨ PyStr.all_chars (Distill.is_not "}") "I cannot tell." = true)
     ∧ process_distilled_factors "I cannot tell." = Distilled [] [] []).
Proof.
  assert (H1 : "F98 Invented (P)"
               ∈ df_Input_Case (process_distilled_factors overclaiming_answer_cell)
               ∨ "F98 Invented (P)"
                 ∈ df_TSC1 (process_distilled_factors overclaiming_answer_cell)
               ∨ "F98 Invented (P)"
                 ∈ df_TSC2 (process_distilled_factors overclaiming_answer_cell)).
  { left. apply (bool_decide_unpack _). vm_compute. exact I. }
  assert (H2 : PyStr.all_chars (Distill.is_not "{") "I cannot tell." = true
               ∨ PyStr.all_chars (Distill.is_not "}") "I cannot tell." = true).
  { left. reflexivity. }
  split.
  - split; [exact H1|].
    exact (proj1 (proj2 (proj2 (proj2
      (process_distilled_factors_sets overclaiming_answer_cell)))) _ H1).
  - split; [exact H2|].
    exact (proj2 (proj2 (proj2 (proj2
      (process_distilled_factors_sets "I cannot tell."))))  H2).
Defined.

(** X12: when the actual sections of a scenario hold no factor twice, claimed
    and missed factors balance in every row, whatever the answer text is:
    claimed + weaknesses = actual + mismatches, in both scorers.  An answer
    that claims as many factors as the scenario has therefore has as many
    mismatches as weaknesses. *)
Theorem claimed_and_missed_balance (mode : string) (i : case_factors)
    (answer : string) :
  NoDup (cf_Input i) → NoDup (cf_TSC1 i) → NoDup (cf_TSC2 i) →
  let d := process_distilled_factors answer in
  let c := process_csv_file_row i d in
  let p := calculate_scores_row mode i d in
  (rs_dist_factors c + rs_total_weaknesses c
   = rs_orig_factors c + rs_total_mismatches c)%nat
  ∧ (rs_dist_factors p + rs_total_weaknesses p
     = rs_orig_factors p + rs_total_mismatches p)%nat
  ∧ (rs_dist_factors c = rs_orig_factors c →
     rs_total_mismatches c = rs_total_weaknesses c).
Proof.
  intros Hi H1 H2 d c p.
  destruct (process_distilled_factors_keys answer) as [(Hd & Hd1 & Hd2) _].
  fold d in Hd, Hd1, Hd2.
  destruct (row_counts mode i d) as (Hm & Hw & Ho & Hdist & _ & Hpm & Hpw & Hpo & Hpd & _).
  fold c p in Hm, Hw, Ho, Hdist, Hpm, Hpw, Hpo, Hpd.
  assert (Hbal : (rs_dist_factors c + rs_total_weaknesses c
                  = rs_orig_factors c + rs_total_mismatches c)%nat).
  { rewrite Hm, Hw, Ho, Hdist. unfold original_total, distilled_total.
    pose proof (claimed_actual_balance _ _ Hd Hi).
    pose proof (claimed_actual_balance _ _ Hd1 H1).
    pose proof (claimed_actual_balance _ _ Hd2 H2). lia. }
  split; [exact Hbal|]. split.
  - rewrite Hpm, Hpw, Hpo, Hpd, <- Ho, <- Hdist. exact Hbal.
  - intros Heq. lia.
Qed.

Lemma claimed_and_missed_balance_witness :
  let i := overclaiming_row.1 in
  let c := process_csv_file_row i (process_distilled_factors overclaiming_answer_cell) in
  (rs_dist_factors c + rs_total_weaknesses c
   = rs_orig_factors c + rs_total_mismatches c)%nat.
Proof.
  assert (H0 : NoDup (cf_Input overclaiming_row.1))
    by (apply (bool_decide_unpack _); vm_compute; exact I).
  assert (H1 : NoDup (cf_TSC1 overclaiming_row.1)) by apply NoDup_nil_2.
  assert (H2 : NoDup (cf_TSC2 overclaiming_row.1)) by apply NoDup_nil_2.
  exact (proj1 (claimed_and_missed_balance "arguable" overclaiming_row.1
                  overclaiming_answer_cell H0 H1 H2)).
Defined.

(** ** An answer that claims nothing *)

Lemma count_not_in_nil_l (ys : list string) : count_not_in [] ys = 0%nat.
Proof. reflexivity. Qed.

Lemma ratio_self (n : nat) : (0 < n)%nat → (Qnat n / Qnat n == 1)%Q.
Proof.
  intros Hn. pose proof (Qnat_pos n Hn) as H. unfold Qdiv.
  apply Qmult_inv_r. intros H0. rewrite H0 in H. by apply Qlt_irrefl in H.
Qed.

Lemma ratio_zero (n : nat) : (Qnat 0 / Qnat n == 0)%Q.
Proof. unfold Qdiv. rewrite Qnat_0. apply Qmult_0_l. Qed.

Lemma nothing_claimed_row (mode : string) (i : case_factors) :
  let n := original_total i in
  let p := calculate_scores_row mode i (Distilled [] [] []) in
  let c := process_csv_file_row i (Distilled [] [] []) in
  (rs_dist_factors p = 0%nat ∧ rs_total_mismatches p = 0%nat
   ∧ rs_total_weaknesses p = n)
  ∧ (rs_dist_factors c = 0%nat ∧ rs_total_mismatches c = 0%nat
     ∧ rs_total_weaknesses c = n)
  ∧ rs_successful_abstention p = bool_decide (n = 0%nat)
  ∧ rs_successful_abstention c = true
  ∧ (rs_accuracy p == if (0 <? n)%nat then 1 else 0)%Q
  ∧ (rs_accuracy c == if (0 <? n)%nat then 1 else 0)%Q
  ∧ (rs_strength p == if is_unarguable_mode mode then 1 else 0)%Q
  ∧ (rs_strength c == 0)%Q.
Proof.
  intros n p c.
  destruct (row_counts mode i (Distilled [] [] []))
    as (Hm & Hw & _ & Hd & _ & Hpm & Hpw & _ & Hpd & _).
  fold c p in Hm, Hw, Hd, Hpm, Hpw, Hpd.
  cbn [df_Input_Case df_TSC1 df_TSC2] in Hm, Hw.
  rewrite !count_not_in_nil_l in Hm. rewrite !count_not_in_nil in Hw.
  change (rs_total_mismatches c = 0%nat) in Hm.
  change (rs_total_weaknesses c = n) in Hw.
  change (distilled_total (Distilled [] [] [])) with 0%nat in Hd, Hpd.
  assert (HA : (rs_accuracy c == if (0 <? n)%nat then 1 else 0)%Q).
  { unfold c. rewrite csv_accuracy_eq. fold c n. rewrite Hm.
    destruct (0 <? n)%nat; [|reflexivity]. rewrite ratio_zero. lra. }
  assert (HS : (rs_strength c == 0)%Q).
  { unfold c. rewrite csv_strength_eq. fold c n. rewrite Hw.
    destruct (Nat.ltb_spec 0 n) as [Hn|Hn]; [|reflexivity].
    rewrite (ratio_self n Hn). lra. }
  split; [by rewrite Hpd, Hpm, Hpw, Hm, Hw|]. split; [done|]. split.
  { change (rs_successful_abstention p)
      with ((rs_total_weaknesses p =? 0)%nat && (rs_dist_factors p =? 0)%nat).
    rewrite Hpw, Hw, Hpd. simpl. rewrite andb_true_r.
    destruct (Nat.eqb_spec n 0); symmetry;
      [by apply bool_decide_eq_true|by apply bool_decide_eq_false]. }
  split; [reflexivity|]. split; [unfold p; by rewrite pipeline_accuracy_eq|].
  split; [exact HA|]. split; [|exact HS].
  unfold p. rewrite pipeline_strength_eq. fold c n.
  destruct (is_unarguable_mode mode); [|exact HS].
  change (distilled_total (Distilled [] [] [])) with 0%nat.
  destruct (0 <? n)%nat; [|reflexivity]. rewrite ratio_zero. lra.
Qed.

(** X13: an answer that claims nothing.  [calculate_scores] reads a missing
    answer cell as the empty object [{}]; [process_csv_file] has no such
    guard and is stated for the cells that are strings.  In both scorers a
    row whose answer is [{}], or a string without opening brace, has no
    claimed factor and no mismatch, every actual factor is a weakness, and
    its accuracy is 1 when the scenario has a factor (0 otherwise).  In
    [calculate_scores] its strength is 1 in the unarguable modes and 0 in the
    others, and it counts as a successful abstention only when the scenario
    has no factor at all; in [process_csv_file] its strength is 0 and it
    always counts as a successful abstention. *)
Theorem silent_answer_scores (mode scenario : string) :
  let n := original_total (process_csv_row scenario) in
  let p := calculate_scores_body mode (scenario, None) in
  let c := process_csv_file_body (scenario, "{}") in
  (rs_dist_factors p = 0%nat ∧ rs_total_mismatches p = 0%nat
   ∧ rs_total_weaknesses p = n)
  ∧ (rs_dist_factors c = 0%nat ∧ rs_total_mismatches c = 0%nat
     ∧ rs_total_weaknesses c = n)
  ∧ rs_successful_abstention p = bool_decide (n = 0%nat)
  ∧ rs_successful_abstention c = true
  ∧ (rs_accuracy p == if (0 <? n)%nat then 1 else 0)%Q
  ∧ (rs_accuracy c == if (0 <? n)%nat then 1 else 0)%Q
  ∧ (rs_strength p == if is_unarguable_mode mode then 1 else 0)%Q
  ∧ (rs_strength c == 0)%Q
  ∧ (∀ answer, PyStr.all_chars (Distill.is_not "{") answer = true →
       calculate_scores_body mode (scenario, Some answer) = p
       ∧ process_csv_file_body (scenario, answer) = c).
Proof.
  intros n p c.
  assert (Hp : p = calculate_scores_row mode (process_csv_row scenario)
                     (Distilled [] [] [])) by reflexivity.
  assert (Hc : c = process_csv_file_row (process_csv_row scenario)
                     (Distilled [] [] [])) by reflexivity.
  pose proof (nothing_claimed_row mode (process_csv_row scenario)) as H.
  cbv zeta in H. fold n in H. rewrite <- Hp, <- Hc in H.
  destruct H as (H1 & H2 & H3 & H4 & H5 & H6 & H7 & H8).
  repeat (split; [assumption|]).
  intros answer Hanswer. rewrite Hp, Hc.
  unfold calculate_scores_body, process_csv_file_body. simpl.
  by rewrite (process_distilled_factors_no_span _ answer json_span_no_open Hanswer).
Qed.

Lemma silent_answer_scores_witness :
  PyStr.all_chars (Distill.is_not "{") "I cannot tell." = true
  ∧ calculate_scores_body "unarguable" (overclaiming_scenario_cell, Some "I cannot tell.")
    = calculate_scores_body "unarguable" (overclaiming_scenario_cell, None)
  ∧ process_csv_file_body (overclaiming_scenario_cell, "I cannot tell.")
    = process_csv_file_body (overclaiming_scenario_cell, "{}").
Proof.
  assert (H : PyStr.all_chars (Distill.is_not "{") "I cannot tell." = true)
    by reflexivity.
  split; [exact H|].
  exact (proj2 (proj2 (proj2 (proj2 (proj2 (proj2 (proj2 (proj2
    (silent_answer_scores "unarguable" overclaiming_scenario_cell))))))))
    "I cannot tell." H).
Defined.

(** ** Totals of a file *)

Lemma Qnat_S (n : nat) : (Qnat (S n) == Qnat n + 1)%Q.
Proof.
  unfold Qnat. rewrite Nat2Z.inj_succ, <- Z.add_1_r, inject_Z_plus. reflexivity.
Qed.

Lemma sum_le (b : Q) (l : list Q) :
  Forall (λ q, (q <= b)%Q) l → (foldr Qplus 0 l <= b * Qnat (length l))%Q.
Proof.
  induction 1 as [|q l Hq _ IH]; simpl.
  - rewrite Qnat_0. lra.
  - rewrite Qnat_S. lra.
Qed.

Lemma sum_ge (a : Q) (l : list Q) :
  Forall (λ q, (a <= q)%Q) l → (a * Qnat (length l) <= foldr Qplus 0 l)%Q.
Proof.
  induction 1 as [|q l Hq _ IH]; simpl.
  - rewrite Qnat_0. lra.
  - rewrite Qnat_S. lra.
Qed.

Lemma mean_le (b : Q) (l : list Q) :
  (0 <= b)%Q → Forall (λ q, (q <= b)%Q) l → (mean l <= b)%Q.
Proof.
  intros Hb Hl. destruct l as [|q l]; [exact Hb|].
  unfold mean. apply Qle_shift_div_r.
  - apply Qnat_pos. simpl. lia.
  - by apply sum_le.
Qed.

Lemma mean_ge (a : Q) (l : list Q) :
  (a <= 0)%Q → Forall (λ q, (a <= q)%Q) l → (a <= mean l)%Q.
Proof.
  intros Ha Hl. destruct l as [|q l]; [exact Ha|].
  unfold mean. apply Qle_shift_div_l.
  - apply Qnat_pos. simpl. lia.
  - by apply sum_ge.
Qed.

(** What the accumulators keep along the rows of a file. *)
Lemma accumulate_counts {R : Type} (f : R → row_score) (rows : list R)
    (acc : totals) (k : nat) :
  (∀ row, rs_total_factors (f row) = rs_orig_factors (f row)
          ∧ (rs_total_mismatches (f row) ≤ rs_dist_factors (f row))%nat
          ∧ (rs_total_weaknesses (f row) ≤ rs_orig_factors (f row))%nat) →
  all_factors acc = all_original_factors acc
  ∧ (all_mismatches acc ≤ all_distilled_factors acc)%nat
  ∧ (all_weaknesses acc ≤ all_original_factors acc)%nat
  ∧ (successful_abstention_count acc ≤ k)%nat →
  let acc' := foldl (λ acc row, accumulate acc (f row)) acc rows in
  all_factors acc' = all_original_factors acc'
  ∧ (all_mismatches acc' ≤ all_distilled_factors acc')%nat
  ∧ (all_weaknesses acc' ≤ all_original_factors acc')%nat
  ∧ (successful_abstention_count acc' ≤ k + length rows)%nat.
Proof.
  intros Hrow. revert acc k. induction rows as [|row rows IH]; intros acc k Hacc; simpl.
  - rewrite Nat.add_0_r. exact Hacc.
  - replace (k + S (length rows))%nat with (S k + length rows)%nat by lia.
    apply IH. destruct Hacc as (H1 & H2 & H3 & H4).
    destruct (Hrow row) as (R1 & R2 & R3). simpl.
    destruct (rs_successful_abstention (f row)); lia.
Qed.

Lemma abstention_ratio_bounds (count rows : nat) :
  (count ≤ rows)%nat →
  let ratio := if (0 <? rows)%nat then (Qnat count / Qnat rows)%Q else 0%Q in
  (0 <= ratio)%Q ∧ (ratio <= 1)%Q.
Proof.
  intros Hle. simpl. destruct (Nat.ltb_spec 0 rows) as [Hr|Hr]; [|lra].
  split; [by apply ratio_nonneg|by apply ratio_le_1].
Qed.

Lemma csv_row_facts (row : string * string) :
  let r := process_csv_file_body row in
  (rs_total_factors r = rs_orig_factors r
   ∧ (rs_total_mismatches r ≤ rs_dist_factors r)%nat
   ∧ (rs_total_weaknesses r ≤ rs_orig_factors r)%nat)
  ∧ (rs_accuracy r * 100 <= 100)%Q
  ∧ (0 <= rs_strength r * 100)%Q ∧ (rs_strength r * 100 <= 100)%Q.
Proof.
  intros r. unfold r, process_csv_file_body.
  set (i := process_csv_row row.1). set (d := process_distilled_factors row.2).
  pose proof (csv_accuracy_le_1 i d) as HA.
  destruct (csv_strength_bounds i d) as [HS0 HS1].
  split; [|lra].
  split; [reflexivity|]. split; [apply row_mismatches_le|apply row_weaknesses_le].
Qed.

Lemma pipeline_row_facts (mode : string) (row : string * option string) :
  let r := calculate_scores_body mode row in
  (rs_total_factors r = rs_orig_factors r
   ∧ (rs_total_mismatches r ≤ rs_dist_factors r)%nat
   ∧ (rs_total_weaknesses r ≤ rs_orig_factors r)%nat)
  ∧ (rs_accuracy r * 100 <= 100)%Q
  ∧ (rs_strength r * 100 <= 100)%Q
  ∧ (is_unarguable_mode mode = false → (0 <= rs_strength r * 100)%Q).
Proof.
  intros r. unfold r, calculate_scores_body.
  set (i := process_csv_row row.1).
  set (d := process_distilled_factors (default "{}" row.2)).
  pose proof (csv_accuracy_le_1 i d) as HA.
  rewrite <- (pipeline_accuracy_eq mode) in HA.
  pose proof (pipeline_strength_le_1 mode i d) as HS1.
  split; [|split; [lra|split; [lra|]]].
  - split; [reflexivity|]. split; [apply row_mismatches_le|apply row_weaknesses_le].
  - intros Hmode. destruct (csv_strength_bounds i d) as [HS0 _].
    rewrite pipeline_strength_eq, Hmode. lra.
Qed.

(** X14: the totals that the two scorers return for a file, whatever its
    rows.  Total factors equal total original factors, total mismatches do
    not exceed the total of claimed factors, total weaknesses do not exceed
    the total of actual factors.  The mean accuracy and the mean strength are
    at most 100; the mean strength of [process_csv_file], and of
    [calculate_scores] outside the unarguable modes, is not negative.  The
    abstention ratio is a fraction between 0 and 1 in [process_csv_file] and a
    percentage between 0 and 100 in [calculate_scores], which returns it in
    the unarguable modes only. *)
Theorem file_totals_bounds (mode : string) (rows : list (string * string))
    (prows : list (string * option string)) :
  let '(all_factors, all_original_factors, all_distilled_factors, all_mismatches,
        all_weaknesses, mean_acc, mean_strength, successful_abstention_ratio) :=
    process_csv_file rows in
  let r := calculate_scores mode prows in
  (all_factors = all_original_factors
   ∧ (all_mismatches ≤ all_distilled_factors)%nat
   ∧ (all_weaknesses ≤ all_original_factors)%nat
   ∧ (mean_acc <= 100)%Q ∧ (0 <= mean_strength)%Q ∧ (mean_strength <= 100)%Q
   ∧ (0 <= successful_abstention_ratio)%Q ∧ (successful_abstention_ratio <= 1)%Q)
  ∧ ((rd_total_mismatches r ≤ rd_distilled_factors r)%nat
     ∧ (rd_total_weaknesses r ≤ rd_original_factors r)%nat
     ∧ (rd_accuracy r <= 100)%Q ∧ (rd_strength r <= 100)%Q
     ∧ (is_unarguable_mode mode = false →
        (0 <= rd_strength r)%Q ∧ rd_successful_abstention_ratio r = None)
     ∧ (is_unarguable_mode mode = true →
        ∃ ratio, rd_successful_abstention_ratio r = Some ratio
                 ∧ (0 <= ratio)%Q ∧ (ratio <= 100)%Q)).
Proof.
  unfold process_csv_file, calculate_scores. cbv zeta. split.
  - set (acc := foldl _ no_totals rows).
    pose proof (accumulate_counts process_csv_file_body rows no_totals 0
                  (λ row, proj1 (csv_row_facts row))) as Hc.
    cbv zeta in Hc. fold acc in Hc.
    destruct Hc as (H1 & H2 & H3 & H4); [simpl; lia|]. simpl in H4.
    split; [exact H1|]. split; [exact H2|]. split; [exact H3|].
    assert (HA : Forall (λ q, (q <= 100)%Q) (all_accuracies acc)).
    { unfold acc. rewrite all_accuracies_foldl. simpl. apply Forall_fmap, Forall_forall.
      intros row _. apply (csv_row_facts row). }
    assert (HS : Forall (λ q, (0 <= q)%Q) (all_strengths acc)
                 ∧ Forall (λ q, (q <= 100)%Q) (all_strengths acc)).
    { unfold acc. rewrite all_strengths_foldl. simpl.
      split; apply Forall_fmap, Forall_forall; intros row _; apply (csv_row_facts row). }
    split; [apply mean_le; [lra|exact HA]|].
    split; [apply mean_ge; [lra|apply HS]|].
    split; [apply mean_le; [lra|apply HS]|].
    apply abstention_ratio_bounds. exact H4.
  - set (acc := foldl _ no_totals prows).
    pose proof (accumulate_counts (calculate_scores_body mode) prows no_totals 0
                  (λ row, proj1 (pipeline_row_facts mode row))) as Hc.
    cbv zeta in Hc. fold acc in Hc.
    destruct Hc as (H1 & H2 & H3 & H4); [simpl; lia|]. simpl in H4.
    cbn [rd_total_mismatches rd_distilled_factors rd_total_weaknesses
         rd_original_factors rd_accuracy rd_strength rd_successful_abstention_ratio].
    split; [exact H2|]. split; [exact H3|].
    assert (HA : Forall (λ q, (q <= 100)%Q) (all_accuracies acc)).
    { unfold acc. rewrite all_accuracies_foldl. simpl. apply Forall_fmap, Forall_forall.
      intros row _. apply (pipeline_row_facts mode row). }
    assert (HS : Forall (λ q, (q <= 100)%Q) (all_strengths acc)).
    { unfold acc. rewrite all_strengths_foldl. simpl. apply Forall_fmap, Forall_forall.
      intros row _. apply (pipeline_row_facts mode row). }
    split; [apply mean_le; [lra|exact HA]|].
    split; [apply mean_le; [lra|exact HS]|].
    split.
    + intros Hmode. rewrite Hmode. split; [|reflexivity].
      apply mean_ge; [lra|]. unfold acc. rewrite all_strengths_foldl. simpl.
      apply Forall_fmap, Forall_forall. intros row _.
      by apply (pipeline_row_facts mode row).
    + intros Hmode. rewrite Hmode. eexists. split; [reflexivity|].
      pose proof (abstention_ratio_bounds _ _ H4) as Hr. cbv zeta in Hr.
      destruct (0 <? length prows)%nat; lra.
Qed.

Lemma file_totals_bounds_witness :
  is_unarguable_mode "arguable" = false
  ∧ (0 <= rd_strength (calculate_scores "arguable"
                         [(overclaiming_scenario_cell, Some overclaiming_answer_cell)]))%Q.
Proof.
  assert (H : is_unarguable_mode "arguable" = false) by reflexivity.
  split; [exact H|].
  pose proof (file_totals_bounds "arguable" []
                [(overclaiming_scenario_cell, Some overclaiming_answer_cell)]) as Hb.
  exact (proj1 (proj1 (proj2 (proj2 (proj2 (proj2 (proj2 Hb))))) H)).
Defined.

(** ** The scenario text read back *)

(** *** Matching by derivatives is sound *)

Lemma matches_cat (r s : Re.re) (w : string) :
  matches (Re.cat r s) w → matches (Re.Cat r s) w.
Proof.
  destruct r, s; simpl; intros H; try exact H; try (by inversion H).
  all: rewrite <- (string_app_nil w); by constructor; [constructor|].
Qed.

Lemma matches_alt (r s : Re.re) (w : string) :
  matches (Re.alt r s) w → matches (Re.Alt r s) w.
Proof.
  destruct r, s; simpl; intros H; try exact H;
    first [by apply matches_Alt_r | by apply matches_Alt_l].
Qed.

Lemma matches_nullable (r : Re.re) : Re.nullable r = true → matches r EmptyString.
Proof.
  induction r as [| |k|r IHr s IHs|r IHr s IHs|r IHr]; simpl; intros H; try done.
  - constructor.
  - apply andb_prop in H as [Hr Hs].
    change EmptyString with (EmptyString +:+ EmptyString). constructor; auto.
  - apply orb_prop in H as [Hr|Hs]; [apply matches_Alt_l|apply matches_Alt_r]; auto.
  - constructor.
Qed.

Lemma matches_deriv (c : ascii) (r : Re.re) (w : string) :
  matches (Re.deriv c r) w → matches r (String c w).
Proof.
  revert w. induction r as [| |k|r IHr s IHs|r IHr s IHs|r IHr]; simpl; intros w H.
  - inversion H.
  - inversion H.
  - destruct (Re.cset_mem k c) eqn:Hk; inversion H; subst. by constructor.
  - apply matches_alt in H. inversion H as [| | |? ? ? H1|? ? ? H2| |]; subst.
    + apply matches_cat in H1. inversion H1 as [| |? ? u v Hu Hv| | | |]; subst.
      rewrite <- string_app_cons. constructor; [by apply IHr|done].
    + destruct (Re.nullable r) eqn:Hn; [|inversion H2].
      rewrite <- (string_app_nil (String c w)). constructor.
      * by apply matches_nullable.
      * by apply IHs.
  - apply matches_alt in H. inversion H; subst.
    + apply matches_Alt_l. by apply IHr.
    + apply matches_Alt_r. by apply IHs.
  - apply matches_cat in H. inversion H as [| |? ? u v Hu Hv| | | |]; subst.
    rewrite <- string_app_cons. apply matches_Star_app; [by apply IHr|done].
Qed.

Lemma match_prefix_sound (r : Re.re) (s : string) :
  Re.match_prefix r s = true → ∃ u v, s = u +:+ v ∧ matches r u.
Proof.
  revert r. induction s as [|c s IH]; intros r H.
  - simpl in H. rewrite orb_false_r in H. exists EmptyString, EmptyString.
    split; [done|]. by apply matches_nullable.
  - cbn [Re.match_prefix] in H. apply orb_prop in H as [H|H].
    + exists EmptyString, (String c s). split; [done|]. by apply matches_nullable.
    + destruct (IH _ H) as (u & v & -> & Hu).
      exists (String c u), v. split; [done|]. by apply matches_deriv.
Qed.

Lemma search_sound (r : Re.re) (s : string) :
  Re.search r s = true → ∃ pre u post, s = pre +:+ u +:+ post ∧ matches r u.
Proof.
  induction s as [|c s IH]; intros H; cbn [Re.search] in H.
  - rewrite orb_false_r in H.
    destruct (match_prefix_sound _ _ H) as (u & v & Hs & Hu).
    exists EmptyString, u, v. by rewrite string_app_nil.
  - apply orb_prop in H as [H|H].
    + destruct (match_prefix_sound _ _ H) as (u & v & Hs & Hu).
      exists EmptyString, u, v. by rewrite string_app_nil.
    + destruct (IH H) as (pre & u & post & -> & Hu).
      exists (String c pre), u, post. done.
Qed.

Lemma match_prefix_app (r : Re.re) (x y : string) :
  Re.match_prefix r x = true → Re.match_prefix r (x +:+ y) = true.
Proof.
  revert r. induction x as [|c x IH]; intros r H.
  - simpl in H. rewrite orb_false_r in H. rewrite string_app_nil.
    destruct y; simpl; by rewrite H.
  - rewrite string_app_cons. cbn [Re.match_prefix] in *.
    apply orb_prop in H as [->|H]; [done|]. rewrite (IH _ H). apply orb_true_r.
Qed.

Lemma matches_Str (lit u : string) : matches (Re.Str lit) u → u = lit.
Proof.
  revert u. induction lit as [|c lit IH]; intros u H; simpl in H.
  - by inversion H.
  - inversion H as [| |? ? a b Ha Hb| | | |]; subst.
    inversion Ha as [|? c' Hc| | | | |]; subst. simpl in Hc.
    apply bool_decide_eq_true in Hc as ->.
    rewrite string_app_cons, string_app_nil. f_equal. by apply IH.
Qed.

(** A match of [Str lit] followed by anything starts with [lit]. *)
Lemma matches_Str_Cat (lit : string) (r : Re.re) (u : string) :
  matches (Re.Cat (Re.Str lit) r) u → ∃ v, u = lit +:+ v ∧ matches r v.
Proof.
  intros H. inversion H as [| |? ? a b Ha Hb| | | |]; subst.
  apply matches_Str in Ha as ->. by exists b.
Qed.

(** *** Substrings *)

Lemma starts_with_app (sub x y : string) :
  PyStr.starts_with sub x = true → PyStr.starts_with sub (x +:+ y) = true.
Proof.
  revert x. induction sub as [|a sub IH]; intros x H; [done|].
  destruct x as [|b x]; [done|]. rewrite string_app_cons. simpl in *.
  apply andb_prop in H as [-> H]. by rewrite IH.
Qed.

Lemma starts_with_self (sub y : string) : PyStr.starts_with sub (sub +:+ y) = true.
Proof.
  induction sub as [|a sub IH]; [done|]. rewrite string_app_cons. simpl.
  by rewrite bool_decide_eq_true_2.
Qed.

Lemma contains_app_l (sub x y : string) :
  PyStr.contains sub x = true → PyStr.contains sub (x +:+ y) = true.
Proof.
  induction x as [|c x IH]; intros H.
  - simpl in H. rewrite orb_false_r in H. rewrite string_app_nil.
    destruct sub; [by destruct y|done].
  - rewrite string_app_cons. cbn [PyStr.contains] in *.
    apply orb_prop in H as [H|H].
    + rewrite <- string_app_cons. by rewrite (starts_with_app _ _ _ H).
    + rewrite (IH H). apply orb_true_r.
Qed.

Lemma contains_app_r (sub x y : string) :
  PyStr.contains sub y = true → PyStr.contains sub (x +:+ y) = true.
Proof.
  intros H. induction x as [|c x IH]; [done|].
  rewrite string_app_cons. cbn [PyStr.contains]. rewrite IH. apply orb_true_r.
Qed.

Lemma contains_starts (sub s : string) :
  PyStr.starts_with sub s = true → PyStr.contains sub s = true.
Proof. intros H. destruct s; cbn [PyStr.contains]; by rewrite H. Qed.

Lemma contains_middle (sub pre post : string) :
  PyStr.contains sub (pre +:+ sub +:+ post) = true.
Proof. apply contains_app_r, contains_starts, starts_with_self. Qed.

Lemma contains2_app (a b : ascii) (x y : string) :
  PyStr.contains (String a (String b EmptyString)) x = false →
  PyStr.contains (String a (String b EmptyString)) y = false →
  PyStr.starts_with (String b EmptyString) y = false →
  PyStr.contains (String a (String b EmptyString)) (x +:+ y) = false.
Proof.
  intros Hx Hy Hb. induction x as [|c x IH]; [by rewrite string_app_nil|].
  rewrite string_app_cons. cbn [PyStr.contains] in *.
  apply orb_false_elim in Hx as [Hs Hx]. rewrite (IH Hx), orb_false_r.
  cbn [PyStr.starts_with] in *. destruct (bool_decide (a = c)); [|done].
  simpl in *. destruct x as [|d x]; [by rewrite string_app_nil|].
  by rewrite string_app_cons.
Qed.

Lemma all_chars_app (p : ascii → bool) (x y : string) :
  PyStr.all_chars p (x +:+ y) = PyStr.all_chars p x && PyStr.all_chars p y.
Proof.
  induction x as [|c x IH]; [done|]. rewrite string_app_cons. simpl.
  by rewrite IH, andb_assoc.
Qed.

Lemma starts_with_char (c : ascii) (s : string) :
  PyStr.starts_with (String c EmptyString) s = true → ∃ t, s = String c t.
Proof.
  destruct s as [|d s]; [done|]. simpl. rewrite andb_true_r.
  intros ->%bool_decide_eq_true. by eexists.
Qed.

(** *** Reversal and stripping *)

Lemma string_app_nil_r (s : string) : s +:+ EmptyString = s.
Proof. induction s as [|c s IH]; [done|]. by rewrite string_app_cons, IH. Qed.

Lemma rev_onto_rev_onto (s acc acc' : string) :
  PyStr.rev_onto (PyStr.rev_onto s acc) acc' = PyStr.rev_onto acc (s +:+ acc').
Proof.
  revert acc acc'. induction s as [|c s IH]; intros acc acc'; [done|].
  simpl. by rewrite IH.
Qed.

Lemma rev_involutive (s : string) : PyStr.rev (PyStr.rev s) = s.
Proof. unfold PyStr.rev. rewrite rev_onto_rev_onto. simpl. apply string_app_nil_r. Qed.

Lemma rev_app (x y : string) : PyStr.rev (x +:+ y) = PyStr.rev y +:+ PyStr.rev x.
Proof. unfold PyStr.rev at 1. rewrite rev_onto_app. apply rev_onto_acc. Qed.

(** A string whose last character [p] rejects loses nothing to the right. *)
Lemma rstrip_fixed (p : ascii → bool) (s : string) (c : ascii) (t : string) :
  PyStr.rev s = String c t → p c = false →
  PyStr.rev (PyStr.drop_while p (PyStr.rev s)) = s.
Proof. intros Hrev Hc. rewrite Hrev. simpl. rewrite Hc, <- Hrev. apply rev_involutive. Qed.

(** *** Splitting in lines *)

Lemma split_no_sep (sep : ascii) (x : string) :
  PyStr.all_chars (Distill.is_not sep) x = true → PyStr.split sep x = [x].
Proof.
  induction x as [|c x IH]; [done|]. simpl. intros H.
  apply andb_prop in H as [Hc H]. unfold Distill.is_not in Hc.
  apply negb_true_iff in Hc. rewrite Hc, (IH H). done.
Qed.

Lemma split_app (sep : ascii) (x y : string) :
  PyStr.all_chars (Distill.is_not sep) x = true →
  PyStr.split sep (x +:+ String sep y) = x :: PyStr.split sep y.
Proof.
  induction x as [|c x IH]; intros H.
  - rewrite string_app_nil. cbn [PyStr.split]. by rewrite bool_decide_eq_true_2.
  - rewrite string_app_cons. cbn [PyStr.split]. simpl in H.
    apply andb_prop in H as [Hc H]. unfold Distill.is_not in Hc.
    apply negb_true_iff in Hc. rewrite Hc, (IH H). done.
Qed.

Lemma split_line (x rest : string) :
  PyStr.all_chars (Distill.is_not PyStr.nl) x = true →
  PyStr.split PyStr.nl (x +:+ PyStr.chr PyStr.nl +:+ rest)
  = x :: PyStr.split PyStr.nl rest.
Proof. intros H. exact (split_app PyStr.nl x rest H). Qed.

Lemma split_line2 (a b rest : string) :
  PyStr.all_chars (Distill.is_not PyStr.nl) a = true →
  PyStr.all_chars (Distill.is_not PyStr.nl) b = true →
  PyStr.split PyStr.nl (a +:+ b +:+ PyStr.chr PyStr.nl +:+ rest)
  = (a +:+ b) :: PyStr.split PyStr.nl rest.
Proof.
  intros Ha Hb. rewrite <- string_app_assoc. apply split_line.
  by rewrite all_chars_app, Ha, Hb.
Qed.

Lemma split_blank (rest : string) :
  PyStr.split PyStr.nl (PyStr.chr PyStr.nl +:+ rest)
  = EmptyString :: PyStr.split PyStr.nl rest.
Proof. exact (split_line EmptyString rest eq_refl). Qed.

(** *** The lines of a rendered scenario *)

Lemma catalog_factor_facts (f : string) :
  f ∈ factors →
  PyStr.starts_with "F" f = true
  ∧ PyStr.starts_with ")" (PyStr.rev f) = true
  ∧ PyStr.contains "Sc" f = false
  ∧ PyStr.contains "TS" f = false
  ∧ PyStr.all_chars (Distill.is_not PyStr.nl) f = true
  ∧ Re.match_prefix factor_pattern f = true.
Proof.
  revert f. apply Forall_forall. unfold factors.
  repeat (apply Forall_cons_2; [vm_compute; by repeat split|]).
  apply Forall_nil_2.
Qed.

Lemma separator_chars :
  separator
  = String "," (String PyStr.backslash (String "n" (String PyStr.tab EmptyString))).
Proof. reflexivity. Qed.

Lemma join_cons2 (sep x y : string) (l : list string) :
  PyStr.join sep (x :: y :: l) = x +:+ sep +:+ PyStr.join sep (y :: l).
Proof. reflexivity. Qed.

(** A joined section starts and ends as a factor does and holds neither a
    line break nor the capitals of a section header. *)
Lemma joined_section_facts (f : string) (l : list string) :
  f ∈ factors → l ⊆ factors →
  let joined := PyStr.join separator (f :: l) in
  PyStr.starts_with "F" joined = true
  ∧ PyStr.starts_with ")" (PyStr.rev joined) = true
  ∧ PyStr.contains "Sc" joined = false
  ∧ PyStr.contains "TS" joined = false
  ∧ PyStr.all_chars (Distill.is_not PyStr.nl) joined = true
  ∧ Re.match_prefix factor_pattern joined = true.
Proof.
  revert f. induction l as [|g l IH]; intros f Hf Hl; [by apply catalog_factor_facts|].
  cbv zeta. rewrite join_cons2.
  destruct (catalog_factor_facts f Hf) as (HF & Hend & HSc & HTS & Hnl & Hpat).
  assert (Hg : g ∈ factors) by (apply Hl; by left).
  assert (Hl' : l ⊆ factors) by (intros x Hx; apply Hl; by right).
  destruct (IH g Hg Hl') as (HF' & Hend' & HSc' & HTS' & Hnl' & _).
  set (rest := PyStr.join separator (g :: l)) in *.
  destruct (starts_with_char _ _ HF') as [t Hrest].
  split; [by apply starts_with_app|]. split.
  { rewrite !rev_app. by do 2 apply starts_with_app. }
  split.
  { apply contains2_app; [done| |by rewrite separator_chars, string_app_cons].
    apply contains2_app; [done|done|by rewrite Hrest]. }
  split.
  { apply contains2_app; [done| |by rewrite separator_chars, string_app_cons].
    apply contains2_app; [done|done|by rewrite Hrest]. }
  split; [by rewrite !all_chars_app, Hnl, Hnl'|].
  by apply match_prefix_app.
Qed.

Lemma search_input_pattern_Sc (s : string) :
  Re.search input_pattern s = true → PyStr.contains "Sc" s = true.
Proof.
  intros H. apply search_sound in H as (pre & u & post & -> & Hu).
  unfold input_pattern in Hu. apply matches_Str_Cat in Hu as (v & -> & Hv).
  inversion Hv as [| |? ? a b Ha Hb| | | |]; subst.
  apply (matches_Str "Scenario") in Hb as ->.
  apply contains_app_r, contains_app_l, contains_app_r, contains_app_r. reflexivity.
Qed.

Lemma search_tsc_pattern_TS (digit s : string) :
  Re.search (Re.Cat (Re.Str "TSC") (Re.Cat (Re.Plus (Re.Sym Re.Space)) (Re.Str digit))) s
  = true →
  PyStr.contains "TS" s = true.
Proof.
  intros H. apply search_sound in H as (pre & u & post & -> & Hu).
  apply matches_Str_Cat in Hu as (v & -> & Hv).
  apply contains_app_r, contains_app_l, contains_app_l. reflexivity.
Qed.

Lemma scan_line_factor (st : scan_state) (line joined : string) :
  PyStr.strip line = joined →
  PyStr.starts_with "F" joined = true →
  PyStr.starts_with ")" (PyStr.rev joined) = true →
  PyStr.contains "Sc" joined = false →
  PyStr.contains "TS" joined = false →
  Re.match_prefix factor_pattern joined = true →
  scan_line st line = append_factor joined st.
Proof.
  intros Hstrip HF Hend HSc HTS Hpat.
  assert (Hin : Re.search input_pattern joined = false).
  { destruct (Re.search input_pattern joined) eqn:H; [|done].
    apply search_input_pattern_Sc in H. congruence. }
  assert (H1 : Re.search tsc1_pattern joined = false).
  { destruct (Re.search tsc1_pattern joined) eqn:H; [|done].
    apply search_tsc_pattern_TS in H. congruence. }
  assert (H2 : Re.search tsc2_pattern joined = false).
  { destruct (Re.search tsc2_pattern joined) eqn:H; [|done].
    apply search_tsc_pattern_TS in H. congruence. }
  assert (Hf : Re.search factor_pattern joined = true).
  { destruct joined; cbn [Re.search]; by rewrite Hpat. }
  destruct (starts_with_char _ _ HF) as [t Ht].
  destruct (starts_with_char _ _ Hend) as [t' Ht'].
  assert (Hfix : PyStr.rstrip_char "," (PyStr.strip joined) = joined).
  { assert (Hs : PyStr.strip joined = joined).
    { unfold PyStr.strip, PyStr.lstrip, PyStr.rstrip. rewrite Ht at 1.
      cbn [PyStr.drop_while]. change (PyStr.is_space "F") with false.
      cbv iota. rewrite <- Ht. by apply (rstrip_fixed _ _ _ _ Ht'). }
    rewrite Hs. unfold PyStr.rstrip_char. by apply (rstrip_fixed _ _ _ _ Ht'). }
  unfold scan_line. rewrite Hstrip. cbv zeta.
  rewrite Hin, H1, H2, Hf, Hfix. rewrite Ht at 1. reflexivity.
Qed.

Lemma scan_line_section (st : scan_state) (items : list string) :
  items ⊆ factors →
  scan_line st (PyStr.chr PyStr.tab +:+ PyStr.join separator items)
  = match items with
    | [] => st
    | _ => append_factor (PyStr.join separator items) st
    end.
Proof.
  intros Hsub. destruct items as [|f l]; [reflexivity|].
  assert (Hf : f ∈ factors) by (apply Hsub; by left).
  assert (Hl : l ⊆ factors) by (intros x Hx; apply Hsub; by right).
  destruct (joined_section_facts f l Hf Hl) as (HF & Hend & HSc & HTS & _ & Hpat).
  apply scan_line_factor; try done.
  destruct (starts_with_char _ _ HF) as [t Ht].
  destruct (starts_with_char _ _ Hend) as [t' Ht'].
  unfold PyStr.strip, PyStr.lstrip, PyStr.rstrip.
  change (PyStr.chr PyStr.tab +:+ PyStr.join separator (f :: l))
    with (String PyStr.tab (PyStr.join separator (f :: l))).
  cbn [PyStr.drop_while]. change (PyStr.is_space PyStr.tab) with true. cbv iota.
  rewrite Ht at 1. cbn [PyStr.drop_while]. change (PyStr.is_space "F") with false.
  cbv iota. rewrite <- Ht. by apply (rstrip_fixed _ _ _ _ Ht').
Qed.

Lemma joined_no_line_break (items : list string) :
  items ⊆ factors →
  PyStr.all_chars (Distill.is_not PyStr.nl) (PyStr.join separator items) = true.
Proof.
  intros Hsub. destruct items as [|f l]; [reflexivity|].
  apply joined_section_facts; [apply Hsub; by left|].
  intros x Hx. apply Hsub. by right.
Qed.

Lemma template_lines (outcome1 outcome2 i t1 t2 : string) :
  PyStr.all_chars (Distill.is_not PyStr.nl) outcome1 = true →
  PyStr.all_chars (Distill.is_not PyStr.nl) outcome2 = true →
  PyStr.all_chars (Distill.is_not PyStr.nl) i = true →
  PyStr.all_chars (Distill.is_not PyStr.nl) t1 = true →
  PyStr.all_chars (Distill.is_not PyStr.nl) t2 = true →
  PyStr.split PyStr.nl (prompt_template outcome1 outcome2 i t1 t2)
  = [ EmptyString; "Input Scenario "; PyStr.chr PyStr.tab +:+ i; EmptyString;
      "TSC 1"; "outcome " +:+ outcome1; PyStr.chr PyStr.tab +:+ t1; EmptyString;
      "TSC 2"; "outcome " +:+ outcome2; PyStr.chr PyStr.tab +:+ t2; EmptyString ].
Proof.
  intros Ho1 Ho2 Hi H1 H2. unfold prompt_template.
  rewrite split_blank.
  rewrite (split_line "Input Scenario ") by done.
  rewrite split_line2 by done.
  rewrite split_blank.
  rewrite (split_line "TSC 1") by done.
  rewrite split_line2 by done.
  rewrite split_line2 by done.
  rewrite split_blank.
  rewrite (split_line "TSC 2") by done.
  rewrite split_line2 by done.
  rewrite <- (string_app_nil_r (PyStr.chr PyStr.nl)) at 1.
  rewrite split_line2 by done. reflexivity.
Qed.

Lemma extract_of_template (outcome1 outcome2 : string) (i t1 t2 : list string) :
  outcome1 = "Plaintiff" ∨ outcome1 = "Defendant" →
  outcome2 = "Plaintiff" ∨ outcome2 = "Defendant" →
  i ⊆ factors → t1 ⊆ factors → t2 ⊆ factors →
  extract_case_factors
    (prompt_template outcome1 outcome2 (PyStr.join separator i)
       (PyStr.join separator t1) (PyStr.join separator t2))
  = CaseFactors (section_read_back i) (section_read_back t1) (section_read_back t2).
Proof.
  intros Ho1 Ho2 Hi H1 H2. unfold extract_case_factors.
  rewrite template_lines;
    [|by destruct Ho1 as [->| ->]|by destruct Ho2 as [->| ->]
     |by apply joined_no_line_break..].
  cbn [foldl].
  assert (Hout : ∀ st o, o = "Plaintiff" ∨ o = "Defendant" →
                         scan_line st ("outcome " +:+ o) = st).
  { by intros st o [->| ->]. }
  change (scan_line (ScanState None (CaseFactors [] [] [])) EmptyString)
    with (ScanState None (CaseFactors [] [] [])).
  change (scan_line (ScanState None (CaseFactors [] [] [])) "Input Scenario ")
    with (ScanState (Some SecInput) (CaseFactors [] [] [])).
  rewrite (scan_line_section _ i Hi).
  set (st1 := match i with [] => _ | _ => _ end).
  change (scan_line st1 EmptyString) with st1.
  change (scan_line st1 "TSC 1") with (ScanState (Some SecTsc1) (scanned st1)).
  rewrite (Hout _ _ Ho1), (scan_line_section _ t1 H1).
  set (st2 := match t1 with [] => _ | _ => _ end).
  change (scan_line st2 EmptyString) with st2.
  change (scan_line st2 "TSC 2") with (ScanState (Some SecTsc2) (scanned st2)).
  rewrite (Hout _ _ Ho2), (scan_line_section _ t2 H2).
  set (st3 := match t2 with [] => _ | _ => _ end).
  change (scan_line st3 EmptyString) with st3.
  unfold st3, st2, st1. by destruct i, t1, t2.
Qed.

Lemma section_read_back_same (items : list string) :
  section_read_back items = items ↔ (length items ≤ 1)%nat.
Proof.
  destruct items as [|x [|y l]]; simpl.
  - split; [lia|done].
  - split; [lia|done].
  - split; [discriminate|lia].
Qed.

Lemma section_read_back_length (items : list string) :
  (length (section_read_back items) ≤ 1)%nat.
Proof. destruct items; simpl; lia. Qed.

(** X15: the scenario text of [render], which [update_tsc] returns and
    [generate_initial_prompt] would return, read back by
    [extract_case_factors], for any three lists of catalog factors.  A section
    without factors reads back as empty; a section with factors reads back as
    ONE string, the factors joined by the separator (a comma, a backslash, the
    letter n and a tab), since the text holds no line break between them.
    So at most three factors are found in the text, and the three lists are
    read back as they were rendered exactly when none of them has two or
    more factors. *)
Theorem rendered_sections_read_back (reordered : bool) (i t1 t2 : list string) :
  i ⊆ factors → t1 ⊆ factors → t2 ⊆ factors →
  let read := extract_case_factors (render reordered i t1 t2) in
  read = CaseFactors (section_read_back i) (section_read_back t1) (section_read_back t2)
  ∧ (original_total read ≤ 3)%nat
  ∧ (read = CaseFactors i t1 t2
     ↔ (length i ≤ 1)%nat ∧ (length t1 ≤ 1)%nat ∧ (length t2 ≤ 1)%nat).
Proof.
  intros Hi H1 H2 read.
  assert (Hread : read = CaseFactors (section_read_back i) (section_read_back t1)
                           (section_read_back t2)).
  { unfold read, render. destruct reordered; apply extract_of_template; auto. }
  split; [exact Hread|]. rewrite Hread. split.
  - unfold original_total. simpl.
    pose proof (section_read_back_length i). pose proof (section_read_back_length t1).
    pose proof (section_read_back_length t2). lia.
  - rewrite <- !section_read_back_same. split.
    + by intros [= -> -> ->].
    + by intros (-> & -> & ->).
Qed.

Lemma rendered_sections_read_back_witness :
  let read := extract_case_factors
                (render false (input_factors drawn_scenario) (tsc1 drawn_scenario)
                   (tsc2 drawn_scenario)) in
  read = CaseFactors (section_read_back (input_factors drawn_scenario))
           (section_read_back (tsc1 drawn_scenario))
           (section_read_back (tsc2 drawn_scenario))
  ∧ (original_total read ≤ 3)%nat.
Proof.
  assert (Hi : input_factors drawn_scenario ⊆ factors)
    by (apply (bool_decide_unpack _); vm_compute; exact I).
  assert (H1 : tsc1 drawn_scenario ⊆ factors)
    by (apply (bool_decide_unpack _); vm_compute; exact I).
  assert (H2 : tsc2 drawn_scenario ⊆ factors)
    by (apply (bool_decide_unpack _); vm_compute; exact I).
  pose proof (rendered_sections_read_back false _ _ _ Hi H1 H2) as H.
  exact (conj (proj1 H) (proj1 (proj2 H))).
Defined.

(** ** File names *)

Lemma datasets_mode_values (mode : string) :
  datasets_mode mode = "unarguable" ∨ datasets_mode mode = "reordered"
  ∨ datasets_mode mode = "arguable".
Proof.
  unfold datasets_mode, map_mode.
  destruct (MODE_MAPPING !! mode) as [v|] eqn:H.
  - unfold MODE_MAPPING in H.
    apply lookup_insert_Some in H as [[_ <-]|[_ H]]; [by left|].
    apply lookup_insert_Some in H as [[_ <-]|[_ H]]; [by right; left|].
    apply lookup_insert_Some in H as [[_ <-]|[_ H]]; [by right; right|].
    by rewrite lookup_empty in H.
  - case_decide as Hin; [|by left].
    rewrite dict_values_MODE_MAPPING in Hin.
    rewrite !elem_of_cons in Hin. destruct Hin as [->|[->|[->|Hnil]]]; auto.
    by apply elem_of_nil in Hnil.
Qed.

Lemma all_chars_impl (p q : ascii → bool) (s : string) :
  (∀ c, p c = true → q c = true) →
  PyStr.all_chars p s = true → PyStr.all_chars q s = true.
Proof.
  intros Hpq. induction s as [|c s IH]; [done|]. simpl. intros H.
  apply andb_prop in H as [Hc H]. by rewrite (Hpq c Hc), IH.
Qed.

Lemma digit_or_sign_char (c : ascii) :
(PyStr.is_digit c || bool_decide (c = "-"%char)) = true →
  Distill.is_not "_" c = true ∧ Distill.is_not "." c = true
  ∧ Distill.is_not "/" c = true ∧ Distill.is_not "c" c = true
  ∧ Distill.is_not PyStr.backslash c = true.
Proof.
  destruct c as [[] [] [] [] [] [] [] []]; vm_compute; intros H;
    first [discriminate H | by repeat split].
Qed.

Lemma digit_is_digit_or_sign (c : ascii) :
  PyStr.is_digit c = true → (PyStr.is_digit c || bool_decide (c = "-"%char)) = true.
Proof. by intros ->. Qed.

(** The characters of [str(z)]. *)
Lemma py_str_int_chars (z : Z) :
  py_str_int z ≠ EmptyString
  ∧ PyStr.all_chars (λ c, PyStr.is_digit c || bool_decide (c = "-"%char)) (py_str_int z)
    = true
  ∧ Path.isdigit (py_str_int z) = (0 <=? z)%Z.
Proof.
  unfold py_str_int. destruct (Z.ltb_spec z 0) as [Hz|Hz].
  - destruct (dec_spec (Z.to_nat (- z))) as (Hne & Hall & _).
    rewrite string_app_cons, string_app_nil. split; [done|]. split.
    + simpl. by apply (all_chars_impl PyStr.is_digit); [apply digit_is_digit_or_sign|].
    + destruct (Z.leb_spec 0 z); [lia|]. reflexivity.
  - destruct (dec_spec (Z.to_nat z)) as (Hne & Hall & _).
    split; [done|]. split.
    + by apply (all_chars_impl PyStr.is_digit); [apply digit_is_digit_or_sign|].
    + destruct (Z.leb_spec 0 z); [|lia]. unfold Path.isdigit.
      by destruct (PyStr.dec (Z.to_nat z)).
Qed.

Lemma take_while_stop (p : ascii → bool) (x : string) (c : ascii) (rest : string) :
  PyStr.all_chars p x = true → p c = false →
  PyStr.take_while p (x +:+ String c rest) = x
  ∧ PyStr.drop_while p (x +:+ String c rest) = String c rest.
Proof.
  intros Hx Hc. induction x as [|d x IH].
  - rewrite string_app_nil. simpl. by rewrite Hc.
  - rewrite string_app_cons. simpl in *. apply andb_prop in Hx as [-> Hx].
    destruct (IH Hx) as [-> ->]. done.
Qed.

Lemma take_while_all (p : ascii → bool) (x : string) :
  PyStr.all_chars p x = true → PyStr.take_while p x = x.
Proof.
  induction x as [|d x IH]; [done|]. simpl. intros H.
  apply andb_prop in H as [-> H]. by rewrite IH.
Qed.

Lemma basename_no_slash (s : string) :
  PyStr.all_chars (Distill.is_not "/") s = true → Path.basename s = s.
Proof.
  intros H. unfold Path.basename. rewrite take_while_all by (by rewrite all_chars_rev).
  apply rev_involutive.
Qed.

(** *** Splitting at a word *)

Lemma split_go_skip (sep x rest : string) :
  Path.split_go sep (String.length x) (x +:+ rest) = Path.split_go sep 0 rest.
Proof.
  induction x as [|c x IH]; [by destruct rest|].
  rewrite string_app_cons. simpl. exact IH.
Qed.

Lemma split_go_unfold (sep : string) (c : ascii) (s : string) :
  Path.split_go sep 0 (String c s)
  = if PyStr.starts_with sep (String c s)
    then EmptyString :: Path.split_go sep (String.length sep - 1) s
    else match Path.split_go sep 0 s with
         | [] => [PyStr.chr c]
         | w :: ws => String c w :: ws
         end.
Proof. reflexivity. Qed.

Lemma split_go_sep (a : ascii) (sep' rest : string) :
  Path.split_go (String a sep') 0 (String a sep' +:+ rest)
  = EmptyString :: Path.split_go (String a sep') 0 rest.
Proof.
  pose proof (starts_with_self (String a sep') rest) as Hs.
  rewrite string_app_cons in *. rewrite split_go_unfold, Hs.
  replace (String.length (String a sep') - 1)%nat with (String.length sep')
    by (simpl; lia).
  by rewrite split_go_skip.
Qed.

Lemma split_go_char (sep : string) (c : ascii) (rest w : string) (ws : list string) :
  PyStr.starts_with sep (String c rest) = false →
  Path.split_go sep 0 rest = w :: ws →
  Path.split_go sep 0 (String c rest) = String c w :: ws.
Proof. intros Hs Hrest. by rewrite split_go_unfold, Hs, Hrest. Qed.

Lemma split_go_pass (a : ascii) (sep' x rest w : string) (ws : list string) :
  PyStr.all_chars (Distill.is_not a) x = true →
  Path.split_go (String a sep') 0 rest = w :: ws →
  Path.split_go (String a sep') 0 (x +:+ rest) = (x +:+ w) :: ws.
Proof.
  intros Hx Hrest. induction x as [|c x IH]; [by rewrite !string_app_nil|].
  rewrite !string_app_cons. simpl in Hx. apply andb_prop in Hx as [Hc Hx].
  apply split_go_char; [|by apply IH].
  simpl. unfold Distill.is_not in Hc. apply negb_true_iff, bool_decide_eq_false in Hc.
  rewrite bool_decide_eq_false_2; [done|]. congruence.
Qed.

Lemma split_go_none (a : ascii) (sep' x : string) :
  PyStr.all_chars (Distill.is_not a) x = true →
  Path.split_go (String a sep') 0 x = [x].
Proof.
  intros Hx. rewrite <- (string_app_nil_r x) at 1.
  rewrite (split_go_pass a sep' x EmptyString EmptyString []) by done.
  by rewrite string_app_nil_r.
Qed.

(** *** Reading a name by its parts *)

Lemma match_nonempty {A : Type} (s : string) (a b : A) :
  s ≠ EmptyString →
  match s with EmptyString => a | String _ _ => b end = b.
Proof. by destruct s. Qed.

(** A name of four parts whose second part is [factor]. *)
Lemma info_from_parts_of (basename m n k : string) :
  PyStr.split "_" basename = [m; "factor"; n; k] →
  m ≠ "factor" → m ∉ known_prefixes → m ≠ "unknown" →
  info_from_parts basename
  = FileInfo m "factor"
      (if Path.isdigit n then n
       else if negb (PyStr.starts_with "complexity" n) then n else "0")
      (if PyStr.contains "complexity" basename then
         if Path.isdigit (Path.last_item (Path.split_str "complexity" basename))
         then Path.last_item (Path.split_str "complexity" basename) else "0"
       else "0").
Proof.
  intros Hparts Hm Hpre Hunk. unfold info_from_parts. rewrite Hparts.
  cbn [Path.index]. rewrite (bool_decide_eq_false_2 _ Hm).
  rewrite (bool_decide_eq_true_2 ("factor" = "factor") eq_refl).
  cbn [fmap option_fmap option_map Path.item nth length Nat.sub Nat.add Nat.ltb Nat.leb].
  rewrite (bool_decide_eq_false_2 (m ∈ known_prefixes) Hpre). cbn [andb negb].
  rewrite (bool_decide_eq_false_2 _ Hunk). cbn [andb].
  f_equal; try by destruct (bool_decide _).
Qed.

Lemma strip_prefix_factor (rest : string) :
  Path.strip_prefix "_factor_" (String "_" ("factor" +:+ String "_" rest)) = Some rest.
Proof. reflexivity. Qed.

Lemma strip_prefix_complexity (rest : string) :
  Path.strip_prefix "_complexity" (String "_" ("complexity" +:+ rest)) = Some rest.
Proof. reflexivity. Qed.

(** The pattern matches only a name that holds a backslash. *)
Lemma contains_drop_while (sub : string) (p : ascii → bool) (s : string) :
  PyStr.contains sub (PyStr.drop_while p s) = true → PyStr.contains sub s = true.
Proof.
  induction s as [|c s IH]; [done|]. simpl PyStr.drop_while.
  destruct (p c); [|done]. intros H. cbn [PyStr.contains]. rewrite (IH H).
  apply orb_true_r.
Qed.

Lemma contains_drop (sub : string) (n : nat) (s : string) :
  PyStr.contains sub (Distill.drop n s) = true → PyStr.contains sub s = true.
Proof.
  revert s. induction n as [|n IH]; intros s; [done|].
  destruct s as [|c s]; [done|]. simpl Distill.drop. intros H.
  cbn [PyStr.contains]. rewrite (IH _ H). apply orb_true_r.
Qed.

Lemma contains_strip_prefix (sub prefix s rest : string) :
  Path.strip_prefix prefix s = Some rest →
  PyStr.contains sub rest = true → PyStr.contains sub s = true.
Proof.
  unfold Path.strip_prefix. destruct (PyStr.starts_with prefix s); [|done].
  intros [= <-]. apply contains_drop.
Qed.

Lemma match_name_pattern_backslash (basename : string) (g : string * string * string) :
  match_name_pattern basename = Some g →
  PyStr.contains (PyStr.chr PyStr.backslash) basename = true.
Proof.
  unfold match_name_pattern.
  destruct (PyStr.take_while (Distill.is_not "_") basename); [done|].
  destruct (Path.strip_prefix "_factor_" _) as [rest|] eqn:H1; [|done].
  destruct (PyStr.take_while (Distill.is_not "_") rest); [done|].
  destruct (Path.strip_prefix "_complexity" _) as [[|c tail]|] eqn:H2; [done| |done].
  case_bool_decide as Hc; [|done]. subst c. intros _.
  apply contains_drop_while with (p := Distill.is_not "_").
  apply (contains_strip_prefix _ _ _ _ H1).
  apply contains_drop_while with (p := Distill.is_not "_").
  apply (contains_strip_prefix _ _ _ _ H2). reflexivity.
Qed.

(** *** The name that [generate_datasets] gives its file *)

Section GeneratedName.
Variables internal_mode number complexity_text : string.
Hypothesis internal_mode_value :
  internal_mode = "unarguable" ∨ internal_mode = "reordered"
  ∨ internal_mode = "arguable".
Hypothesis number_not_empty : number ≠ EmptyString.
Hypothesis number_chars :
  PyStr.all_chars (λ c, PyStr.is_digit c || bool_decide (c = "-"%char)) number = true.
Hypothesis complexity_not_empty : complexity_text ≠ EmptyString.
Hypothesis complexity_chars :
  PyStr.all_chars (λ c, PyStr.is_digit c || bool_decide (c = "-"%char)) complexity_text
  = true.

Lemma number_without (a : ascii) :
  (∀ c, (PyStr.is_digit c || bool_decide (c = "-"%char)) = true →
        Distill.is_not a c = true) →
  PyStr.all_chars (Distill.is_not a) number = true
  ∧ PyStr.all_chars (Distill.is_not a) complexity_text = true.
Proof. intros H. split; by apply (all_chars_impl _ _ _ H). Qed.

Lemma generated_prefix_shape :
  format_filename_prefix internal_mode "factor" number complexity_text
  = internal_mode
    +:+ String "_" ("factor"
                    +:+ String "_" (number
                                    +:+ String "_" ("complexity" +:+ complexity_text))).
Proof. reflexivity. Qed.

Lemma internal_mode_chars :
  PyStr.all_chars (Distill.is_not "_") internal_mode = true
  ∧ PyStr.all_chars (Distill.is_not "/") internal_mode = true
  ∧ PyStr.all_chars (Distill.is_not "c") internal_mode = true
  ∧ (internal_mode ∉ known_prefixes)
  ∧ internal_mode ≠ "factor" ∧ internal_mode ≠ "unknown"
  ∧ internal_mode ≠ EmptyString.
Proof.
  destruct internal_mode_value as [->|[->| ->]];
    repeat split; first [reflexivity | discriminate
                        | apply (bool_decide_unpack _); vm_compute; exact I].
Qed.

Lemma internal_mode_head (rest : string) :
  PyStr.starts_with "formatted_" (internal_mode +:+ rest) = false
  ∧ PyStr.all_chars (λ c, bool_decide (c = "."%char)) (internal_mode +:+ rest) = false.
Proof. destruct internal_mode_value as [->|[->| ->]]; split; reflexivity. Qed.

Lemma generated_name_parts :
  PyStr.split "_" (format_filename_prefix internal_mode "factor" number complexity_text)
  = [internal_mode; "factor"; number; "complexity" +:+ complexity_text].
Proof.
  destruct internal_mode_chars as (Hm & _).
  destruct (number_without "_" (λ c H, proj1 (digit_or_sign_char c H))) as [Hn Hc].
  rewrite generated_prefix_shape.
  rewrite (split_app "_" internal_mode) by done.
  rewrite (split_app "_" "factor") by done.
  rewrite (split_app "_" number) by done.
  rewrite split_no_sep; [done|]. by rewrite all_chars_app, Hc.
Qed.

Lemma generated_name_no_match :
  match_name_pattern
    (format_filename_prefix internal_mode "factor" number complexity_text) = None.
Proof.
  destruct internal_mode_chars as (Hm & _ & _ & _ & _ & _ & Hne).
  destruct (number_without "_" (λ c H, proj1 (digit_or_sign_char c H))) as [Hn _].
  destruct (number_without PyStr.backslash
              (λ c H, proj2 (proj2 (proj2 (proj2 (digit_or_sign_char c H))))))
    as [_ Hc].
  unfold match_name_pattern. rewrite generated_prefix_shape.
  rewrite (proj1 (take_while_stop _ internal_mode "_" _ Hm eq_refl)).
  rewrite (proj2 (take_while_stop _ internal_mode "_" _ Hm eq_refl)).
  rewrite (match_nonempty internal_mode) by done.
  rewrite strip_prefix_factor.
  rewrite (proj1 (take_while_stop _ number "_" _ Hn eq_refl)).
  rewrite (proj2 (take_while_stop _ number "_" _ Hn eq_refl)).
  rewrite (match_nonempty number) by done.
  rewrite strip_prefix_complexity.
  destruct complexity_text as [|c tail]; [done|].
  simpl in Hc. apply andb_prop in Hc as [Hc _].
  unfold Distill.is_not in Hc. apply negb_true_iff in Hc. by rewrite Hc.
Qed.

Lemma generated_name_complexity_part :
  Path.split_str "complexity"
    (format_filename_prefix internal_mode "factor" number complexity_text)
  = [(internal_mode +:+ "_fa") +:+ String "c" ("tor_" +:+ number +:+ "_");
     complexity_text].
Proof.
  destruct internal_mode_chars as (_ & _ & Hm & _).
  destruct (number_without "c"
              (λ c H, proj1 (proj2 (proj2 (proj2 (digit_or_sign_char c H))))))
    as [Hn Hc].
  unfold Path.split_str.
  pose proof (split_go_none "c" "omplexity" complexity_text Hc) as H0.
  pose proof (split_go_sep "c" "omplexity" complexity_text) as H1. rewrite H0 in H1.
  pose proof (split_go_pass "c" "omplexity" ("tor_" +:+ number +:+ "_") _ _ _
                ltac:(by rewrite !all_chars_app, Hn) H1) as H2.
  pose proof (split_go_char "complexity" "c"
                (("tor_" +:+ number +:+ "_") +:+ "complexity" +:+ complexity_text)
                _ _ eq_refl H2) as H3.
  pose proof (split_go_pass "c" "omplexity" (internal_mode +:+ "_fa") _ _ _
                ltac:(by rewrite all_chars_app, Hm) H3) as H4.
  rewrite string_app_nil_r in H4. rewrite <- H4. f_equal.
  unfold format_filename_prefix. rewrite !string_app_assoc. reflexivity.
Qed.

Lemma generated_name_info :
  info_from_parts (format_filename_prefix internal_mode "factor" number complexity_text)
  = FileInfo internal_mode "factor" number
      (if Path.isdigit complexity_text then complexity_text else "0").
Proof.
  destruct internal_mode_chars as (_ & _ & _ & Hpre & Hf & Hu & _).
  destruct (number_without "c"
              (λ c H, proj1 (proj2 (proj2 (proj2 (digit_or_sign_char c H))))))
    as [Hn _].
  rewrite (info_from_parts_of _ _ _ _ generated_name_parts Hf Hpre Hu).
  rewrite generated_name_complexity_part. cbn [Path.last_item List.last].
  assert (Hcontains : PyStr.contains "complexity"
            (format_filename_prefix internal_mode "factor" number complexity_text)
          = true).
  { rewrite generated_prefix_shape. apply contains_app_r.
    cbn [PyStr.contains]. rewrite (contains_app_r "complexity" "factor"); [apply orb_true_r|].
    cbn [PyStr.contains]. rewrite (contains_app_r "complexity" number); [apply orb_true_r|].
    reflexivity. }
  rewrite Hcontains. f_equal.
  assert (Hstart : PyStr.starts_with "complexity" number = false).
  { destruct number as [|c t]; [done|]. simpl in Hn. apply andb_prop in Hn as [Hc _].
    unfold Distill.is_not in Hc. apply negb_true_iff, bool_decide_eq_false in Hc.
    simpl. rewrite bool_decide_eq_false_2; [done|]. congruence. }
  rewrite Hstart. cbn [negb]. by destruct (Path.isdigit number).
Qed.

Lemma generated_name_read (filename : string) :
  Path.basename filename
  = format_filename_prefix internal_mode "factor" number complexity_text +:+ ".csv" →
  extract_info_from_filename filename
  = FileInfo internal_mode "factor" number
      (if Path.isdigit complexity_text then complexity_text else "0").
Proof.
  intros Hbase. unfold extract_info_from_filename. rewrite Hbase.
  rewrite (contains_app_r "." _ ".csv") by reflexivity.
  assert (Hroot : Path.splitext_root
                    (format_filename_prefix internal_mode "factor" number
                       complexity_text +:+ ".csv")
                  = format_filename_prefix internal_mode "factor" number complexity_text).
  { unfold Path.splitext_root. rewrite rev_app.
    change (PyStr.rev ".csv") with "vsc.". rewrite !string_app_cons, string_app_nil.
    cbn [PyStr.drop_while]. change (Distill.is_not "." "v") with true.
    change (Distill.is_not "." "s") with true. change (Distill.is_not "." "c") with true.
    change (Distill.is_not "." ".") with false. cbv iota.
    rewrite all_chars_rev, rev_involutive.
    unfold format_filename_prefix. by rewrite (proj2 (internal_mode_head _)). }
  assert (Hstrip : Path.strip_prefix "formatted_"
                     (format_filename_prefix internal_mode "factor" number
                        complexity_text) = None).
  { unfold Path.strip_prefix, format_filename_prefix.
    by rewrite (proj1 (internal_mode_head _)). }
  rewrite Hroot, Hstrip, generated_name_no_match. apply generated_name_info.
Qed.

Lemma generated_name_no_slash :
  PyStr.all_chars (Distill.is_not "/")
    (format_filename_prefix internal_mode "factor" number complexity_text +:+ ".csv")
  = true.
Proof.
  destruct internal_mode_chars as (_ & Hm & _).
  destruct (number_without "/" (λ c H, proj1 (proj2 (proj2 (digit_or_sign_char c H)))))
    as [Hn Hc].
  unfold format_filename_prefix. by rewrite !all_chars_app, Hm, Hn, Hc.
Qed.

End GeneratedName.

(** X16: the file name that [generate_datasets] builds is read back by
    [extract_info_from_filename], with or without a directory in front: the
    mode is the internal mode, the format is [factor], the number is the case
    number and the complexity is the complexity, for every mode name and
    every case number; a negative complexity is read as [0].  The pattern of
    [extract_info_from_filename] takes no part in it: it matches only names
    that hold a backslash, and the name is read by its parts.  The mode that
    [calculate_scores] takes from the name is an unarguable one exactly when
    the internal mode is [unarguable]. *)
Theorem generated_file_name_read_back (mode : string) (case_number complexity : Z)
    (filename : string) :
  Path.basename filename
  = dataset_filename (datasets_mode mode) case_number complexity →
  let info := extract_info_from_filename filename in
  info = FileInfo (datasets_mode mode) "factor" (py_str_int case_number)
           (if (0 <=? complexity)%Z then py_str_int complexity else "0")
  ∧ is_unarguable_mode (fi_mode info) = bool_decide (datasets_mode mode = "unarguable")
  ∧ Path.basename (dataset_filename (datasets_mode mode) case_number complexity)
    = dataset_filename (datasets_mode mode) case_number complexity
  ∧ match_name_pattern (filename_prefix (datasets_mode mode) case_number complexity)
    = None
  ∧ ∀ basename g, match_name_pattern basename = Some g →
                  PyStr.contains (PyStr.chr PyStr.backslash) basename = true.
Proof.
  intros Hbase info.
  pose proof (datasets_mode_values mode) as Hmode.
  destruct (py_str_int_chars case_number) as (Hn0 & Hn & _).
  destruct (py_str_int_chars complexity) as (Hc0 & Hc & Hdigit).
  assert (Hinfo : info = FileInfo (datasets_mode mode) "factor" (py_str_int case_number)
                           (if (0 <=? complexity)%Z then py_str_int complexity else "0")).
  { unfold info. rewrite <- Hdigit.
    by apply (generated_name_read _ _ _ Hmode Hn0 Hn Hc0 Hc). }
  split; [exact Hinfo|]. split.
  { rewrite Hinfo. cbn [fi_mode].
    destruct Hmode as [->|[->| ->]]; reflexivity. }
  split.
  { apply basename_no_slash. by apply generated_name_no_slash. }
  split; [by apply generated_name_no_match|].
  exact match_name_pattern_backslash.
Qed.

Lemma generated_file_name_read_back_witness :
  Path.basename "out/unarguable_factor_0_complexity5.csv"
  = dataset_filename (datasets_mode "non-arguable") 0 5
  ∧ extract_info_from_filename "out/unarguable_factor_0_complexity5.csv"
    = FileInfo "unarguable" "factor" "0" "5".
Proof.
  assert (H : Path.basename "out/unarguable_factor_0_complexity5.csv"
              = dataset_filename (datasets_mode "non-arguable") 0 5)
    by (vm_compute; reflexivity).
  split; [exact H|].
  exact (proj1 (generated_file_name_read_back "non-arguable" 0 5 _ H)).
Defined.

(** *** Directory, extension and prefix of a file name *)

Lemma contains_char_false (c : ascii) (s : string) :
  PyStr.all_chars (Distill.is_not c) s = true →
  PyStr.contains (String c EmptyString) s = false.
Proof.
  induction s as [|d s IH]; [done|]. simpl. intros H.
  apply andb_prop in H as [Hd H]. rewrite (IH H), orb_false_r, andb_true_r.
  unfold Distill.is_not in Hd. apply negb_true_iff, bool_decide_eq_false in Hd.
  apply bool_decide_eq_false_2. congruence.
Qed.

Lemma basename_after_slash (dir name : string) :
  PyStr.all_chars (Distill.is_not "/") name = true →
  Path.basename (dir +:+ "/" +:+ name) = name.
Proof.
  intros H. unfold Path.basename. rewrite !rev_app.
  change (PyStr.rev "/") with "/". rewrite string_app_assoc, string_app_cons, string_app_nil.
  rewrite (proj1 (take_while_stop _ (PyStr.rev name) "/" _
                    ltac:(by rewrite all_chars_rev) eq_refl)).
  apply rev_involutive.
Qed.

Lemma splitext_root_csv (name : string) :
  PyStr.all_chars (Distill.is_not ".") name = true → name ≠ EmptyString →
  Path.splitext_root (name +:+ ".csv") = name.
Proof.
  intros Hdot Hne. unfold Path.splitext_root. rewrite rev_app.
  change (PyStr.rev ".csv") with "vsc.". rewrite !string_app_cons, string_app_nil.
  cbn [PyStr.drop_while]. change (Distill.is_not "." "v") with true.
  change (Distill.is_not "." "s") with true. change (Distill.is_not "." "c") with true.
  change (Distill.is_not "." ".") with false. cbv iota.
  rewrite all_chars_rev, rev_involutive.
  destruct name as [|c t]; [done|]. simpl in *. apply andb_prop in Hdot as [Hc _].
  unfold Distill.is_not in Hc. apply negb_true_iff in Hc. by rewrite Hc.
Qed.

Lemma strip_prefix_self (prefix rest : string) :
  Path.strip_prefix prefix (prefix +:+ rest) = Some rest.
Proof.
  unfold Path.strip_prefix. rewrite starts_with_self. f_equal.
  induction prefix as [|c prefix IH]; [by destruct rest|].
  rewrite string_app_cons. exact IH.
Qed.

Lemma info_format_factor (filename : string) :
  fi_format (extract_info_from_filename filename) = "factor".
Proof.
  unfold extract_info_from_filename.
  destruct (match_name_pattern _) as [[[g1 g2] g3]|]; [reflexivity|].
  unfold info_from_parts. cbv zeta.
  destruct (Path.index "factor" _) as [idx|].
  - cbn [fi_format]. by destruct (bool_decide _).
  - destruct ((3 <=? _)%nat && _); [cbn [fi_format]; by destruct (bool_decide _)|].
    destruct ((_ =? 2)%nat && _); cbn [fi_format]; [by destruct (bool_decide _)|].
    rewrite bool_decide_eq_false_2; [done|]. intros H. by apply H.
Qed.

(** X17: what [extract_info_from_filename] does not look at.  For a name
    without slash and dot that does not start with [formatted_], the result is
    the same when a directory is put in front, when the extension [.csv] is
    added and when the name is prefixed with [formatted_], and with all three
    at once.  The format it returns is [factor] for every file name. *)
Theorem file_name_decorations_ignored (dir name : string) :
  PyStr.all_chars (Distill.is_not "/") name = true →
  PyStr.all_chars (Distill.is_not ".") name = true →
  name ≠ EmptyString →
  PyStr.starts_with "formatted_" name = false →
  let info := extract_info_from_filename name in
  extract_info_from_filename (dir +:+ "/" +:+ name) = info
  ∧ extract_info_from_filename (name +:+ ".csv") = info
  ∧ extract_info_from_filename ("formatted_" +:+ name) = info
  ∧ extract_info_from_filename (dir +:+ "/" +:+ "formatted_" +:+ name +:+ ".csv") = info
  ∧ ∀ filename, fi_format (extract_info_from_filename filename) = "factor".
Proof.
  intros Hslash Hdot Hne Hstart info.
  assert (Hstrip : Path.strip_prefix "formatted_" name = None).
  { unfold Path.strip_prefix. by rewrite Hstart. }
  assert (Hinfo : info = match match_name_pattern name with
                         | Some (g1, g2, g3) => FileInfo g1 "factor" g2 g3
                         | None => info_from_parts name
                         end).
  { unfold info, extract_info_from_filename.
    rewrite (basename_no_slash name Hslash), (contains_char_false "." name Hdot).
    by rewrite Hstrip. }
  assert (Hf : PyStr.all_chars (Distill.is_not "/") ("formatted_" +:+ name) = true
               ∧ PyStr.all_chars (Distill.is_not ".") ("formatted_" +:+ name) = true
               ∧ "formatted_" +:+ name ≠ EmptyString).
  { by rewrite !all_chars_app, Hslash, Hdot. }
  destruct Hf as (Hfs & Hfd & Hfn).
  assert (Hcsv : ∀ x, PyStr.all_chars (Distill.is_not "/") x = true →
                      PyStr.all_chars (Distill.is_not "/") (x +:+ ".csv") = true).
  { intros x Hx. by rewrite all_chars_app, Hx. }
  assert (Hdotcsv : ∀ x, PyStr.contains "." (x +:+ ".csv") = true).
  { intros x. by apply contains_app_r. }
  split; [|split; [|split; [|split]]].
  - rewrite Hinfo. unfold extract_info_from_filename.
    rewrite (basename_after_slash dir name Hslash), (contains_char_false "." name Hdot).
    by rewrite Hstrip.
  - rewrite Hinfo. unfold extract_info_from_filename.
    rewrite (basename_no_slash _ (Hcsv _ Hslash)), Hdotcsv.
    rewrite (splitext_root_csv name Hdot Hne). by rewrite Hstrip.
  - rewrite Hinfo. unfold extract_info_from_filename.
    rewrite (basename_no_slash _ Hfs), (contains_char_false "." _ Hfd).
    by rewrite strip_prefix_self.
  - rewrite Hinfo. unfold extract_info_from_filename.
    rewrite <- (string_app_assoc "formatted_" name ".csv").
    rewrite (basename_after_slash dir _ (Hcsv _ Hfs)), Hdotcsv.
    rewrite (splitext_root_csv _ Hfd Hfn). by rewrite strip_prefix_self.
  - exact info_format_factor.
Qed.

Lemma file_name_decorations_ignored_witness :
  extract_info_from_filename "results/formatted_arguable_factor_10_complexity5.csv"
  = extract_info_from_filename "arguable_factor_10_complexity5".
Proof.
  exact (proj1 (proj2 (proj2 (proj2
    (file_name_decorations_ignored "results" "arguable_factor_10_complexity5"
       eq_refl eq_refl ltac:(discriminate) eq_refl))))).
Defined.

(** ** A scenario text with a factor on every line *)

Lemma drop_while_app_all (p : ascii → bool) (x y : string) :
  PyStr.all_chars p x = true → PyStr.drop_while p (x +:+ y) = PyStr.drop_while p y.
Proof.
  induction x as [|c x IH]; [done|]. rewrite string_app_cons. simpl. intros H.
  apply andb_prop in H as [-> H]. by apply IH.
Qed.

Lemma contains2_without (a b : ascii) (y : string) :
  PyStr.all_chars (Distill.is_not a) y = true →
  PyStr.contains (String a (String b EmptyString)) y = false.
Proof.
  induction y as [|c y IH]; [done|]. simpl. intros H.
  apply andb_prop in H as [Hc H]. rewrite (IH H), orb_false_r.
  unfold Distill.is_not in Hc. apply negb_true_iff, bool_decide_eq_false in Hc.
  rewrite bool_decide_eq_false_2; [done|]. congruence.
Qed.

Lemma commas_chars (commas : string) :
  PyStr.all_chars (λ c, bool_decide (c = ","%char)) commas = true →
  PyStr.all_chars (Distill.is_not "S") commas = true
  ∧ PyStr.all_chars (Distill.is_not "T") commas = true
  ∧ PyStr.all_chars (Distill.is_not PyStr.nl) commas = true
  ∧ PyStr.starts_with "c" commas = false
  ∧ PyStr.starts_with "S" commas = false
  ∧ (commas = EmptyString ∨ ∃ t, PyStr.rev commas = String "," t).
Proof.
  intros H.
  assert (Hall : ∀ q : ascii → bool,
            q ","%char = true → PyStr.all_chars q commas = true).
  { intros q Hq. apply (all_chars_impl (λ c, bool_decide (c = ","%char))); [|done].
    by intros c ->%bool_decide_eq_true. }
  split; [by apply Hall|]. split; [by apply Hall|]. split; [by apply Hall|].
  assert (Hhead : ∀ s, PyStr.all_chars (λ c, bool_decide (c = ","%char)) s = true →
                       s = EmptyString ∨ ∃ t, s = String "," t).
  { intros [|c t]; [by left|]. simpl. intros Hs. apply andb_prop in Hs as [Hc _].
    apply bool_decide_eq_true in Hc as ->. right. by eexists. }
  split; [by destruct (Hhead _ H) as [->|[t ->]]|].
  split; [by destruct (Hhead _ H) as [->|[t ->]]|].
  destruct (Hhead (PyStr.rev commas)) as [Hnil|Ht]; [by rewrite all_chars_rev| |by right].
  left. by rewrite <- (rev_involutive commas), Hnil.
Qed.

(** A factor line is read as its factor. *)
Lemma scan_line_of_factor (st : scan_state) (line f : string) :
  f ∈ factors → factor_line_of line f → scan_line st line = append_factor f st.
Proof.
  intros Hf (indent & commas & -> & Hindent & Hcommas).
  destruct (catalog_factor_facts f Hf) as (HF & Hend & HSc & HTS & _ & Hpat).
  destruct (commas_chars commas Hcommas) as (HS & HT & _ & Hc & HSs & Hlast).
  destruct (starts_with_char _ _ HF) as [t Ht].
  destruct (starts_with_char _ _ Hend) as [t' Ht'].
  set (body := f +:+ commas).
  assert (Hbody : ∃ b, body = String "F" b).
  { unfold body. rewrite Ht, string_app_cons. by eexists. }
  assert (Hrev : ∃ c r, PyStr.rev body = String c r ∧ PyStr.is_space c = false).
  { unfold body. rewrite rev_app. destruct Hlast as [->|[r Hr]].
    - rewrite string_app_nil, Ht'. by exists ")"%char, t'.
    - rewrite Hr, string_app_cons. by exists ","%char, (r +:+ PyStr.rev f). }
  destruct Hbody as [b Hb]. destruct Hrev as (c & r & Hr & Hcsp).
  assert (Hstrip_body : PyStr.strip body = body).
  { unfold PyStr.strip, PyStr.lstrip, PyStr.rstrip. rewrite Hb at 1.
    cbn [PyStr.drop_while]. change (PyStr.is_space "F") with false. cbv iota.
    rewrite <- Hb. by apply (rstrip_fixed _ _ _ _ Hr). }
  assert (Hstrip : PyStr.strip (indent +:+ body) = body).
  { rewrite <- Hstrip_body at 2. unfold PyStr.strip, PyStr.lstrip. f_equal.
    rewrite drop_while_app_all; [done|].
    apply (all_chars_impl _ _ _ (λ x Hx, proj1 (andb_prop _ _ Hx)) Hindent). }
  assert (Hin : Re.search input_pattern body = false).
  { destruct (Re.search input_pattern body) eqn:H; [|done].
    apply search_input_pattern_Sc in H. unfold body in H.
    rewrite contains2_app in H; [done|done|by apply contains2_without|done]. }
  assert (Htsc : ∀ digit,
            Re.search (Re.Cat (Re.Str "TSC")
                         (Re.Cat (Re.Plus (Re.Sym Re.Space)) (Re.Str digit))) body
            = false).
  { intros digit.
    destruct (Re.search (Re.Cat (Re.Str "TSC")
                           (Re.Cat (Re.Plus (Re.Sym Re.Space)) (Re.Str digit))) body)
      eqn:H; [|done].
    apply search_tsc_pattern_TS in H. unfold body in H.
    rewrite contains2_app in H; [done|done|by apply contains2_without|done]. }
  assert (Hfp : Re.search factor_pattern body = true).
  { rewrite Hb. cbn [Re.search]. rewrite <- Hb. unfold body.
    by rewrite (match_prefix_app _ _ _ Hpat). }
  assert (Hfix : PyStr.rstrip_char "," (PyStr.strip body) = f).
  { rewrite Hstrip_body. unfold PyStr.rstrip_char, body. rewrite rev_app.
    rewrite drop_while_app_all by (by rewrite all_chars_rev).
    by apply (rstrip_fixed _ _ _ _ Ht'). }
  unfold scan_line. rewrite Hstrip. cbv zeta.
  change (Re.search tsc1_pattern body) with
    (Re.search (Re.Cat (Re.Str "TSC") (Re.Cat (Re.Plus (Re.Sym Re.Space)) (Re.Str "1")))
       body).
  change (Re.search tsc2_pattern body) with
    (Re.search (Re.Cat (Re.Str "TSC") (Re.Cat (Re.Plus (Re.Sym Re.Space)) (Re.Str "2")))
       body).
  rewrite Hin, !Htsc, Hfp, Hfix. rewrite Hb at 1. reflexivity.
Qed.

Lemma factor_line_no_break (line f : string) :
  f ∈ factors → factor_line_of line f →
  PyStr.all_chars (Distill.is_not PyStr.nl) line = true.
Proof.
  intros Hf (indent & commas & -> & Hindent & Hcommas).
  destruct (catalog_factor_facts f Hf) as (_ & _ & _ & _ & Hnl & _).
  destruct (commas_chars commas Hcommas) as (_ & _ & Hcnl & _).
  rewrite !all_chars_app, Hnl, Hcnl, andb_true_r.
  apply (all_chars_impl _ _ _ (λ x Hx, proj2 (andb_prop _ _ Hx)) Hindent).
Qed.

Lemma split_join_lines (line : string) (lines : list string) :
  Forall (λ l, PyStr.all_chars (Distill.is_not PyStr.nl) l = true) (line :: lines) →
  PyStr.split PyStr.nl (PyStr.join (PyStr.chr PyStr.nl) (line :: lines)) = line :: lines.
Proof.
  revert line. induction lines as [|l lines IH]; intros line Hall.
  - apply split_no_sep. by apply Forall_cons_1 in Hall as [? _].
  - apply Forall_cons_1 in Hall as [Hline Hall].
    change (PyStr.join (PyStr.chr PyStr.nl) (line :: l :: lines))
      with (line +:+ String PyStr.nl (PyStr.join (PyStr.chr PyStr.nl) (l :: lines))).
    rewrite split_app by done. by rewrite IH.
Qed.

(** The lines of a section are appended to the section that is open. *)
Lemma scan_factor_lines (lines fs : list string) (st : scan_state) :
  Forall2 factor_line_of lines fs → fs ⊆ factors →
  foldl scan_line st lines = foldl (λ st f, append_factor f st) st fs.
Proof.
  intros Hlines. revert st. induction Hlines as [|line f lines fs Hline _ IH];
    intros st Hsub; [done|].
  cbn [foldl]. rewrite (scan_line_of_factor st line f); [|apply Hsub; by left|done].
  apply IH. intros x Hx. apply Hsub. by right.
Qed.

Lemma append_factors (sec : section_name) (cf : case_factors) (fs : list string) :
  foldl (λ st f, append_factor f st) (ScanState (Some sec) cf) fs
  = ScanState (Some sec)
      match sec with
      | SecInput => CaseFactors (cf_Input cf ++ fs) (cf_TSC1 cf) (cf_TSC2 cf)
      | SecTsc1 => CaseFactors (cf_Input cf) (cf_TSC1 cf ++ fs) (cf_TSC2 cf)
      | SecTsc2 => CaseFactors (cf_Input cf) (cf_TSC1 cf) (cf_TSC2 cf ++ fs)
      end.
Proof.
  revert cf. induction fs as [|f fs IH]; intros cf.
  - destruct sec, cf; simpl; by rewrite app_nil_r.
  - cbn [foldl]. unfold append_factor at 2. cbn [current_section scanned].
    destruct sec; rewrite IH; cbn [cf_Input cf_TSC1 cf_TSC2];
      by rewrite <- app_assoc.
Qed.

(** A text with a factor on every line is read back as its three lists. *)
Lemma scenario_of_lines_read (input_lines tsc1_lines tsc2_lines i t1 t2 : list string) :
  i ⊆ factors → t1 ⊆ factors → t2 ⊆ factors →
  Forall2 factor_line_of input_lines i →
  Forall2 factor_line_of tsc1_lines t1 →
  Forall2 factor_line_of tsc2_lines t2 →
  extract_case_factors (scenario_of_lines input_lines tsc1_lines tsc2_lines)
  = CaseFactors i t1 t2.
Proof.
  intros Hi H1 H2 Li L1 L2. unfold extract_case_factors, scenario_of_lines.
  assert (Hbreak : ∀ lines fs, fs ⊆ factors → Forall2 factor_line_of lines fs →
            Forall (λ l, PyStr.all_chars (Distill.is_not PyStr.nl) l = true) lines).
  { intros lines fs Hsub HL. induction HL as [|line f lines fs Hline _ IH]; [done|].
    apply Forall_cons_2.
    - apply (factor_line_no_break line f); [apply Hsub; by left|done].
    - apply IH. intros x Hx. apply Hsub. by right. }
  cbn [app]. rewrite split_join_lines.
  2:{ apply Forall_cons_2; [done|]. apply Forall_app_2; [by apply (Hbreak _ i)|].
      repeat (apply Forall_cons_2; [done|]).
      apply Forall_app_2; [by apply (Hbreak _ t1)|].
      repeat (apply Forall_cons_2; [done|]). by apply (Hbreak _ t2). }
  cbn [foldl].
  change (scan_line (ScanState None (CaseFactors [] [] [])) "Input Scenario")
    with (ScanState (Some SecInput) (CaseFactors [] [] [])).
  rewrite foldl_app, (scan_factor_lines input_lines i _ Li Hi), append_factors.
  cbn [foldl cf_Input cf_TSC1 cf_TSC2 app].
  set (st1 := ScanState (Some SecInput) (CaseFactors i [] [])).
  change (scan_line (scan_line (scan_line st1 EmptyString) "TSC 1") "outcome Plaintiff")
    with (ScanState (Some SecTsc1) (CaseFactors i [] [])).
  rewrite foldl_app, (scan_factor_lines tsc1_lines t1 _ L1 H1), append_factors.
  cbn [foldl cf_Input cf_TSC1 cf_TSC2 app].
  set (st2 := ScanState (Some SecTsc1) (CaseFactors i t1 [])).
  change (scan_line (scan_line (scan_line st2 EmptyString) "TSC 2") "outcome Defendant")
    with (ScanState (Some SecTsc2) (CaseFactors i t1 [])).
  rewrite (scan_factor_lines tsc2_lines t2 _ L2 H2), append_factors. reflexivity.
Qed.

(** X18: [extract_case_factors] reads a scenario text that has every factor
    on a line of its own exactly: under its header each section gives its
    factors, in order and with repetitions, whatever white space stands in
    front of a factor and however many commas behind it.  A factor line is
    appended to the section that is open; without a header before it, it is
    dropped.  (The text that [render] produces is not of this form: its
    factors share a line.) *)
Theorem factor_lines_read_back (input_lines tsc1_lines tsc2_lines i t1 t2 : list string) :
  i ⊆ factors → t1 ⊆ factors → t2 ⊆ factors →
  Forall2 factor_line_of input_lines i →
  Forall2 factor_line_of tsc1_lines t1 →
  Forall2 factor_line_of tsc2_lines t2 →
  (∀ st line f, f ∈ factors → factor_line_of line f →
                scan_line st line = append_factor f st)
  ∧ (∀ line f, f ∈ factors → factor_line_of line f →
               extract_case_factors line = CaseFactors [] [] [])
  ∧ extract_case_factors (scenario_of_lines input_lines tsc1_lines tsc2_lines)
    = CaseFactors i t1 t2.
Proof.
  intros Hi H1 H2 Li L1 L2. split; [exact scan_line_of_factor|]. split.
  - intros line f Hf Hline. unfold extract_case_factors.
    rewrite split_no_sep by (by apply (factor_line_no_break line f)).
    cbn [foldl]. by rewrite (scan_line_of_factor _ line f).
  - by apply scenario_of_lines_read.
Qed.

Lemma factor_lines_read_back_witness :
  let tab := PyStr.chr PyStr.tab in
  extract_case_factors
    (scenario_of_lines
       [tab +:+ "F4 Agreed-not-to-disclose (P)" +:+ ",";
        tab +:+ "F6 Security-measures (P)" +:+ ""]
       [tab +:+ "F7 Brought-tools (P)" +:+ ""] [])
  = CaseFactors ["F4 Agreed-not-to-disclose (P)"; "F6 Security-measures (P)"]
      ["F7 Brought-tools (P)"] [].
Proof.
  intros tab.
  assert (Hline : ∀ f commas,
            PyStr.all_chars (λ c, bool_decide (c = ","%char)) commas = true →
            factor_line_of (tab +:+ f +:+ commas) f).
  { intros f commas Hc. by exists tab, commas. }
  assert (Hi : ["F4 Agreed-not-to-disclose (P)"; "F6 Security-measures (P)"] ⊆ factors).
  { apply (bool_decide_unpack _). vm_compute. exact I. }
  assert (H1 : ["F7 Brought-tools (P)"] ⊆ factors).
  { apply (bool_decide_unpack _). vm_compute. exact I. }
  assert (Li : Forall2 factor_line_of
                 [tab +:+ "F4 Agreed-not-to-disclose (P)" +:+ ",";
                  tab +:+ "F6 Security-measures (P)" +:+ ""]
                 ["F4 Agreed-not-to-disclose (P)"; "F6 Security-measures (P)"]).
  { repeat (apply Forall2_cons_2; [by apply Hline|]). apply Forall2_nil_2. }
  assert (L1 : Forall2 factor_line_of [tab +:+ "F7 Brought-tools (P)" +:+ ""]
                 ["F7 Brought-tools (P)"]).
  { repeat (apply Forall2_cons_2; [by apply Hline|]). apply Forall2_nil_2. }
  exact (proj2 (proj2 (factor_lines_read_back _ _ [] _ _ []
                         Hi H1 (list_subseteq_nil _) Li L1 ltac:(apply Forall2_nil_2)))).
Defined.

(** ** An answer in the layout of the prompt *)

Lemma after_first_none (marker_tail s : string) :
  PyStr.all_chars (Distill.is_not "<") s = true →
  Distill.after_first (String "<" marker_tail) s = None.
Proof.
  induction s as [|c s IH]; [done|]. intros H. simpl in H.
  apply andb_prop in H as [Hc H]. cbn [Distill.after_first PyStr.starts_with].
  unfold Distill.is_not in Hc. apply negb_true_iff, bool_decide_eq_false in Hc.
  rewrite bool_decide_eq_false_2 by congruence. cbn [andb]. by apply IH.
Qed.

Lemma drop_app_length (x rest : string) :
  Distill.drop (String.length x) (x +:+ rest) = rest.
Proof.
  induction x as [|c x IH]; [by destruct rest|]. rewrite string_app_cons. exact IH.
Qed.

Lemma key_group_unfold (key s : string) :
  Distill.key_group key s
  = match Distill.key_group_here key s with
    | Some g => Some g
    | None => match s with
              | EmptyString => None
              | String _ s' => Distill.key_group key s'
              end
    end.
Proof. by destruct s. Qed.

Lemma key_group_skip_plain (k x rest : string) :
  PyStr.all_chars (Distill.is_not Distill.dq) x = true →
  Distill.key_group (String Distill.dq k) (x +:+ rest)
  = Distill.key_group (String Distill.dq k) rest.
Proof.
  induction x as [|c x IH]; [done|]. intros H. simpl in H.
  apply andb_prop in H as [Hc H]. rewrite string_app_cons, key_group_unfold.
  unfold Distill.key_group_here. cbn [PyStr.starts_with].
  unfold Distill.is_not in Hc. apply negb_true_iff, bool_decide_eq_false in Hc.
  rewrite bool_decide_eq_false_2 by congruence. cbn [andb]. by apply IH.
Qed.

Lemma key_group_skip_char (k : string) (c : ascii) (rest : string) :
  Distill.is_not Distill.dq c = true →
  Distill.key_group (String Distill.dq k) (String c rest)
  = Distill.key_group (String Distill.dq k) rest.
Proof.
  intros Hc. apply (key_group_skip_plain k (String c EmptyString) rest).
  simpl. by rewrite Hc.
Qed.

Lemma same_until_quote (name label follow : string) :
  PyStr.all_chars (Distill.is_not Distill.dq) name = true →
  PyStr.all_chars (Distill.is_not Distill.dq) label = true →
  PyStr.starts_with (name +:+ PyStr.chr Distill.dq) (label +:+ String Distill.dq follow)
  = true →
  label = name.
Proof.
  revert label. induction name as [|a name IH]; intros [|c label] Hn Hl H; try done.
  - rewrite string_app_cons, string_app_nil in H. simpl in H, Hl.
    apply andb_prop in Hl as [Hc _]. apply andb_prop in H as [Ha _].
    apply bool_decide_eq_true in Ha as <-. done.
  - rewrite string_app_cons, string_app_nil in H. simpl in H, Hn.
    apply andb_prop in Hn as [Ha _]. apply andb_prop in H as [Hd _].
    apply bool_decide_eq_true in Hd as ->. done.
  - rewrite !string_app_cons in H. simpl in H, Hn, Hl.
    apply andb_prop in Hn as [_ Hn]. apply andb_prop in Hl as [_ Hl].
    apply andb_prop in H as [Hac H]. apply bool_decide_eq_true in Hac as ->.
    f_equal. by apply IH.
Qed.

(** A match attempt at a key that no colon follows fails. *)
Lemma key_group_here_no_colon (key follow : string) (c : ascii) (t : string) :
  PyStr.drop_while PyStr.is_space follow = String c t → c ≠ ":"%char →
  Distill.key_group_here key (key +:+ follow) = None.
Proof.
  intros Hfollow Hc. unfold Distill.key_group_here.
  rewrite starts_with_self, drop_app_length, Hfollow.
  destruct c as [[] [] [] [] [] [] [] []]; try done.
Qed.

Lemma key_group_here_empty_follow (key follow : string) :
  PyStr.drop_while PyStr.is_space follow = EmptyString →
  Distill.key_group_here key (key +:+ follow) = None.
Proof.
  intros Hfollow. unfold Distill.key_group_here.
  by rewrite starts_with_self, drop_app_length, Hfollow.
Qed.

(** The search for a key passes over a quoted name: either it is another
    name, or no colon follows it. *)
Lemma key_group_skip_quoted (name label follow : string) :
  let key := String Distill.dq (name +:+ PyStr.chr Distill.dq) in
  PyStr.all_chars (Distill.is_not Distill.dq) name = true →
  PyStr.all_chars (Distill.is_not Distill.dq) label = true →
  (label = name → Distill.key_group_here key (key +:+ follow) = None) →
  PyStr.starts_with (name +:+ PyStr.chr Distill.dq) follow = false →
  Distill.key_group key (String Distill.dq (label +:+ String Distill.dq follow))
  = Distill.key_group key follow.
Proof.
  intros key Hname Hlabel Hopen Hclose.
  assert (Hhere : Distill.key_group_here key
                    (String Distill.dq (label +:+ String Distill.dq follow)) = None).
  { destruct (PyStr.starts_with (name +:+ PyStr.chr Distill.dq)
                (label +:+ String Distill.dq follow)) eqn:Hs.
    - apply same_until_quote in Hs as ->; [|done..].
      rewrite <- (Hopen eq_refl). f_equal. unfold key.
      by rewrite string_app_cons, string_app_assoc.
    - unfold Distill.key_group_here, key. cbn [PyStr.starts_with].
      by rewrite Hs, andb_false_r. }
  rewrite key_group_unfold, Hhere.
  unfold key at 1. rewrite key_group_skip_plain by done. fold key.
  rewrite key_group_unfold.
  assert (Hhere' : Distill.key_group_here key (String Distill.dq follow) = None).
  { unfold Distill.key_group_here, key. cbn [PyStr.starts_with].
    by rewrite Hclose, andb_false_r. }
  by rewrite Hhere'.
Qed.

Lemma drop_space_colon (x : string) :
  PyStr.drop_while PyStr.is_space (": {" +:+ x) = String ":" (" {" +:+ x).
Proof. reflexivity. Qed.

Lemma drop_space_brace (x : string) :
  PyStr.drop_while PyStr.is_space (" {" +:+ x) = String "{" x.
Proof. reflexivity. Qed.

(** The search finds the key where it stands with its brace list. *)
Lemma key_group_at (key body rest : string) :
  PyStr.all_chars (Distill.is_not "}") body = true →
  Distill.key_group key (key +:+ ": {" +:+ body +:+ String "}" rest) = Some body.
Proof.
  intros Hbody. rewrite key_group_unfold. unfold Distill.key_group_here.
  rewrite starts_with_self, drop_app_length, drop_space_colon, drop_space_brace.
  rewrite (contains_app_r "}" body (String "}" rest)) by reflexivity.
  by rewrite (proj1 (take_while_stop _ body "}" rest Hbody eq_refl)).
Qed.

(** *** The quoted names of a brace list *)

Lemma quoted_go_plain (x rest : string) :
  PyStr.all_chars (Distill.is_not Distill.dq) x = true →
  Distill.quoted_go None (x +:+ rest) = Distill.quoted_go None rest.
Proof.
  induction x as [|c x IH]; [done|]. intros H. simpl in H.
  apply andb_prop in H as [Hc H]. rewrite string_app_cons. cbn [Distill.quoted_go].
  unfold Distill.is_not in Hc. apply negb_true_iff in Hc. rewrite Hc. by apply IH.
Qed.

Lemma quoted_go_inside (acc label rest : string) :
  PyStr.all_chars (Distill.is_not Distill.dq) label = true →
  Distill.quoted_go (Some acc) (label +:+ String Distill.dq rest)
  = match PyStr.rev_onto label acc with
    | EmptyString => Distill.quoted_go (Some EmptyString) rest
    | found => PyStr.rev found :: Distill.quoted_go None rest
    end.
Proof.
  revert acc. induction label as [|c label IH]; intros acc H.
  - rewrite string_app_nil. cbn [Distill.quoted_go PyStr.rev_onto].
    rewrite bool_decide_eq_true_2 by done. by destruct acc.
  - simpl in H. apply andb_prop in H as [Hc H]. rewrite string_app_cons.
    cbn [Distill.quoted_go PyStr.rev_onto].
    unfold Distill.is_not in Hc. apply negb_true_iff in Hc. rewrite Hc. by apply IH.
Qed.

Lemma quoted_go_item (label rest : string) :
  label ≠ EmptyString →
  PyStr.all_chars (Distill.is_not Distill.dq) label = true →
  Distill.quoted_go None (String Distill.dq (label +:+ String Distill.dq rest))
  = label :: Distill.quoted_go None rest.
Proof.
  intros Hne H. cbn [Distill.quoted_go]. rewrite bool_decide_eq_true_2 by done.
  rewrite quoted_go_inside by done. fold (PyStr.rev label).
  destruct (PyStr.rev label) eqn:Hrev.
  - exfalso. apply Hne. by rewrite <- (rev_involutive label), Hrev.
  - by rewrite <- Hrev, rev_involutive.
Qed.

Section Answer.
Variable ws : string.
Hypothesis ws_space : PyStr.all_chars PyStr.is_space ws = true.

Lemma space_char (c : ascii) :
  PyStr.is_space c = true →
  Distill.is_not Distill.dq c = true ∧ Distill.is_not "}" c = true
  ∧ Distill.is_not "<" c = true.
Proof. destruct c as [[] [] [] [] [] [] [] []]; vm_compute; intros H; by try discriminate H. Qed.

Lemma ws_without :
  PyStr.all_chars (Distill.is_not Distill.dq) ws = true
  ∧ PyStr.all_chars (Distill.is_not "}") ws = true
  ∧ PyStr.all_chars (Distill.is_not "<") ws = true.
Proof.
  repeat split.
  - apply (all_chars_impl _ _ _ (λ c H, proj1 (space_char c H)) ws_space).
  - apply (all_chars_impl _ _ _ (λ c H, proj1 (proj2 (space_char c H))) ws_space).
  - apply (all_chars_impl _ _ _ (λ c H, proj2 (proj2 (space_char c H))) ws_space).
Qed.

Lemma clean_label_without (f : string) :
  clean_label f →
  f ≠ EmptyString
  ∧ PyStr.all_chars (Distill.is_not Distill.dq) f = true
  ∧ PyStr.all_chars (Distill.is_not "}") f = true
  ∧ PyStr.all_chars (Distill.is_not "<") f = true.
Proof.
  intros [Hne H]. split; [done|].
  assert (Hc : ∀ c, negb (bool_decide (c ∈ [Distill.dq; "}"%char; "<"%char])) = true →
                    Distill.is_not Distill.dq c = true ∧ Distill.is_not "}" c = true
                    ∧ Distill.is_not "<" c = true).
  { intros c Hc. apply negb_true_iff, bool_decide_eq_false in Hc.
    rewrite !not_elem_of_cons in Hc. destruct Hc as (H1 & H2 & H3 & _).
    unfold Distill.is_not. by rewrite !bool_decide_eq_false_2. }
  repeat split.
  - apply (all_chars_impl _ _ _ (λ c H, proj1 (Hc c H)) H).
  - apply (all_chars_impl _ _ _ (λ c H, proj1 (proj2 (Hc c H))) H).
  - apply (all_chars_impl _ _ _ (λ c H, proj2 (proj2 (Hc c H))) H).
Qed.

Lemma quoted_items_cons (f : string) (items : list string) :
  quoted_items ws (f :: items)
  = String Distill.dq
      (f +:+ String Distill.dq
         match items with
         | [] => EmptyString
         | _ => String "," (ws +:+ quoted_items ws items)
         end).
Proof.
  unfold quoted_items. destruct items as [|g items]; cbn [fmap list_fmap PyStr.join].
  - unfold PyStr.chr. by rewrite string_app_cons, string_app_nil.
  - unfold PyStr.chr.
    rewrite !string_app_cons, !string_app_nil, !string_app_assoc.
    by rewrite !string_app_cons, !string_app_nil.
Qed.

Lemma quoted_items_without (a : ascii) (items : list string) :
  a ≠ Distill.dq → a ≠ ","%char →
  PyStr.all_chars (Distill.is_not a) ws = true →
  Forall (λ f, PyStr.all_chars (Distill.is_not a) f = true) items →
  PyStr.all_chars (Distill.is_not a) (quoted_items ws items) = true.
Proof.
  intros Hdq Hcomma Hws. induction 1 as [|f items Hf _ IH]; [done|].
  rewrite quoted_items_cons. cbn [PyStr.all_chars]. rewrite all_chars_app.
  cbn [PyStr.all_chars]. rewrite Hf.
  assert (Hq : Distill.is_not a Distill.dq = true).
  { unfold Distill.is_not. by rewrite bool_decide_eq_false_2. }
  rewrite Hq. cbn [andb]. destruct items as [|g items]; [done|].
  cbn [PyStr.all_chars]. rewrite all_chars_app, Hws, IH, !andb_true_r.
  unfold Distill.is_not. by rewrite bool_decide_eq_false_2.
Qed.

(** The quoted names of a brace list are its items. *)
Lemma quoted_of_items (items : list string) (rest : string) :
  Forall clean_label items →
  Distill.quoted_go None (quoted_items ws items +:+ rest) = items ++ Distill.quoted_go None rest.
Proof.
  destruct ws_without as (Hws & _).
  induction 1 as [|f items Hf _ IH]; [done|].
  destruct (clean_label_without f Hf) as (Hne & Hdq & _).
  rewrite quoted_items_cons, string_app_cons, string_app_assoc, string_app_cons.
  rewrite quoted_go_item by done. cbn [app]. f_equal.
  destruct items as [|g items]; [done|].
  rewrite string_app_cons. cbn [Distill.quoted_go].
  change (bool_decide (","%char = Distill.dq)) with false. cbv iota.
  rewrite string_app_assoc, quoted_go_plain by done. exact IH.
Qed.

(** The search for a key passes over a brace list of names. *)
Lemma key_group_skip_items (name : string) (n0 : ascii) (ntail : string)
    (items : list string) (rest : string) :
  let key := String Distill.dq (name +:+ PyStr.chr Distill.dq) in
  name = String n0 ntail → n0 ≠ ","%char → n0 ≠ "}"%char →
  PyStr.is_space n0 = false →
  PyStr.all_chars (Distill.is_not Distill.dq) name = true →
  Forall clean_label items →
  Distill.key_group key (quoted_items ws items +:+ ws +:+ String "}" rest)
  = Distill.key_group key rest.
Proof.
  intros key Hname Hn1 Hn2 Hn3 Hnq Hitems.
  destruct ws_without as (Hws & _).
  assert (Hend : Distill.key_group key (ws +:+ String "}" rest)
                 = Distill.key_group key rest).
  { unfold key. rewrite key_group_skip_plain by done.
    by rewrite key_group_skip_char. }
  assert (Hstart : ∀ c t, c ≠ n0 →
            PyStr.starts_with (name +:+ PyStr.chr Distill.dq) (String c t) = false).
  { intros c t Hc. rewrite Hname, string_app_cons. cbn [PyStr.starts_with].
    by rewrite bool_decide_eq_false_2. }
  assert (Hstart_ws : ∀ t,
            PyStr.starts_with (name +:+ PyStr.chr Distill.dq) (ws +:+ String "}" t)
            = false).
  { intros t. destruct ws as [|c w] eqn:Hw.
    - rewrite string_app_nil. apply Hstart. congruence.
    - rewrite string_app_cons. apply Hstart. intros ->.
      simpl in ws_space. by rewrite Hn3 in ws_space. }
  induction Hitems as [|f items Hf _ IH]; [exact Hend|].
  destruct (clean_label_without f Hf) as (_ & Hdq & _).
  rewrite quoted_items_cons, string_app_cons, string_app_assoc, string_app_cons.
  destruct items as [|g items].
  - rewrite string_app_nil. rewrite (key_group_skip_quoted name f).
    + exact Hend.
    + exact Hnq.
    + exact Hdq.
    + intros _. apply (key_group_here_no_colon _ _ "}"%char rest); [|discriminate].
      rewrite drop_while_app_all by exact ws_space. reflexivity.
    + apply Hstart_ws.
  - rewrite string_app_cons.
    rewrite (key_group_skip_quoted name f); [|exact Hnq|exact Hdq| |].
    2:{ intros _.
        eapply key_group_here_no_colon; [reflexivity|discriminate]. }
    2:{ apply Hstart. congruence. }
    unfold key. rewrite key_group_skip_char by done.
    rewrite string_app_assoc, key_group_skip_plain by done. exact IH.
Qed.

End Answer.

Section AnswerSections.
Variable ws : string.
Hypothesis ws_space : PyStr.all_chars PyStr.is_space ws = true.

(** The search for [name] passes over the section of another name. *)
Lemma key_group_pass_section (name : string) (n0 : ascii) (ntail label : string)
    (items : list string) (rest : string) :
  let key := String Distill.dq (name +:+ PyStr.chr Distill.dq) in
  name = String n0 ntail → n0 ≠ ","%char → n0 ≠ "}"%char → n0 ≠ ":"%char →
  PyStr.is_space n0 = false →
  PyStr.all_chars (Distill.is_not Distill.dq) name = true →
  PyStr.all_chars (Distill.is_not Distill.dq) label = true →
  label ≠ name →
  Forall clean_label items →
  Distill.key_group key
    (String Distill.dq
       (label +:+ String Distill.dq
          (": {" +:+ ws +:+ quoted_items ws items +:+ ws +:+ String "}" rest)))
  = Distill.key_group key rest.
Proof.
  intros key Hname Hn1 Hn2 Hn3 Hn4 Hnq Hlq Hdiff Hitems.
  destruct (ws_without ws ws_space) as (Hws & _).
  rewrite (key_group_skip_quoted name label); [|done|done|done|].
  - unfold key. rewrite (key_group_skip_plain _ ": {") by done.
    rewrite key_group_skip_plain by done.
    by apply (key_group_skip_items ws ws_space name n0 ntail).
  - rewrite Hname, string_app_cons, (string_app_cons ":" " {").
    cbn [PyStr.starts_with]. by rewrite bool_decide_eq_false_2.
Qed.

(** The search for [name] finds its section. *)
Lemma key_group_find_section (name : string) (items : list string) (rest : string) :
  Forall clean_label items →
  Distill.key_group (String Distill.dq (name +:+ PyStr.chr Distill.dq))
    (String Distill.dq
       (name +:+ String Distill.dq
          (": {" +:+ ws +:+ quoted_items ws items +:+ ws +:+ String "}" rest)))
  = Some (ws +:+ quoted_items ws items +:+ ws).
Proof.
  intros Hitems. destruct (ws_without ws ws_space) as (_ & Hws & _).
  rewrite <- (key_group_at (String Distill.dq (name +:+ PyStr.chr Distill.dq))
                (ws +:+ quoted_items ws items +:+ ws) rest).
  - f_equal. unfold PyStr.chr.
    repeat (progress rewrite ?string_app_assoc, ?string_app_cons, ?string_app_nil).
    reflexivity.
  - rewrite !all_chars_app, Hws, andb_true_r. cbn [andb].
    apply quoted_items_without; [discriminate|discriminate|done|].
    eapply Forall_impl; [exact Hitems|]. intros f Hf.
    by destruct (clean_label_without f Hf) as (_ & _ & ? & _).
Qed.

Lemma quoted_of_group (items : list string) :
  Forall clean_label items →
  Distill.quoted (ws +:+ quoted_items ws items +:+ ws) = items.
Proof.
  intros Hitems. destruct (ws_without ws ws_space) as (Hws & _).
  unfold Distill.quoted. rewrite quoted_go_plain by done.
  rewrite (quoted_of_items ws ws_space) by done.
  assert (Hq : Distill.quoted_go None ws = []).
  { rewrite <- (string_app_nil_r ws). by rewrite quoted_go_plain. }
  rewrite Hq. apply app_nil_r.
Qed.

Lemma answer_text_shape (i t1 t2 : list string) :
  answer_text ws i t1 t2
  = String "{"
      (ws +:+ String Distill.dq
         ("Input Case" +:+ String Distill.dq
            (": {" +:+ ws +:+ quoted_items ws i +:+ ws
             +:+ String "}"
                   (String ","
                      (ws +:+ String Distill.dq
                         ("TSC1" +:+ String Distill.dq
                            (": {" +:+ ws +:+ quoted_items ws t1 +:+ ws
                             +:+ String "}"
                                   (String ","
                                      (ws +:+ String Distill.dq
                                         ("TSC2" +:+ String Distill.dq
                                            (": {" +:+ ws +:+ quoted_items ws t2
                                             +:+ ws
                                             +:+ String "}" (ws +:+ "}")))))))))))).
Proof.
  unfold answer_text, answer_section, PyStr.chr.
  repeat (progress rewrite ?string_app_assoc, ?string_app_cons, ?string_app_nil).
  reflexivity.
Qed.

Lemma json_span_braces (body : string) :
  Distill.json_span (String "{" (body +:+ "}")) = Some (String "{" (body +:+ "}")).
Proof.
  unfold Distill.json_span. cbn [PyStr.drop_while].
  change (Distill.is_not "{" "{") with false. cbv iota.
  rewrite rev_app. change (PyStr.rev "}") with "}".
  rewrite string_app_cons, string_app_nil. cbn [PyStr.drop_while].
  change (Distill.is_not "}" "}") with false. cbv iota.
  change (String "}" (PyStr.rev body)) with ("}" +:+ PyStr.rev body).
  change "}" with (PyStr.rev "}") at 1. by rewrite <- rev_app, rev_involutive.
Qed.

(** The answer layout read by [process_distilled_factors]. *)
Lemma answer_text_read (i t1 t2 : list string) :
  Forall clean_label i → Forall clean_label t1 → Forall clean_label t2 →
  process_distilled_factors (answer_text ws i t1 t2)
  = Distilled (Distill.dict_keys i) (Distill.dict_keys t1) (Distill.dict_keys t2).
Proof.
  intros Hi H1 H2.
  destruct (ws_without ws ws_space) as (Hws & Hws2 & Hws3).
  assert (Hlt : ∀ items, Forall clean_label items →
            PyStr.all_chars (Distill.is_not "<") (quoted_items ws items) = true).
  { intros items Hitems. apply quoted_items_without; [discriminate|discriminate|done|].
    eapply Forall_impl; [exact Hitems|]. intros f Hf.
    by destruct (clean_label_without f Hf) as (_ & _ & _ & ?). }
  unfold process_distilled_factors.
  rewrite after_first_none.
  2:{ rewrite answer_text_shape. cbn [PyStr.all_chars].
      repeat (rewrite ?all_chars_app; cbn [PyStr.all_chars]).
      rewrite !Hws3, !Hlt by done. reflexivity. }
  assert (Hspan : ∃ body, answer_text ws i t1 t2 = String "{" (body +:+ "}")).
  { eexists. unfold answer_text. rewrite string_app_cons, string_app_nil.
    f_equal. rewrite <- !string_app_assoc. reflexivity. }
  destruct Hspan as [body Hspan]. rewrite Hspan, json_span_braces, <- Hspan.
  rewrite answer_text_shape. unfold Distill.key_factors.
  change (PyStr.chr Distill.dq +:+ "Input Case" +:+ PyStr.chr Distill.dq)
    with (String Distill.dq ("Input Case" +:+ PyStr.chr Distill.dq)).
  change (PyStr.chr Distill.dq +:+ "TSC1" +:+ PyStr.chr Distill.dq)
    with (String Distill.dq ("TSC1" +:+ PyStr.chr Distill.dq)).
  change (PyStr.chr Distill.dq +:+ "TSC2" +:+ PyStr.chr Distill.dq)
    with (String Distill.dq ("TSC2" +:+ PyStr.chr Distill.dq)).
  f_equal.
  - rewrite key_group_skip_char by done. rewrite key_group_skip_plain by done.
    rewrite key_group_find_section by done. by rewrite quoted_of_group.
  - rewrite key_group_skip_char by done. rewrite key_group_skip_plain by done.
    rewrite (key_group_pass_section "TSC1" "T" "SC1" "Input Case")
      by first [done | discriminate].
    rewrite key_group_skip_char by done. rewrite key_group_skip_plain by done.
    rewrite key_group_find_section by done. by rewrite quoted_of_group.
  - rewrite key_group_skip_char by done. rewrite key_group_skip_plain by done.
    rewrite (key_group_pass_section "TSC2" "T" "SC2" "Input Case")
      by first [done | discriminate].
    rewrite key_group_skip_char by done. rewrite key_group_skip_plain by done.
    rewrite (key_group_pass_section "TSC2" "T" "SC2" "TSC1")
      by first [done | discriminate].
    rewrite key_group_skip_char by done. rewrite key_group_skip_plain by done.
    rewrite key_group_find_section by done. by rewrite quoted_of_group.
Qed.

End AnswerSections.

Lemma dict_keys_of_NoDup (l : list string) : NoDup l → Distill.dict_keys l = l.
Proof.
  intros Hl. unfold Distill.dict_keys.
  assert (H : ∀ acc, NoDup (acc ++ l) →
            foldl (λ (acc : list string) f,
                     if decide (f ∈ acc) then acc else acc ++ [f]) acc l = acc ++ l).
  { clear Hl. induction l as [|f l IH]; intros acc Hnd; simpl.
    - by rewrite app_nil_r.
    - apply NoDup_app in Hnd as Hnd'. destruct Hnd' as (_ & Hdisj & _).
      destruct (decide (f ∈ acc)) as [Hin|_].
      + exfalso. apply (Hdisj f Hin). by left.
      + rewrite IH; rewrite <- app_assoc; done. }
  by apply (H []).
Qed.

Lemma catalog_factors_clean (l : list string) : l ⊆ factors → Forall clean_label l.
Proof.
  intros Hsub. apply Forall_forall. intros f Hf. apply Hsub in Hf. revert f Hf.
  apply Forall_forall. unfold factors.
  repeat (apply Forall_cons_2; [split; [discriminate|reflexivity]|]).
  apply Forall_nil_2.
Qed.

(** X19: an answer in the layout that the distiller prompt shows, an object
    with the sections [Input Case], [TSC1] and [TSC2], each a brace list of
    quoted names, with any white space between the tokens, is read by
    [process_distilled_factors] as its three lists of names, each name once, in
    order of first occurrence; lists without repetition are read back as they
    are.  This holds for all names that are not empty and hold no double
    quote, closing brace or [<], the catalog factors among them. *)
Theorem answer_layout_read_back (ws : string) (i t1 t2 : list string) :
  PyStr.all_chars PyStr.is_space ws = true →
  Forall clean_label i → Forall clean_label t1 → Forall clean_label t2 →
  let d := process_distilled_factors (answer_text ws i t1 t2) in
  d = Distilled (Distill.dict_keys i) (Distill.dict_keys t1) (Distill.dict_keys t2)
  ∧ (∀ f, (f ∈ df_Input_Case d ↔ f ∈ i) ∧ (f ∈ df_TSC1 d ↔ f ∈ t1)
          ∧ (f ∈ df_TSC2 d ↔ f ∈ t2))
  ∧ (NoDup i → NoDup t1 → NoDup t2 → d = Distilled i t1 t2)
  ∧ (∀ l, l ⊆ factors → Forall clean_label l).
Proof.
  intros Hws Hi H1 H2 d.
  assert (Hd : d = Distilled (Distill.dict_keys i) (Distill.dict_keys t1)
                     (Distill.dict_keys t2)).
  { by apply answer_text_read. }
  split; [exact Hd|]. split; [|split].
  - intros f. rewrite Hd. cbn [df_Input_Case df_TSC1 df_TSC2].
    by rewrite !dict_keys_elem.
  - intros Ni N1 N2. by rewrite Hd, !dict_keys_of_NoDup.
  - exact catalog_factors_clean.
Qed.

Lemma answer_layout_read_back_witness :
  process_distilled_factors
    (answer_text (PyStr.chr PyStr.nl +:+ "  ")
       ["F4 Agreed-not-to-disclose (P)"; "F6 Security-measures (P)"]
       ["F7 Brought-tools (P)"] [])
  = Distilled ["F4 Agreed-not-to-disclose (P)"; "F6 Security-measures (P)"]
      ["F7 Brought-tools (P)"] [].
Proof.
  assert (Hi : Forall clean_label
                 ["F4 Agreed-not-to-disclose (P)"; "F6 Security-measures (P)"]).
  { apply catalog_factors_clean, (bool_decide_unpack _). vm_compute. exact I. }
  assert (H1 : Forall clean_label ["F7 Brought-tools (P)"]).
  { apply catalog_factors_clean, (bool_decide_unpack _). vm_compute. exact I. }
  assert (Ni : NoDup ["F4 Agreed-not-to-disclose (P)"; "F6 Security-measures (P)"]).
  { apply (bool_decide_unpack _). vm_compute. exact I. }
  assert (N1 : NoDup ["F7 Brought-tools (P)"]).
  { apply (bool_decide_unpack _). vm_compute. exact I. }
  exact (proj1 (proj2 (proj2
    (answer_layout_read_back (PyStr.chr PyStr.nl +:+ "  ") _ _ [] eq_refl
       Hi H1 (Forall_nil_2 _)))) Ni N1 (NoDup_nil_2)).
Defined.

(** ** A complete answer, scored *)

Lemma string_length_app (a b : string) :
  String.length (a +:+ b) = (String.length a + String.length b)%nat.
Proof. induction a as [|c a IH]; [done|]. rewrite string_app_cons. simpl. by rewrite IH. Qed.

Lemma join_covers (sep f : string) (l : list string) :
  f ∈ l → (String.length f ≤ String.length (PyStr.join sep l))%nat.
Proof.
  induction l as [|x l IH]; intros Hf; [by apply elem_of_nil in Hf|].
  destruct l as [|y l].
  - apply list_elem_of_singleton in Hf as ->. done.
  - rewrite join_cons2, !string_length_app.
    apply elem_of_cons in Hf as [->|Hf]; [lia|]. specialize (IH Hf). lia.
Qed.

Lemma join_longer (sep f : string) (l : list string) :
  f ∈ l → (2 ≤ length l)%nat →
  (String.length f + String.length sep ≤ String.length (PyStr.join sep l))%nat.
Proof.
  destruct l as [|x [|y l]]; intros Hf Hlen; simpl in Hlen; try lia.
  rewrite join_cons2, !string_length_app.
  apply elem_of_cons in Hf as [->|Hf]; [lia|].
  pose proof (join_covers sep f (y :: l) Hf). lia.
Qed.

Lemma joined_not_member (l : list string) :
  (2 ≤ length l)%nat → PyStr.join separator l ∉ l.
Proof.
  intros Hlen Hin. pose proof (join_longer separator _ l Hin Hlen) as H.
  rewrite separator_chars in H. simpl in H. lia.
Qed.

(** The counts of a section that was rendered on one line, against the
    names of its factors. *)
Lemma merged_section_counts (l : list string) :
  (2 ≤ length l)%nat →
  section_read_back l = [PyStr.join separator l]
  ∧ count_not_in l (section_read_back l) = length l
  ∧ count_not_in (section_read_back l) l = 1%nat.
Proof.
  intros Hlen. pose proof (joined_not_member l Hlen) as Hnot.
  assert (Hread : section_read_back l = [PyStr.join separator l]).
  { destruct l; [simpl in Hlen; lia|done]. }
  rewrite Hread. split; [done|]. split.
  - rewrite count_not_in_filter. f_equal. apply filter_all.
    intros f Hf ->%list_elem_of_singleton. done.
  - unfold count_not_in. simpl. by destruct (decide (PyStr.join separator l ∈ l)).
Qed.

(** The counts of an answer that names every factor of its section, and
    nothing else. *)
Lemma complete_section_counts (l : list string) :
  count_not_in l l = 0%nat.
Proof. by apply count_not_in_zero. Qed.

(** X20: the two cells in the formats that the prompts show, scored.  When
    the scenario text has a factor on every line and the answer, in the
    layout of the distiller prompt, names exactly the factors of each section,
    the row has no mismatch and no weakness, accuracy 1, and strength 1 in
    [process_csv_file] and in [calculate_scores] outside the unarguable modes;
    in the unarguable modes its strength is 0, and in no case is it a
    successful abstention. *)
Theorem complete_answer_scores (mode ws : string)
    (input_lines tsc1_lines tsc2_lines i t1 t2 : list string) :
  PyStr.all_chars PyStr.is_space ws = true →
  i ⊆ factors → t1 ⊆ factors → t2 ⊆ factors →
  NoDup i → NoDup t1 → NoDup t2 →
  Forall2 factor_line_of input_lines i →
  Forall2 factor_line_of tsc1_lines t1 →
  Forall2 factor_line_of tsc2_lines t2 →
  (0 < length i + length t1 + length t2)%nat →
  let scenario := scenario_of_lines input_lines tsc1_lines tsc2_lines in
  let answer := answer_text ws i t1 t2 in
  let c := process_csv_file_body (scenario, answer) in
  let p := calculate_scores_body mode (scenario, Some answer) in
  (rs_total_mismatches c = 0%nat ∧ rs_total_weaknesses c = 0%nat
   ∧ (rs_accuracy c == 1)%Q ∧ (rs_strength c == 1)%Q
   ∧ rs_successful_abstention c = false)
  ∧ (rs_total_mismatches p = 0%nat ∧ rs_total_weaknesses p = 0%nat
     ∧ (rs_accuracy p == 1)%Q
     ∧ (rs_strength p == if is_unarguable_mode mode then 0 else 1)%Q
     ∧ rs_successful_abstention p = false).
Proof.
  intros Hws Hi H1 H2 Ni N1 N2 Li L1 L2 Hpos scenario answer c p.
  assert (Hscen : process_csv_row scenario = CaseFactors i t1 t2).
  { by apply scenario_of_lines_read. }
  assert (Hans : process_distilled_factors answer = Distilled i t1 t2).
  { subst answer. rewrite (answer_text_read ws Hws) by (by apply catalog_factors_clean).
    by rewrite !dict_keys_of_NoDup. }
  assert (Hc : c = process_csv_file_row (CaseFactors i t1 t2) (Distilled i t1 t2)).
  { subst c. unfold process_csv_file_body. cbn [fst snd]. by f_equal. }
  assert (Hp : p = calculate_scores_row mode (CaseFactors i t1 t2) (Distilled i t1 t2)).
  { subst p. unfold calculate_scores_body. cbn [fst snd default]. by f_equal. }
  destruct (row_counts mode (CaseFactors i t1 t2) (Distilled i t1 t2))
    as (Hm & Hw & _ & Hd & _ & Hpm & Hpw & _ & Hpd & _).
  cbn [cf_Input cf_TSC1 cf_TSC2 df_Input_Case df_TSC1 df_TSC2] in Hm, Hw.
  rewrite !complete_section_counts in Hm, Hw.
  rewrite <- Hc in Hm, Hw, Hd, Hpm, Hpw. rewrite <- Hp in Hpm, Hpw, Hpd.
  change (rs_total_mismatches c = 0%nat) in Hm.
  change (rs_total_weaknesses c = 0%nat) in Hw.
  assert (Horig : original_total (CaseFactors i t1 t2)
                  = (length i + length t1 + length t2)%nat) by reflexivity.
  assert (Hdist : distilled_total (Distilled i t1 t2)
                  = (length i + length t1 + length t2)%nat) by reflexivity.
  assert (Hlt : (0 <? original_total (CaseFactors i t1 t2))%nat = true).
  { apply Nat.ltb_lt. by rewrite Horig. }
  assert (HA : (rs_accuracy c == 1)%Q).
  { rewrite Hc, csv_accuracy_eq, <- Hc, Hlt, Hm, ratio_zero. lra. }
  assert (HS : (rs_strength c == 1)%Q).
  { rewrite Hc, csv_strength_eq, <- Hc, Hlt, Hw, ratio_zero. lra. }
  assert (Hnil : bool_decide (i = []) && bool_decide (t1 = []) && bool_decide (t2 = [])
                 = false).
  { destruct i, t1, t2; simpl in Hpos; try lia; reflexivity. }
  split.
  - split; [exact Hm|]. split; [exact Hw|]. split; [exact HA|]. split; [exact HS|].
    rewrite Hc. exact Hnil.
  - split; [by rewrite Hpm|]. split; [by rewrite Hpw|].
    split; [by rewrite Hp, pipeline_accuracy_eq, <- Hc|]. split.
    + rewrite Hp, pipeline_strength_eq, <- Hc.
      destruct (is_unarguable_mode mode); [|exact HS].
      rewrite Hlt, Hdist, Horig.
      rewrite ratio_self by (by rewrite <- Horig; apply Nat.ltb_lt). lra.
    + change (rs_successful_abstention p)
        with ((rs_total_weaknesses p =? 0)%nat && (rs_dist_factors p =? 0)%nat).
      rewrite Hpd, Hdist. apply andb_false_iff. right. apply Nat.eqb_neq. lia.
Qed.

Lemma complete_answer_scores_witness :
  let tab := PyStr.chr PyStr.tab in
  let c := process_csv_file_body
             (scenario_of_lines [tab +:+ "F4 Agreed-not-to-disclose (P)" +:+ ","] [] [],
              answer_text " " ["F4 Agreed-not-to-disclose (P)"] [] []) in
  rs_total_mismatches c = 0%nat ∧ rs_total_weaknesses c = 0%nat
  ∧ (rs_accuracy c == 1)%Q ∧ (rs_strength c == 1)%Q
  ∧ rs_successful_abstention c = false.
Proof.
  intros tab.
  assert (Hi : ["F4 Agreed-not-to-disclose (P)"] ⊆ factors).
  { apply (bool_decide_unpack _). vm_compute. exact I. }
  assert (Ni : NoDup ["F4 Agreed-not-to-disclose (P)"]).
  { apply (bool_decide_unpack _). vm_compute. exact I. }
  assert (Li : Forall2 factor_line_of [tab +:+ "F4 Agreed-not-to-disclose (P)" +:+ ","]
                 ["F4 Agreed-not-to-disclose (P)"]).
  { apply Forall2_cons_2; [|apply Forall2_nil_2]. by exists tab, ",". }
  exact (proj1 (complete_answer_scores "arguable" " " _ [] [] _ [] [] eq_refl
                  Hi (list_subseteq_nil _) (list_subseteq_nil _)
                  Ni (NoDup_nil_2) (NoDup_nil_2)
                  Li ltac:(apply Forall2_nil_2) ltac:(apply Forall2_nil_2)
                  ltac:(simpl; lia))).
Defined.

(** X21: the same complete answer against the scenario text that [render]
    produces.  When each of the three lists has two or more factors, each
    section is read back as one joined string, so the scenario counts 3
    factors, every claimed factor is a mismatch and each section is a
    weakness: accuracy is 1 - (claimed factors)/3, at most -1, and strength is
    0 in [process_csv_file] and in [calculate_scores] outside the unarguable
    modes, and at most -1 in the unarguable modes. *)
Theorem complete_answer_to_rendered_scenario (mode ws : string) (reordered : bool)
    (i t1 t2 : list string) :
  PyStr.all_chars PyStr.is_space ws = true →
  i ⊆ factors → t1 ⊆ factors → t2 ⊆ factors →
  NoDup i → NoDup t1 → NoDup t2 →
  (2 ≤ length i)%nat → (2 ≤ length t1)%nat → (2 ≤ length t2)%nat →
  let scenario := render reordered i t1 t2 in
  let answer := answer_text ws i t1 t2 in
  let c := process_csv_file_body (scenario, answer) in
  let p := calculate_scores_body mode (scenario, Some answer) in
  let claimed := (length i + length t1 + length t2)%nat in
  (rs_orig_factors c = 3%nat ∧ rs_total_mismatches c = claimed
   ∧ rs_total_weaknesses c = 3%nat
   ∧ (rs_accuracy c == 1 - Qnat claimed / 3)%Q ∧ (rs_accuracy c <= -1)%Q
   ∧ (rs_strength c == 0)%Q)
  ∧ ((rs_accuracy p == rs_accuracy c)%Q
     ∧ (is_unarguable_mode mode = false → (rs_strength p == 0)%Q)
     ∧ (is_unarguable_mode mode = true → (rs_strength p <= -1)%Q)).
Proof.
  intros Hws Hi H1 H2 Ni N1 N2 Gi G1 G2 scenario answer c p claimed.
  destruct (merged_section_counts i Gi) as (Ri & Mi & Wi).
  destruct (merged_section_counts t1 G1) as (R1 & M1 & W1).
  destruct (merged_section_counts t2 G2) as (R2 & M2 & W2).
  set (read := CaseFactors (section_read_back i) (section_read_back t1)
                 (section_read_back t2)).
  assert (Hscen : process_csv_row scenario = read).
  { subst scenario. unfold render, process_csv_row.
    destruct reordered; apply extract_of_template; auto. }
  assert (Hans : process_distilled_factors answer = Distilled i t1 t2).
  { subst answer. rewrite (answer_text_read ws Hws) by (by apply catalog_factors_clean).
    by rewrite !dict_keys_of_NoDup. }
  assert (Hc : c = process_csv_file_row read (Distilled i t1 t2)).
  { subst c. unfold process_csv_file_body. cbn [fst snd]. by f_equal. }
  assert (Hp : p = calculate_scores_row mode read (Distilled i t1 t2)).
  { subst p. unfold calculate_scores_body. cbn [fst snd default]. by f_equal. }
  destruct (row_counts mode read (Distilled i t1 t2))
    as (Hm & Hw & Ho & Hd & _).
  cbv zeta in Hm, Hw, Ho, Hd. rewrite <- Hc in Hm, Hw, Ho, Hd.
  unfold read in Hm, Hw.
  cbn [cf_Input cf_TSC1 cf_TSC2 df_Input_Case df_TSC1 df_TSC2] in Hm, Hw.
  rewrite Mi, M1, M2 in Hm. rewrite Wi, W1, W2 in Hw.
  change (rs_total_mismatches c = claimed) in Hm.
  change (rs_total_weaknesses c = 3%nat) in Hw.
  assert (Horig : original_total read = 3%nat).
  { unfold original_total, read. cbn [cf_Input cf_TSC1 cf_TSC2]. by rewrite Ri, R1, R2. }
  assert (Hdist : distilled_total (Distilled i t1 t2) = claimed) by reflexivity.
  assert (Hclaimed : (6 ≤ claimed)%nat) by (unfold claimed; lia).
  assert (Hratio : (2 <= Qnat claimed / 3)%Q).
  { apply Qle_shift_div_l; [lra|].
    assert (H6 : (Qnat 6 <= Qnat claimed)%Q) by (by apply Qnat_le).
    assert (H6' : (Qnat 6 == 6)%Q) by reflexivity. lra. }
  assert (HA : (rs_accuracy c == 1 - Qnat claimed / 3)%Q).
  { rewrite Hc, csv_accuracy_eq, <- Hc, Horig, Hm.
    change (0 <? 3)%nat with true. cbv iota. by change (Qnat 3) with 3%Q. }
  assert (HS : (rs_strength c == 0)%Q).
  { rewrite Hc, csv_strength_eq, <- Hc, Horig, Hw.
    change (0 <? 3)%nat with true. cbv iota. rewrite (ratio_self 3) by lia. lra. }
  split.
  - split; [by rewrite Ho|]. split; [exact Hm|]. split; [exact Hw|].
    split; [exact HA|]. split; [rewrite HA; lra|exact HS].
  - split; [by rewrite Hp, pipeline_accuracy_eq, <- Hc|]. split.
    + intros Hmode. by rewrite Hp, pipeline_strength_eq, Hmode, <- Hc.
    + intros Hmode. rewrite Hp, pipeline_strength_eq, Hmode, Horig, Hdist.
      change (0 <? 3)%nat with true. cbv iota. change (Qnat 3) with 3%Q. lra.
Qed.

Lemma complete_answer_to_rendered_scenario_witness :
  let c := process_csv_file_body
             (render false (input_factors drawn_scenario) (tsc1 drawn_scenario)
                (tsc2 drawn_scenario),
              answer_text " " (input_factors drawn_scenario) (tsc1 drawn_scenario)
                (tsc2 drawn_scenario)) in
  rs_orig_factors c = 3%nat ∧ (rs_accuracy c <= -1)%Q.
Proof.
  assert (Hi : input_factors drawn_scenario ⊆ factors)
    by (apply (bool_decide_unpack _); vm_compute; exact I).
  assert (H1 : tsc1 drawn_scenario ⊆ factors)
    by (apply (bool_decide_unpack _); vm_compute; exact I).
  assert (H2 : tsc2 drawn_scenario ⊆ factors)
    by (apply (bool_decide_unpack _); vm_compute; exact I).
  assert (Ni : NoDup (input_factors drawn_scenario))
    by (apply (bool_decide_unpack _); vm_compute; exact I).
  assert (N1 : NoDup (tsc1 drawn_scenario))
    by (apply (bool_decide_unpack _); vm_compute; exact I).
  assert (N2 : NoDup (tsc2 drawn_scenario))
    by (apply (bool_decide_unpack _); vm_compute; exact I).
  pose proof (complete_answer_to_rendered_scenario "arguable" " " false
                (input_factors drawn_scenario) (tsc1 drawn_scenario)
                (tsc2 drawn_scenario) eq_refl Hi H1 H2 Ni N1 N2
                ltac:(simpl; lia) ltac:(simpl; lia) ltac:(simpl; lia)) as H.
  exact (conj (proj1 (proj1 H)) (proj1 (proj2 (proj2 (proj2 (proj2 (proj1 H))))))).
Defined.
